(** * vllm/spec_decode/multi_proposers_worker.py: MultiProposersWorker

    A shallow embedding of the coordinator that chooses, for a batch of
    sequences, which registered proposer produces the speculative proposals,
    and of the partition / dispatch / merge path that serves every sequence
    with its own proposer.

    Python objects that are mutated in place (the SpecDecodeParams of a
    sequence) live in a heap; calls into the proposers are recorded in a
    call log; exceptions are values.  The three are threaded by one monad. *)

From Stdlib Require Import ZArith.
From stdpp Require Import base list strings.

Local Open Scope string_scope.
Local Open Scope list_scope.
Local Open Scope nat_scope.

(** ** Python values used by the module *)

(** The exceptions the module and its collaborators can raise. *)
Inductive exn : Type :=
| AttributeError
| KeyError (key : string)
| IndexError
| TypeError
| RuntimeError
| ValueError
| NotImplementedError
| WorkerError (what : string).

Inductive outcome (A : Type) : Type :=
| Return (a : A)
| Raise (e : exn).
Arguments Return {A} a.
Arguments Raise {A} e.

(** A [dict] with string keys.  Python dictionaries keep their keys in
    insertion order and that order is what [keys()], [values()], [items()]
    and [max] walk through, so the model is the list of items. *)
Abbreviation dict V := (list (string * V)).

Fixpoint dict_get {V} (d : dict V) (k : string) : option V :=
  match d with
  | [] => None
  | (k', v) :: d' => if decide (k' = k) then Some v else dict_get d' k
  end.

(** [d[k] = v]: the value is replaced where the key already is, a new key
    goes to the end. *)
Fixpoint dict_set {V} (d : dict V) (k : string) (v : V) : dict V :=
  match d with
  | [] => [(k, v)]
  | (k', v') :: d' =>
      if decide (k' = k) then (k, v) :: d' else (k', v') :: dict_set d' k v
  end.

Definition dict_keys {V} (d : dict V) : list string := d.*1.

(** [k in d] *)
Definition dict_contains {V} (d : dict V) (k : string) : bool :=
  bool_decide (k ∈ dict_keys d).

(** ** Sequences, requests and the heap of SpecDecodeParams objects *)

(** The only part of a SpecDecodeParams object the module touches is the
    proposer name behind [get_proposer] / [set_proposer]. *)
Record SpecDecodeParams : Type := { proposer_name : string }.

(** [spec_decode_params] is either [None] or a reference to a
    SpecDecodeParams object; an object is truthy, [None] is not. *)
Record SequenceGroupMetadata : Type := {
  request_id : string;
  spec_decode_params : option nat
}.

Record ExecuteModelRequest : Type := {
  seq_group_metadata_list : list SequenceGroupMetadata
}.

(** [execute_model_req.clone(sq_list)] *)
Definition clone (execute_model_req : ExecuteModelRequest)
    (sq_list : list SequenceGroupMetadata) : ExecuteModelRequest :=
  {| seq_group_metadata_list := sq_list |}.

Definition Heap : Type := nat -> SpecDecodeParams.

Definition heap_store (a : nat) (o : SpecDecodeParams) (h : Heap) : Heap :=
  fun b => if decide (b = a) then o else h b.

(** Calls made on the registered workers, by registry key. *)
Inductive Call : Type :=
| call_get_spec_proposals (proposer : string) (req : ExecuteModelRequest)
    (seq_ids_with_bonus_token_in_last_step : list Z)
| call_execute_model (proposer : string) (req : ExecuteModelRequest)
| call_get_cache_block_size_bytes (proposer : string)
| call_determine_num_available_blocks (proposer : string)
| call_initialize_cache (proposer : string) (num_gpu_blocks num_cpu_blocks : Z).

Record World : Type := { heap : Heap; calls : list Call }.

(** ** The monad: heap, call log and exceptions *)

Definition M (A : Type) : Type := World -> outcome A * World.

Global Instance M_ret : MRet M := fun A (a : A) w => (Return a, w).

Global Instance M_bind : MBind M := fun A B (f : A -> M B) (m : M A) w =>
  match m w with
  | (Return a, w') => f a w'
  | (Raise e, w') => (Raise e, w')
  end.

Definition raise {A} (e : exn) : M A := fun w => (Raise e, w).

Definition lift_outcome {A} (o : outcome A) : M A := fun w => (o, w).

Definition get_heap : M Heap := fun w => (Return (heap w), w).

Definition log_call (c : Call) : M unit := fun w =>
  (Return tt, {| heap := heap w; calls := calls w ++ [c] |}).

(** [sd_params.get_proposer()] *)
Definition get_proposer (sd_params : nat) : M string := fun w =>
  (Return (proposer_name (heap w sd_params)), w).

(** [sd_params.set_proposer(proposer)] *)
Definition set_proposer (sd_params : nat) (proposer : string) : M unit := fun w =>
  (Return tt,
   {| heap := heap_store sd_params {| proposer_name := proposer |} (heap w);
      calls := calls w |}).

(** [d[k]] on a dictionary *)
Definition getitem {V} (d : dict V) (k : string) : M V :=
  match dict_get d k with
  | Some v => mret v
  | None => raise (KeyError k)
  end.

(** [l[i]] and [l[i] = x] on a list or along the first axis of a tensor,
    for an index that is not negative *)
Definition list_getitem {A} (l : list A) (i : nat) : M A :=
  match l !! i with
  | Some x => mret x
  | None => raise IndexError
  end.

Definition list_setitem {A} (l : list A) (i : nat) (x : A) : M (list A) :=
  if bool_decide (i < length l) then mret (<[i := x]> l) else raise IndexError.

(** A [for] loop over [enumerate(l)] that starts counting at [i].  The body
    returns the loop-carried locals and says whether it ran into [break].
    The loop returns the locals and the index at which it broke, [None] when
    the list was exhausted (the case in which Python runs a loop's [else]). *)
Inductive flow : Type := Next | Break.

Fixpoint for_enumerate {A St} (body : nat -> A -> St -> M (St * flow))
    (i : nat) (l : list A) (s : St) : M (St * option nat) :=
  match l with
  | [] => mret (s, None)
  | x :: l' =>
      r ← body i x s;
      match r.2 with
      | Break => mret (r.1, Some i)
      | Next => for_enumerate body (S i) l' r.1
      end
  end.

(** [max(d, key=d.get)] keeps the first key whose count is greater than
    every count before it; for a key of [d], [d.get] is the count stored
    with it.  [max] of an empty iterable raises ValueError. *)
Fixpoint max_from (best : string * nat) (l : list (string * nat)) : string :=
  match l with
  | [] => best.1
  | x :: l' => max_from (if bool_decide (best.2 < x.2) then x else best) l'
  end.

Definition dict_max (d : dict nat) : M string :=
  match d with
  | [] => raise ValueError
  | x :: d' => mret (max_from x d')
  end.

(** The reserved name of the proposer that is used when none, or an unknown
    one, is asked for. *)
Definition ngram : string := "[ngram]".

(** ** Workers and the coordinator *)

(** What [torch.stack] looks at in a tensor: its size ([t.size()]) and the
    device it lives on ([t.device]). *)
Class TensorOps (Tensor : Type) : Type := {
  tensor_size : Tensor -> list nat;
  tensor_device : Tensor -> string
}.

Section Coordinator.

(** Tensors and sampler outputs are produced by the workers and only moved
    around here.  A tensor with a batch axis is kept as the list of its
    slices along that axis: [t[i]] is the [i]-th slice. *)
Variables (Tensor SamplerOutput : Type).
Context `{TensorOps Tensor}.

Record SpeculativeProposals : Type := {
  proposal_token_ids : list Tensor;
  proposal_probs : list Tensor;
  proposal_lens : list Tensor
}.

(** What a registered worker does when one of its methods is called.  A
    worker reads the sequences it is given and may fail; it does not change
    the proposer name of a sequence.  The two cache queries are given by
    what the worker reports. *)
Record WorkerOps : Type := {
  worker_get_spec_proposals :
    Heap -> ExecuteModelRequest -> list Z -> outcome SpeculativeProposals;
  worker_execute_model :
    Heap -> ExecuteModelRequest -> outcome (list SamplerOutput);
  worker_get_cache_block_size_bytes : Z;
  worker_determine_num_available_blocks : Z * Z;
  worker_initialize_cache : Z -> Z -> outcome unit
}.

(** The classes [isinstance] tells apart: MultiStepWorker (with its
    subclasses), SmallerTpProposerWorker whose attribute [_worker] may be
    missing, and every other ProposerWorkerBase. *)
#[warnings="-register-all"]
Inductive Worker : Type :=
| MultiStepWorker (ops : WorkerOps)
| SmallerTpProposerWorker (_worker : option Worker) (ops : WorkerOps)
| OtherProposerWorker (ops : WorkerOps).

Definition worker_ops (obj : Worker) : WorkerOps :=
  match obj with
  | MultiStepWorker ops => ops
  | SmallerTpProposerWorker _ ops => ops
  | OtherProposerWorker ops => ops
  end.

(** [self._workers] *)
Definition Registry : Type := dict Worker.

(** Lines 279-286.  The result is [None] where the Python function reaches
    its end without a [return]. *)
Fixpoint is_multi_step_worker_instance (obj : Worker) : option bool :=
  match obj with
  | MultiStepWorker _ => Some true
  | SmallerTpProposerWorker _worker _ =>
      match _worker with
      | Some inner => is_multi_step_worker_instance inner
      | None => None
      end
  | OtherProposerWorker _ => Some false
  end.

(** The truth value of an [Optional[bool]] in an [if]. *)
Definition truthy (r : option bool) : bool :=
  match r with
  | Some true => true
  | _ => false
  end.

(** A method call on a worker: logged, then answered from the heap as it is
    at the call. *)
Definition invoke_get_spec_proposals (proposer : string) (worker : Worker)
    (req : ExecuteModelRequest) (bonus : list Z) : M (outcome SpeculativeProposals) :=
  log_call (call_get_spec_proposals proposer req bonus);;
  h ← get_heap;
  mret (worker_get_spec_proposals (worker_ops worker) h req bonus).

Definition invoke_execute_model (proposer : string) (worker : Worker)
    (req : ExecuteModelRequest) : M (list SamplerOutput) :=
  log_call (call_execute_model proposer req);;
  h ← get_heap;
  lift_outcome (worker_execute_model (worker_ops worker) h req).

Definition valid_proposers_of (_workers : Registry) : list string :=
  dict_keys _workers.

(** *** execute_model, lines 92-128 *)

Definition execute_model_body (_workers : Registry) (valid_proposers : list string)
    (_ : nat) (seq : SequenceGroupMetadata) (proposer : string) : M (string * flow) :=
  match spec_decode_params seq with
  | Some sd_params =>
      proposer ← get_proposer sd_params;
      proposer ←
        (if bool_decide (proposer ∉ valid_proposers)
         then set_proposer sd_params ngram;; mret ngram
         else mret proposer);
      worker ← getitem _workers proposer;
      if truthy (is_multi_step_worker_instance worker)
      then mret (proposer, Break)
      else mret (proposer, Next)
  | None => mret (proposer, Next)
  end.

Definition execute_model (_workers : Registry)
    (execute_model_req : option ExecuteModelRequest) : M (list SamplerOutput) :=
  match execute_model_req with
  | None => mret []
  | Some req =>
      let seq_group_metadata_list := seq_group_metadata_list req in
      let valid_proposers := valid_proposers_of _workers in
      r ← for_enumerate (execute_model_body _workers valid_proposers) 0
            seq_group_metadata_list ngram;
      match r.2 with
      | None => mret []
      | Some _ =>
          worker ← getitem _workers r.1;
          invoke_execute_model r.1 worker req
      end
  end.

(** *** The cache operations, lines 130-150.  A [return] inside the loop is
    a [break] that carries the returned value. *)

Definition get_cache_block_size_bytes_body (_ : nat) (item : string * Worker)
    (found : option Z) : M (option Z * flow) :=
  if truthy (is_multi_step_worker_instance item.2)
  then log_call (call_get_cache_block_size_bytes item.1);;
       mret (Some (worker_get_cache_block_size_bytes (worker_ops item.2)), Break)
  else mret (found, Next).

Definition get_cache_block_size_bytes (_workers : Registry) : M Z :=
  r ← for_enumerate get_cache_block_size_bytes_body 0 _workers None;
  match r.1 with
  | Some size => mret size
  | None => mret 0%Z
  end.

Definition determine_num_available_blocks_body (_ : nat) (item : string * Worker)
    (found : option (Z * Z)) : M (option (Z * Z) * flow) :=
  if truthy (is_multi_step_worker_instance item.2)
  then log_call (call_determine_num_available_blocks item.1);;
       mret (Some (worker_determine_num_available_blocks (worker_ops item.2)), Break)
  else mret (found, Next).

Definition determine_num_available_blocks (_workers : Registry) : M (Z * Z) :=
  r ← for_enumerate determine_num_available_blocks_body 0 _workers None;
  match r.1 with
  | Some blocks => mret blocks
  | None => mret ((-1)%Z, (-1)%Z)
  end.

Definition initialize_cache_body (num_gpu_blocks num_cpu_blocks : Z) (_ : nat)
    (item : string * Worker) (_ : unit) : M (unit * flow) :=
  if truthy (is_multi_step_worker_instance item.2)
  then log_call (call_initialize_cache item.1 num_gpu_blocks num_cpu_blocks);;
       lift_outcome
         (worker_initialize_cache (worker_ops item.2) num_gpu_blocks num_cpu_blocks);;
       mret (tt, Next)
  else mret (tt, Next).

Definition initialize_cache (_workers : Registry)
    (num_gpu_blocks num_cpu_blocks : Z) : M unit :=
  for_enumerate (initialize_cache_body num_gpu_blocks num_cpu_blocks) 0 _workers tt;;
  mret tt.

(** *** _get_proposer_for_this_step, lines 152-207 *)

Definition popularity_body (valid_proposers : list string) (_ : nat)
    (seq : SequenceGroupMetadata) (proposer_count : dict nat)
    : M (dict nat * flow) :=
  match spec_decode_params seq with
  | Some sd_params =>
      proposer ← get_proposer sd_params;
      if bool_decide (proposer ∉ valid_proposers)
      then mret (proposer_count, Next)
      else
        let proposer_count :=
          if negb (dict_contains proposer_count proposer)
          then dict_set proposer_count proposer 0
          else proposer_count in
        count ← getitem proposer_count proposer;
        mret (dict_set proposer_count proposer (count + 1), Next)
  | None => mret (proposer_count, Next)
  end.

Definition proposal_latency_body (valid_proposers : list string) (_ : nat)
    (seq : SequenceGroupMetadata) (chosen_proposer : string)
    : M (string * flow) :=
  match spec_decode_params seq with
  | Some sd_params =>
      proposer ← get_proposer sd_params;
      if bool_decide (proposer = ngram)
      then mret (proposer, Break)
      else if bool_decide (proposer ∉ valid_proposers)
      then mret (chosen_proposer, Next)
      else mret (proposer, Next)
  | None => mret (chosen_proposer, Next)
  end.

Definition _get_proposer_for_this_step (_workers : Registry)
    (execute_model_req : option ExecuteModelRequest)
    (schedule_policy : option string) : M string :=
  let chosen_proposer := ngram in
  req ← match execute_model_req with
        | Some req => mret req
        | None => raise AttributeError
        end;
  let seq_group_metadata_list := seq_group_metadata_list req in
  let valid_proposers := valid_proposers_of _workers in
  if bool_decide (schedule_policy = Some "popularity") then
    r ← for_enumerate (popularity_body valid_proposers) 0
          seq_group_metadata_list [];
    let proposer_count := r.1 in
    if bool_decide (length (dict_keys proposer_count) ≠ 0)
    then dict_max proposer_count
    else mret chosen_proposer
  else if bool_decide (schedule_policy = Some "proposal_latency") then
    r ← for_enumerate (proposal_latency_body valid_proposers) 0
          seq_group_metadata_list chosen_proposer;
    mret r.1
  else if bool_decide (schedule_policy = Some "proposal_quality") then
    raise NotImplementedError
  else
    raise ValueError.

(** *** get_spec_proposals, lines 63-89 *)

Definition get_spec_proposals (_workers : Registry)
    (execute_model_req : ExecuteModelRequest)
    (seq_ids_with_bonus_token_in_last_step : list Z) : M SpeculativeProposals :=
  chosen_proposer ← _get_proposer_for_this_step _workers
                      (Some execute_model_req) (Some "proposal_latency");
  worker ← getitem _workers chosen_proposer;
  result ← invoke_get_spec_proposals chosen_proposer worker execute_model_req
             seq_ids_with_bonus_token_in_last_step;
  lift_outcome result.

(** *** _get_combined_spec_proposals, lines 209-277 *)

(** Lines 224-235: the two dictionaries are filled side by side. *)
Definition partition_body (valid_proposers : list string) (idx : nat)
    (seq : SequenceGroupMetadata)
    (st : dict (list SequenceGroupMetadata) * dict (list nat))
    : M ((dict (list SequenceGroupMetadata) * dict (list nat)) * flow) :=
  let proposer_requests := st.1 in
  let original_indices := st.2 in
  match spec_decode_params seq with
  | Some sd_params =>
      proposer ← get_proposer sd_params;
      let proposer :=
        if bool_decide (proposer ∉ valid_proposers) then ngram else proposer in
      let fresh := negb (dict_contains proposer_requests proposer) in
      let proposer_requests :=
        if fresh then dict_set proposer_requests proposer [] else proposer_requests in
      let original_indices :=
        if fresh then dict_set original_indices proposer [] else original_indices in
      sq_list ← getitem proposer_requests proposer;
      indices ← getitem original_indices proposer;
      mret ((dict_set proposer_requests proposer (sq_list ++ [seq]),
             dict_set original_indices proposer (indices ++ [idx])), Next)
  | None => mret (st, Next)
  end.

(** Lines 245-251: one task per proposer with a non-empty list.  A future is
    kept with its proposer, in the order of submission; what it holds is what
    the worker's call returns or raises. *)
Definition submit_body (_workers : Registry) (execute_model_req : ExecuteModelRequest)
    (seq_ids_with_bonus_token_in_last_step : list Z) (_ : nat)
    (item : string * list SequenceGroupMetadata)
    (futures : list (string * outcome SpeculativeProposals))
    : M (list (string * outcome SpeculativeProposals) * flow) :=
  let proposer := item.1 in
  let sq_list := item.2 in
  if bool_decide (length sq_list ≠ 0) then
    worker ← getitem _workers proposer;
    future ← invoke_get_spec_proposals proposer worker
               (clone execute_model_req sq_list)
               seq_ids_with_bonus_token_in_last_step;
    mret (futures ++ [(proposer, future)], Next)
  else mret (futures, Next).

(** Lines 253-255: [future.result()] raises what the task raised. *)
Definition result_body (_ : nat) (item : string * outcome SpeculativeProposals)
    (all_proposals : dict SpeculativeProposals)
    : M (dict SpeculativeProposals * flow) :=
  proposals ← lift_outcome item.2;
  mret (dict_set all_proposals item.1 proposals, Next).

Record Merged : Type := {
  merged_token_ids : list (option Tensor);
  merged_probs : list (option Tensor);
  merged_lens : list (option Tensor)
}.

(** Lines 267-270 *)
Definition merge_body (proposals : SpeculativeProposals) (i : nat) (idx : nat)
    (merged : Merged) : M (Merged * flow) :=
  token_ids ← list_getitem (proposal_token_ids proposals) i;
  merged_token_ids ← list_setitem (merged_token_ids merged) idx (Some token_ids);
  probs ← list_getitem (proposal_probs proposals) i;
  merged_probs ← list_setitem (merged_probs merged) idx (Some probs);
  lens ← list_getitem (proposal_lens proposals) i;
  merged_lens ← list_setitem (merged_lens merged) idx (Some lens);
  mret ({| merged_token_ids := merged_token_ids;
           merged_probs := merged_probs;
           merged_lens := merged_lens |}, Next).

(** Lines 264-270 *)
Definition combine_body (all_proposals : dict SpeculativeProposals) (_ : nat)
    (item : string * list nat) (merged : Merged) : M (Merged * flow) :=
  let proposer := item.1 in
  let indices := item.2 in
  proposals ← getitem all_proposals proposer;
  if bool_decide (length indices ≠ 0) then
    r ← for_enumerate (merge_body proposals) 0 indices merged;
    mret (r.1, Next)
  else mret (merged, Next).

(** [torch.stack] wants a non-empty list in which every element is a tensor,
    and the tensors to have one size and live on one device.  It raises
    RuntimeError on an empty list, TypeError on an element that is [None]
    (the arguments are parsed before they are compared), and RuntimeError on
    tensors that differ in size or device. *)
Fixpoint all_tensors (l : list (option Tensor)) : option (list Tensor) :=
  match l with
  | [] => Some []
  | Some t :: l' =>
      match all_tensors l' with
      | Some ts => Some (t :: ts)
      | None => None
      end
  | None :: _ => None
  end.

Definition stackable (t u : Tensor) : bool :=
  bool_decide (tensor_size u = tensor_size t)
  && bool_decide (tensor_device u = tensor_device t).

(** Every tensor of the list can be stacked with the first. *)
Definition all_stackable (ts : list Tensor) : bool :=
  match ts with
  | [] => true
  | t :: ts' => forallb (stackable t) ts'
  end.

Definition torch_stack (l : list (option Tensor)) : M (list Tensor) :=
  match l with
  | [] => raise RuntimeError
  | _ :: _ =>
      match all_tensors l with
      | Some ts =>
          if all_stackable ts then mret ts else raise RuntimeError
      | None => raise TypeError
      end
  end.

Definition _get_combined_spec_proposals (_workers : Registry)
    (execute_model_req : ExecuteModelRequest)
    (seq_ids_with_bonus_token_in_last_step : list Z) : M SpeculativeProposals :=
  let valid_proposers := valid_proposers_of _workers in
  r ← for_enumerate (partition_body valid_proposers) 0
        (seq_group_metadata_list execute_model_req) ([], []);
  let proposer_requests := r.1.1 in
  let original_indices := r.1.2 in
  r ← for_enumerate
        (submit_body _workers execute_model_req seq_ids_with_bonus_token_in_last_step)
        0 proposer_requests [];
  let futures := r.1 in
  r ← for_enumerate result_body 0 futures [];
  let all_proposals := r.1 in
  let seq_group_metadata_length :=
    length (seq_group_metadata_list execute_model_req) in
  let merged :=
    {| merged_token_ids := replicate seq_group_metadata_length None;
       merged_probs := replicate seq_group_metadata_length None;
       merged_lens := replicate seq_group_metadata_length None |} in
  r ← for_enumerate (combine_body all_proposals) 0 original_indices merged;
  let merged := r.1 in
  token_ids ← torch_stack (merged_token_ids merged);
  probs ← torch_stack (merged_probs merged);
  lens ← torch_stack (merged_lens merged);
  mret {| proposal_token_ids := token_ids;
          proposal_probs := probs;
          proposal_lens := lens |}.

End Coordinator.

Arguments proposal_token_ids {Tensor} _.
Arguments proposal_probs {Tensor} _.
Arguments proposal_lens {Tensor} _.
Arguments Build_SpeculativeProposals {Tensor} _ _ _.
Arguments worker_get_spec_proposals {Tensor SamplerOutput} _ _ _ _.
Arguments worker_execute_model {Tensor SamplerOutput} _ _ _.
Arguments worker_get_cache_block_size_bytes {Tensor SamplerOutput} _.
Arguments worker_determine_num_available_blocks {Tensor SamplerOutput} _.
Arguments worker_initialize_cache {Tensor SamplerOutput} _ _ _.
Arguments Build_WorkerOps {Tensor SamplerOutput} _ _ _ _ _.
Arguments MultiStepWorker {Tensor SamplerOutput} ops.
Arguments SmallerTpProposerWorker {Tensor SamplerOutput} _worker ops.
Arguments OtherProposerWorker {Tensor SamplerOutput} ops.
Arguments worker_ops {Tensor SamplerOutput} obj.
Arguments is_multi_step_worker_instance {Tensor SamplerOutput} obj.
Arguments valid_proposers_of {Tensor SamplerOutput} _workers.
Arguments execute_model_body {Tensor SamplerOutput} _workers valid_proposers _ seq proposer.
Arguments execute_model {Tensor SamplerOutput} _workers execute_model_req.
Arguments get_cache_block_size_bytes {Tensor SamplerOutput} _workers.
Arguments determine_num_available_blocks {Tensor SamplerOutput} _workers.
Arguments initialize_cache {Tensor SamplerOutput} _workers num_gpu_blocks num_cpu_blocks.
Arguments _get_proposer_for_this_step {Tensor SamplerOutput} _workers
  execute_model_req schedule_policy.
Arguments get_spec_proposals {Tensor SamplerOutput} _workers execute_model_req
  seq_ids_with_bonus_token_in_last_step.
Arguments _get_combined_spec_proposals {Tensor SamplerOutput _} _workers
  execute_model_req seq_ids_with_bonus_token_in_last_step.
Arguments merged_token_ids {Tensor} _.
Arguments merged_probs {Tensor} _.
Arguments merged_lens {Tensor} _.
Arguments Build_Merged {Tensor} _ _ _.
Arguments merge_body {Tensor} proposals i idx merged.
Arguments combine_body {Tensor} all_proposals _ item merged.
Arguments result_body {Tensor} _ item all_proposals.
Arguments submit_body {Tensor SamplerOutput} _workers execute_model_req
  seq_ids_with_bonus_token_in_last_step _ item futures.
Arguments all_tensors {Tensor} l.
Arguments stackable {Tensor _} t u.
Arguments all_stackable {Tensor _} ts.
Arguments torch_stack {Tensor _} l.
Arguments invoke_get_spec_proposals {Tensor SamplerOutput} proposer worker req bonus.
Arguments invoke_execute_model {Tensor SamplerOutput} proposer worker req.
Arguments get_cache_block_size_bytes_body {Tensor SamplerOutput} _ item found.
Arguments determine_num_available_blocks_body {Tensor SamplerOutput} _ item found.
Arguments initialize_cache_body {Tensor SamplerOutput} num_gpu_blocks num_cpu_blocks _ item _.

(** ** Vocabulary of the properties *)

(** The proposer a sequence asks for, read through the heap. *)
Definition assignment (h : Heap) (seq : SequenceGroupMetadata) : option string :=
  (fun sd_params => proposer_name (h sd_params)) <$> spec_decode_params seq.

(** A name that is not a key of the registry stands for the fallback. *)
Definition resolve (valid_proposers : list string) (proposer : string) : string :=
  if bool_decide (proposer ∉ valid_proposers) then ngram else proposer.

(** The proposer that serves a sequence which asks for one. *)
Definition served_by (h : Heap) (valid_proposers : list string)
    (seq : SequenceGroupMetadata) : option string :=
  resolve valid_proposers <$> assignment h seq.

(** The sequence asks for a proposer whose worker, once the name is resolved,
    runs model steps. *)
Definition steps_models {Tensor SamplerOutput} (_workers : Registry Tensor SamplerOutput)
    (h : Heap) (seq : SequenceGroupMetadata) : bool :=
  match served_by h (valid_proposers_of _workers) seq with
  | Some proposer =>
      match dict_get _workers proposer with
      | Some worker => truthy (is_multi_step_worker_instance worker)
      | None => false
      end
  | None => false
  end.

(** [h] is [h0] in which some unregistered proposer names were replaced by
    the fallback. *)
Definition coerced (valid_proposers : list string) (h0 h : Heap) : Prop :=
  ∀ a, h a = h0 a
       ∨ ((proposer_name (h0 a) ∉ valid_proposers) ∧ proposer_name (h a) = ngram).

(** The dictionary with the keys [ks], in this order, and the values [f]. *)
Definition dict_of {V} (f : string → V) (ks : list string) : dict V :=
  (fun k => (k, f k)) <$> ks.

(** The number of sequences of the batch that ask for [proposer]. *)
Definition votes (h : Heap) (batch : list SequenceGroupMetadata)
    (proposer : string) : nat :=
  length (filter (fun seq => assignment h seq = Some proposer) batch).

(** Some sequence of the batch asks for [p] and no sequence before it asks
    for [q]: [p] is asked for first. *)
Definition asked_before (h : Heap) (batch : list SequenceGroupMetadata)
    (p q : string) : Prop :=
  ∃ before seq after,
    batch = before ++ seq :: after
    ∧ assignment h seq = Some p
    ∧ ∀ seq', seq' ∈ before → assignment h seq' ≠ Some q.

(** The counts after the first [n] sequences: one key per registered name
    asked for so far, in the order in which the names were first asked for,
    each with the number of sequences that asked for it. *)
Definition counted (h : Heap) (valid : list string)
    (prefix : list SequenceGroupMetadata) (d : dict nat) : Prop :=
  ∃ ks,
    d = dict_of (votes h prefix) ks
    ∧ NoDup ks
    ∧ (∀ p, p ∈ ks ↔ p ∈ valid ∧ 0 < votes h prefix p)
    ∧ (∀ i j p q, ks !! i = Some p → ks !! j = Some q → i < j →
         asked_before h prefix p q).

(** The sequences of the batch that [proposer] serves, in batch order: the
    sub-batch handed to its worker. *)
Definition group (h : Heap) (valid : list string)
    (batch : list SequenceGroupMetadata) (proposer : string)
    : list SequenceGroupMetadata :=
  filter (fun seq => served_by h valid seq = Some proposer) batch.

(** The positions of those sequences, for a batch that starts at position [i]. *)
Fixpoint group_indices_from (h : Heap) (valid : list string) (proposer : string)
    (i : nat) (batch : list SequenceGroupMetadata) : list nat :=
  match batch with
  | [] => []
  | seq :: batch' =>
      (if decide (served_by h valid seq = Some proposer) then [i] else [])
      ++ group_indices_from h valid proposer (S i) batch'
  end.

Definition group_indices (h : Heap) (valid : list string)
    (batch : list SequenceGroupMetadata) (proposer : string) : list nat :=
  group_indices_from h valid proposer 0 batch.

(** The two dictionaries of lines 220-235 after the sequences [prefix]. *)
Definition partitioned (h : Heap) (valid : list string)
    (prefix : list SequenceGroupMetadata)
    (st : dict (list SequenceGroupMetadata) * dict (list nat)) : Prop :=
  ∃ ks,
    st.1 = dict_of (group h valid prefix) ks
    ∧ st.2 = dict_of (group_indices h valid prefix) ks
    ∧ NoDup ks
    ∧ (∀ p, p ∈ ks ↔ ∃ seq, seq ∈ prefix ∧ served_by h valid seq = Some p).

(** What the worker registered as [p] answers when it is handed its group. *)
Definition backend_result {Tensor SamplerOutput}
    (_workers : Registry Tensor SamplerOutput) (h : Heap)
    (req : ExecuteModelRequest) (bonus : list Z) (p : string)
    : outcome (SpeculativeProposals Tensor) :=
  match dict_get _workers p with
  | Some worker =>
      worker_get_spec_proposals (worker_ops worker) h
        (clone req (group h (valid_proposers_of _workers)
                      (seq_group_metadata_list req) p)) bonus
  | None => Raise (KeyError p)
  end.

Definition answer_of {Tensor} (o : outcome (SpeculativeProposals Tensor))
    : SpeculativeProposals Tensor :=
  match o with
  | Return a => a
  | Raise _ =>
      {| proposal_token_ids := []; proposal_probs := []; proposal_lens := [] |}
  end.

(** [cur] is [old] after the first [j] assignments [cur[indices[k]] = src[k]]
    of lines 267-270. *)
Definition written {Tensor} (src : list Tensor) (indices : list nat) (j : nat)
    (old cur : list (option Tensor)) : Prop :=
  length cur = length old
  ∧ (∀ k idx, k < j → indices !! k = Some idx →
       ∃ t, src !! k = Some t ∧ cur !! idx = Some (Some t))
  ∧ (∀ i, (∀ k, k < j → indices !! k ≠ Some i) → cur !! i = old !! i).

(** [cur] is the list of [n] empty slots after the groups of the proposers
    [ps] have been written into it, each row at the position recorded for it. *)
Definition scattered {Tensor} (field : SpeculativeProposals Tensor → list Tensor)
    (answer : string → SpeculativeProposals Tensor) (indices : string → list nat)
    (ps : list string) (n : nat) (cur : list (option Tensor)) : Prop :=
  length cur = n
  ∧ (∀ p k idx, p ∈ ps → indices p !! k = Some idx →
       ∃ t, field (answer p) !! k = Some t ∧ cur !! idx = Some (Some t))
  ∧ (∀ i, i < n → (∀ p, p ∈ ps → i ∉ indices p) → cur !! i = Some None).

(** Every proposer that serves a sequence of the batch is registered, and its
    worker answers its group with a row for each sequence of the group. *)
Definition workers_answer {Tensor SamplerOutput}
    (_workers : Registry Tensor SamplerOutput) (h : Heap)
    (req : ExecuteModelRequest) (bonus : list Z) : Prop :=
  ∀ p,
    (∃ seq, seq ∈ seq_group_metadata_list req
            ∧ served_by h (valid_proposers_of _workers) seq = Some p) →
    ∃ worker a,
      dict_get _workers p = Some worker
      ∧ backend_result _workers h req bonus p = Return a
      ∧ length (group h (valid_proposers_of _workers) (seq_group_metadata_list req) p)
        ≤ length (proposal_token_ids a)
      ∧ length (group h (valid_proposers_of _workers) (seq_group_metadata_list req) p)
        ≤ length (proposal_probs a)
      ∧ length (group h (valid_proposers_of _workers) (seq_group_metadata_list req) p)
        ≤ length (proposal_lens a).

(** Two tensors that [torch.stack] takes together. *)
Definition alike {Tensor} `{TensorOps Tensor} (t u : Tensor) : Prop :=
  tensor_size t = tensor_size u ∧ tensor_device t = tensor_device u.

(** The rows that the serving workers answer for their sequences can be
    stacked: in the list [field] of the answers, the row of one sequence is
    like the row of any other. *)
Definition rows_agree_in {Tensor SamplerOutput} `{TensorOps Tensor}
    (field : SpeculativeProposals Tensor → list Tensor)
    (_workers : Registry Tensor SamplerOutput) (h : Heap)
    (req : ExecuteModelRequest) (bonus : list Z) : Prop :=
  ∀ p q a b j k t u,
    backend_result _workers h req bonus p = Return a →
    backend_result _workers h req bonus q = Return b →
    j < length (group h (valid_proposers_of _workers) (seq_group_metadata_list req) p) →
    k < length (group h (valid_proposers_of _workers) (seq_group_metadata_list req) q) →
    field a !! j = Some t →
    field b !! k = Some u →
    alike t u.

Definition rows_agree {Tensor SamplerOutput} `{TensorOps Tensor}
    (_workers : Registry Tensor SamplerOutput) (h : Heap)
    (req : ExecuteModelRequest) (bonus : list Z) : Prop :=
  rows_agree_in proposal_token_ids _workers h req bonus
  ∧ rows_agree_in proposal_probs _workers h req bonus
  ∧ rows_agree_in proposal_lens _workers h req bonus.

(** Computations that leave the heap as it is. *)
Definition heap_kept {A} (m : M A) : Prop := ∀ w, heap (m w).2 = heap w.


(** ** More of the class, and the vocabulary of its properties *)

(** [inner] behind one SmallerTpProposerWorker for each element of [layers],
    the first of them outermost. *)
Fixpoint wrap_with {Tensor SamplerOutput} (layers : list (WorkerOps Tensor SamplerOutput))
    (inner : Worker Tensor SamplerOutput) : Worker Tensor SamplerOutput :=
  match layers with
  | [] => inner
  | ops :: layers' => SmallerTpProposerWorker (Some (wrap_with layers' inner)) ops
  end.

(** The workers of the registry that pass the probe, in registry order. *)
Definition multi_step_workers {Tensor SamplerOutput}
    (_workers : Registry Tensor SamplerOutput) : Registry Tensor SamplerOutput :=
  filter (fun item => truthy (is_multi_step_worker_instance item.2) = true) _workers.

(** *** __init__, lines 21-35 *)

(** The keyword arguments, by the three keys the constructor reads:
    "model_config" by what its [get_vocab_size()] returns, "worker_list", and
    "parallel_config" by its [tensor_parallel_size]. *)
Record Kwargs {Tensor SamplerOutput : Type} : Type := {
  kwargs_model_config : option Z;
  kwargs_worker_list : option (Registry Tensor SamplerOutput);
  kwargs_parallel_config : option Z
}.
Arguments Kwargs : clear implicits.

(** The two attributes the constructor sets. *)
Record MultiProposersWorker {Tensor SamplerOutput : Type} : Type := {
  self_vocab_size : Z;
  self_workers : Registry Tensor SamplerOutput
}.
Arguments MultiProposersWorker : clear implicits.

Definition __init__ {Tensor SamplerOutput} (kwargs : Kwargs Tensor SamplerOutput)
    : outcome (MultiProposersWorker Tensor SamplerOutput) :=
  match kwargs_model_config kwargs with
  | None => Raise (KeyError "model_config")
  | Some vocab_size =>
      let _workers := default [] (kwargs_worker_list kwargs) in
      match kwargs_parallel_config kwargs with
      | None => Raise (KeyError "parallel_config")
      | Some draft_tp =>
          if bool_decide (draft_tp ≠ 1%Z) then Raise ValueError
          else Return {| self_vocab_size := vocab_size; self_workers := _workers |}
      end
  end.

(** ** Sample workers, heaps and batches *)

(** A sample tensor is a string of tokens separated by blanks: its size is
    the number of its tokens, and all of them live on one device. *)
#[export] Instance string_tensor : TensorOps string :=
  {| tensor_size := fun s =>
       [S (count_occ Ascii.ascii_dec (String.list_ascii_of_string s) Ascii.Space)];
     tensor_device := fun _ => "cpu" |}.

(** A worker that answers every sequence of its sub-batch with its own tag
    followed by the request id of the sequence. *)
Definition stub_ops (tag : string) : WorkerOps string string :=
  let answer (req : ExecuteModelRequest) :=
    (fun seq => tag +:+ ":" +:+ request_id seq) <$> seq_group_metadata_list req in
  {| worker_get_spec_proposals := fun _ req _ =>
       Return {| proposal_token_ids := answer req;
                 proposal_probs := answer req;
                 proposal_lens := answer req |};
     worker_execute_model := fun _ _ => Return [tag];
     worker_get_cache_block_size_bytes := 4096%Z;
     worker_determine_num_available_blocks := (100%Z, 10%Z);
     worker_initialize_cache := fun _ _ => Return tt |}.

(** The heap in which the object at address [a] names the [a]-th proposer of
    the list. *)
Definition heap_of (names : list string) : Heap :=
  fun a => {| proposer_name := default "" (names !! a) |}.

Definition world_of (names : list string) : World :=
  {| heap := heap_of names; calls := [] |}.

(** The sequence whose parameters are the object at address [a]. *)
Definition seq_at (a : nat) : SequenceGroupMetadata :=
  {| request_id := String (Ascii.ascii_of_nat (48 + a)) EmptyString;
     spec_decode_params := Some a |}.

Definition seq_without_params : SequenceGroupMetadata :=
  {| request_id := "none"; spec_decode_params := None |}.

Definition batch_of (n : nat) : ExecuteModelRequest :=
  {| seq_group_metadata_list := seq_at <$> seq 0 n |}.

(** The fallback, a draft model, and a draft model behind a wrapper. *)
Definition sample_workers : Registry string string :=
  [(ngram, OtherProposerWorker (stub_ops ngram));
   ("A", MultiStepWorker (stub_ops "A"));
   ("B", SmallerTpProposerWorker (Some (MultiStepWorker (stub_ops "inner")))
           (stub_ops "B"))].

(** A registry without a worker that runs model steps. *)
Definition heuristic_workers : Registry string string :=
  [(ngram, OtherProposerWorker (stub_ops ngram));
   ("lookup", OtherProposerWorker (stub_ops "lookup"));
   ("bare", SmallerTpProposerWorker None (stub_ops "bare"))].

(** *** Further samples *)

(** A worker whose calls all fail. *)
Definition failing_ops (what : string) : WorkerOps string string :=
  {| worker_get_spec_proposals := fun _ _ _ => Raise (WorkerError what);
     worker_execute_model := fun _ _ => Raise (WorkerError what);
     worker_get_cache_block_size_bytes := 0%Z;
     worker_determine_num_available_blocks := (0%Z, 0%Z);
     worker_initialize_cache := fun _ _ => Raise (WorkerError what) |}.

(** The fallback and a draft model that fails. *)
Definition workers_with_failure : Registry string string :=
  [(ngram, OtherProposerWorker (stub_ops ngram));
   ("A", MultiStepWorker (failing_ops "out of memory"))].

(** Three draft models, the second of which fails. *)
Definition workers_failing_midway : Registry string string :=
  [("A", MultiStepWorker (stub_ops "A"));
   ("F", MultiStepWorker (failing_ops "no blocks"));
   ("C", MultiStepWorker (stub_ops "C"))].

(** The fallback and a draft model whose rows hold two tokens each. *)
Definition workers_with_wide_rows : Registry string string :=
  [(ngram, OtherProposerWorker (stub_ops ngram));
   ("wide", MultiStepWorker (stub_ops "wide draft"))].

(** A registry that lacks the fallback. *)
Definition drafts_only : Registry string string :=
  [("A", MultiStepWorker (stub_ops "A"))].

Definition sample_kwargs : Kwargs string string :=
  {| kwargs_model_config := Some 32000%Z;
     kwargs_worker_list := None;
     kwargs_parallel_config := Some 1%Z |}.

(** * Properties *)

Section Properties.

Context {Tensor SamplerOutput : Type} `{TensorOps Tensor}.
Implicit Types (_workers : Registry Tensor SamplerOutput).
Implicit Types (w : World) (h : Heap) (seq : SequenceGroupMetadata).
Implicit Types (req : ExecuteModelRequest) (proposer : string).

(** ** The loop rule *)

Lemma for_enumerate_shift {A St} (body : nat → A → St → M (St * flow))
    (Inv Brk : nat → St → World → Prop) (Exc : nat → exn → World → Prop)
    (pre l : list A) :
  (∀ n x s w, (pre ++ l) !! n = Some x → Inv n s w →
     match body n x s w with
     | (Return (s', Next), w') => Inv (S n) s' w'
     | (Return (s', Break), w') => Brk n s' w'
     | (Raise e, w') => Exc n e w'
     end) →
  ∀ s w, Inv (length pre) s w →
    match for_enumerate body (length pre) l s w with
    | (Return (s', None), w') => Inv (length (pre ++ l)) s' w'
    | (Return (s', Some n), w') => n < length (pre ++ l) ∧ Brk n s' w'
    | (Raise e, w') => ∃ n, n < length (pre ++ l) ∧ Exc n e w'
    end.
Proof.
  revert pre. induction l as [|x l IH]; intros pre Hbody s w Hinv.
  - cbn. by rewrite app_nil_r.
  - cbn. unfold mbind, M_bind.
    assert (Hx : (pre ++ x :: l) !! length pre = Some x) by by apply list_lookup_middle.
    assert (Hlt : length pre < length (pre ++ x :: l)).
    { rewrite length_app. cbn. lia. }
    specialize (Hbody _ _ _ _ Hx Hinv) as Hstep.
    destruct (body (length pre) x s w) as [[[s' [|]]|e] w']; cbn.
    + specialize (IH (pre ++ [x])).
      rewrite <- !(assoc_L (++)) in IH. cbn in IH.
      rewrite length_app in IH. cbn in IH.
      replace (length pre + 1) with (S (length pre)) in IH by lia.
      by apply IH.
    + done.
    + eauto.
Qed.

(** A loop whose body keeps [Inv] from one index to the next ends in [Inv] at
    the length of the list, in [Brk] at the index of the [break], or in [Exc]
    at the index where an exception left it. *)
Lemma for_enumerate_rule {A St} (body : nat → A → St → M (St * flow))
    (Inv Brk : nat → St → World → Prop) (Exc : nat → exn → World → Prop)
    (l : list A) :
  (∀ n x s w, l !! n = Some x → Inv n s w →
     match body n x s w with
     | (Return (s', Next), w') => Inv (S n) s' w'
     | (Return (s', Break), w') => Brk n s' w'
     | (Raise e, w') => Exc n e w'
     end) →
  ∀ s w, Inv 0 s w →
    match for_enumerate body 0 l s w with
    | (Return (s', None), w') => Inv (length l) s' w'
    | (Return (s', Some n), w') => n < length l ∧ Brk n s' w'
    | (Raise e, w') => ∃ n, n < length l ∧ Exc n e w'
    end.
Proof. intros Hbody s w Hinv. by apply (for_enumerate_shift body Inv Brk Exc [] l). Qed.


(** ** Running the monad *)

Ltac run_monad :=
  repeat (progress (unfold mbind, M_bind, mret, M_ret, raise, lift_outcome,
                      get_heap, log_call, get_proposer, set_proposer; cbn)).

Lemma assignment_Some h seq sd_params :
  spec_decode_params seq = Some sd_params →
  assignment h seq = Some (proposer_name (h sd_params)).
Proof. unfold assignment. by intros ->. Qed.

Lemma assignment_None h seq :
  spec_decode_params seq = None → assignment h seq = None.
Proof. unfold assignment. by intros ->. Qed.

(** ** The capability probe *)

Lemma is_multi_step_worker_instance_direct (ops : WorkerOps Tensor SamplerOutput) :
  is_multi_step_worker_instance (MultiStepWorker ops) = Some true.
Proof. reflexivity. Qed.

Lemma is_multi_step_worker_instance_wrapper
    (inner : Worker Tensor SamplerOutput) (ops : WorkerOps Tensor SamplerOutput) :
  is_multi_step_worker_instance (SmallerTpProposerWorker (Some inner) ops)
  = is_multi_step_worker_instance inner.
Proof. reflexivity. Qed.

Lemma is_multi_step_worker_instance_other (ops : WorkerOps Tensor SamplerOutput) :
  is_multi_step_worker_instance (OtherProposerWorker ops) = Some false.
Proof. reflexivity. Qed.

(** C7, at the input on which the code departs from it: for a
    SmallerTpProposerWorker that has no attribute [_worker] the probe runs off
    the end of the function, so its result is Python's [None] and not the
    boolean [False] its annotation promises. *)
Theorem is_multi_step_worker_instance_bare_wrapper
    (ops : WorkerOps Tensor SamplerOutput) :
  is_multi_step_worker_instance (SmallerTpProposerWorker None ops) = None
  ∧ is_multi_step_worker_instance (SmallerTpProposerWorker None ops) ≠ Some false.
Proof. split; [reflexivity | discriminate]. Qed.

(** ** Policies that are refused *)

(** C9: for every batch, a schedule policy other than "proposal_latency",
    "popularity" and "proposal_quality" ends in ValueError, and
    "proposal_quality" ends in NotImplementedError; neither returns a proposer
    and neither touches the heap or a worker. *)
Theorem schedule_policy_refused _workers req w :
  (∀ schedule_policy,
     schedule_policy ≠ Some "proposal_latency" →
     schedule_policy ≠ Some "popularity" →
     schedule_policy ≠ Some "proposal_quality" →
     _get_proposer_for_this_step _workers (Some req) schedule_policy w
     = (Raise ValueError, w))
  ∧ _get_proposer_for_this_step _workers (Some req) (Some "proposal_quality") w
    = (Raise NotImplementedError, w).
Proof.
  split.
  - intros policy Hlat Hpop Hqual. unfold _get_proposer_for_this_step.
    run_monad. by rewrite !bool_decide_eq_false_2.
  - reflexivity.
Qed.

(** ** Cache operations without a model-stepping worker *)

Lemma cache_loop_skips {St} (body : nat → string * Worker Tensor SamplerOutput → St → M (St * flow))
    _workers (s : St) w :
  (∀ n item s w, item ∈ _workers → body n item s w = (Return (s, Next), w)) →
  for_enumerate body 0 _workers s w = (Return (s, None), w).
Proof.
  intros Hbody.
  pose proof (for_enumerate_rule body
    (fun _ s' w' => s' = s ∧ w' = w) (fun _ _ _ => False) (fun _ _ _ => False)
    _workers) as Hrule.
  specialize (Hrule) with (s := s) (w := w).
  destruct (for_enumerate body 0 _workers s w) as [[[s' [n|]]|e] w'].
  - destruct Hrule as [_ []]; [|done].
    intros n' x s0 w0 Hx [-> ->]. rewrite Hbody; [done|]. by eapply list_elem_of_lookup_2.
  - destruct Hrule as [-> ->]; [|done..].
    intros n' x s0 w0 Hx [-> ->]. rewrite Hbody; [done|]. by eapply list_elem_of_lookup_2.
  - destruct Hrule as [? [_ []]]; [|done].
    intros n' x s0 w0 Hx [-> ->]. rewrite Hbody; [done|]. by eapply list_elem_of_lookup_2.
Qed.

(** C10: when no worker of the registry passes the probe, the cache
    operations answer with their defaults and call no worker:
    determine_num_available_blocks returns (-1, -1),
    get_cache_block_size_bytes returns 0 and initialize_cache returns. *)
Theorem cache_defaults_without_multi_step_worker _workers w
    (num_gpu_blocks num_cpu_blocks : Z) :
  (∀ item, item ∈ _workers → truthy (is_multi_step_worker_instance item.2) = false) →
  determine_num_available_blocks _workers w = (Return ((-1)%Z, (-1)%Z), w)
  ∧ get_cache_block_size_bytes _workers w = (Return 0%Z, w)
  ∧ initialize_cache _workers num_gpu_blocks num_cpu_blocks w = (Return tt, w).
Proof.
  intros Hnone. split_and!.
  - unfold determine_num_available_blocks. unfold mbind at 1, M_bind at 1.
    rewrite cache_loop_skips; [done|].
    intros n item s w' Hitem. unfold determine_num_available_blocks_body.
    by rewrite Hnone.
  - unfold get_cache_block_size_bytes. unfold mbind at 1, M_bind at 1.
    rewrite cache_loop_skips; [done|].
    intros n item s w' Hitem. unfold get_cache_block_size_bytes_body.
    by rewrite Hnone.
  - unfold initialize_cache. unfold mbind at 1, M_bind at 1.
    rewrite cache_loop_skips; [done|].
    intros n item [] w' Hitem. unfold initialize_cache_body.
    by rewrite Hnone.
Qed.

(** ** The proposal_latency policy *)

Lemma proposal_latency_policy _workers req w :
  _get_proposer_for_this_step _workers (Some req) (Some "proposal_latency") w
  = match for_enumerate (proposal_latency_body (valid_proposers_of _workers)) 0
            (seq_group_metadata_list req) ngram w with
    | (Return r, w') => (Return r.1, w')
    | (Raise e, w') => (Raise e, w')
    end.
Proof. reflexivity. Qed.

(** One turn of the loop, by what the sequence asks for. *)
Lemma proposal_latency_body_unassigned valid n seq chosen w :
  assignment (heap w) seq = None →
  proposal_latency_body valid n seq chosen w = (Return (chosen, Next), w).
Proof.
  unfold assignment, proposal_latency_body.
  by destruct (spec_decode_params seq).
Qed.

Lemma proposal_latency_body_assigned valid n seq chosen w proposer :
  assignment (heap w) seq = Some proposer →
  proposal_latency_body valid n seq chosen w
  = (Return (if bool_decide (proposer = ngram) then (proposer, Break)
             else if bool_decide (proposer ∉ valid) then (chosen, Next)
             else (proposer, Next)), w).
Proof.
  unfold assignment, proposal_latency_body.
  destruct (spec_decode_params seq) as [a|]; [|done].
  intros [= <-]. run_monad. by repeat case_bool_decide.
Qed.

(** C4: under the proposal_latency policy a batch in which some sequence asks
    for the fallback gets the fallback, whatever the other sequences ask for
    and wherever that sequence stands; the scan leaves the loop at the first
    such sequence. *)
Theorem proposal_latency_fallback_wins _workers req w :
  (∃ seq, seq ∈ seq_group_metadata_list req ∧ assignment (heap w) seq = Some ngram) →
  _get_proposer_for_this_step _workers (Some req) (Some "proposal_latency") w
  = (Return ngram, w)
  ∧ ∃ k seq,
      seq_group_metadata_list req !! k = Some seq
      ∧ assignment (heap w) seq = Some ngram
      ∧ (∀ j seq', j < k → seq_group_metadata_list req !! j = Some seq' →
           assignment (heap w) seq' ≠ Some ngram)
      ∧ for_enumerate (proposal_latency_body (valid_proposers_of _workers)) 0
          (seq_group_metadata_list req) ngram w
        = (Return (ngram, Some k), w).
Proof.
  intros (seq0 & Hin & Hfallback).
  rewrite proposal_latency_policy.
  set (batch := seq_group_metadata_list req) in *.
  set (valid := valid_proposers_of _workers).
  pose proof (for_enumerate_rule (proposal_latency_body valid)
    (fun n _ w' => w' = w ∧
       ∀ j seq', j < n → batch !! j = Some seq' → assignment (heap w) seq' ≠ Some ngram)
    (fun n s w' => w' = w ∧ s = ngram ∧
       (∃ seq, batch !! n = Some seq ∧ assignment (heap w) seq = Some ngram) ∧
       ∀ j seq', j < n → batch !! j = Some seq' → assignment (heap w) seq' ≠ Some ngram)
    (fun _ _ _ => False) batch) as Hrule.
  specialize (Hrule) with (s := ngram) (w := w).
  destruct (for_enumerate (proposal_latency_body valid) 0 batch ngram w)
    as [[[s' [k|]]|e] w'].
  all: destruct Hrule as [H1 H2];
    [ intros n x s w0 Hx [-> Hbefore];
      destruct (assignment (heap w) x) as [p|] eqn:Hp;
      [ rewrite (proposal_latency_body_assigned _ _ _ _ _ _ Hp);
        repeat case_bool_decide; subst;
        [ by eauto 10
        | split; [done|]; intros j seq' Hj Hseq';
          destruct (decide (j = n)) as [->|];
          [ congruence | apply (Hbefore j); [lia|done] ]..]
      | rewrite (proposal_latency_body_unassigned _ _ _ _ _ Hp);
        split; [done|]; intros j seq' Hj Hseq';
        destruct (decide (j = n)) as [->|];
        [ congruence | apply (Hbefore j); [lia|done] ] ]
    | split; [done|]; intros; lia
    | ].
  - destruct H2 as (-> & -> & (seq & Hseq & Hseq') & Hbefore). cbn.
    split; [done|]. by exists k, seq.
  - apply list_elem_of_lookup in Hin as [i Hi].
    exfalso. eapply (H2 i); [by eapply lookup_lt_Some|done..].
  - by destruct H2.
Qed.

(** C5: under the proposal_latency policy, in a batch in which no sequence
    asks for the fallback, the result is what the last sequence with a
    registered proposer asks for: later registered names replace earlier ones
    and unknown names change nothing.  For a batch that is empty or in which
    no sequence asks for a proposer the result is the fallback. *)
Theorem proposal_latency_last_valid_wins _workers req w :
  ((∀ seq, seq ∈ seq_group_metadata_list req → assignment (heap w) seq ≠ Some ngram) →
   ∀ k seq proposer,
     seq_group_metadata_list req !! k = Some seq →
     assignment (heap w) seq = Some proposer →
     proposer ∈ valid_proposers_of _workers →
     (∀ j seq' proposer', k < j → seq_group_metadata_list req !! j = Some seq' →
        assignment (heap w) seq' = Some proposer' →
        proposer' ∉ valid_proposers_of _workers) →
     _get_proposer_for_this_step _workers (Some req) (Some "proposal_latency") w
     = (Return proposer, w))
  ∧ ((∀ seq, seq ∈ seq_group_metadata_list req → assignment (heap w) seq = None) →
     _get_proposer_for_this_step _workers (Some req) (Some "proposal_latency") w
     = (Return ngram, w)).
Proof.
  set (batch := seq_group_metadata_list req).
  set (valid := valid_proposers_of _workers).
  split.
  - intros Hnofallback k seq proposer Hk Hseq Hvalid Hlater.
    rewrite proposal_latency_policy. fold batch valid.
    pose proof (for_enumerate_rule (proposal_latency_body valid)
      (fun n s w' => w' = w ∧ (k < n → s = proposer))
      (fun _ _ _ => False) (fun _ _ _ => False) batch) as Hrule.
    specialize (Hrule) with (s := ngram) (w := w).
    destruct (for_enumerate (proposal_latency_body valid) 0 batch ngram w)
      as [[[s' [n|]]|e] w'].
    all: destruct Hrule as [H1 H2];
      [ intros n' x s w0 Hx [-> Hchosen];
        destruct (assignment (heap w) x) as [p|] eqn:Hp;
        [ rewrite (proposal_latency_body_assigned _ _ _ _ _ _ Hp);
          pose proof (Hnofallback x (list_elem_of_lookup_2 _ _ _ Hx)) as Hne;
          rewrite bool_decide_eq_false_2 by congruence;
          case_bool_decide as Hpv;
          (split; [done|]); intros Hlt;
          destruct (decide (n' = k)) as [->|];
          [ congruence
          | apply Hchosen; lia
          | congruence
          | exfalso; apply (Hlater n' x p); [lia|done..] ]
        | rewrite (proposal_latency_body_unassigned _ _ _ _ _ Hp);
          split; [done|]; intros Hlt;
          destruct (decide (n' = k)) as [->|]; [congruence | apply Hchosen; lia] ]
      | split; [done|]; lia
      | ].
    + done.
    + cbn. rewrite H2; [by subst|]. by eapply lookup_lt_Some.
    + by destruct H2.
  - intros Hnone. rewrite proposal_latency_policy. fold batch valid.
    pose proof (for_enumerate_rule (proposal_latency_body valid)
      (fun n s w' => w' = w ∧ s = ngram)
      (fun _ _ _ => False) (fun _ _ _ => False) batch) as Hrule.
    specialize (Hrule) with (s := ngram) (w := w).
    destruct (for_enumerate (proposal_latency_body valid) 0 batch ngram w)
      as [[[s' [n|]]|e] w'].
    all: destruct Hrule as [H1 H2];
      [ intros n' x s w0 Hx [-> ->];
        by rewrite proposal_latency_body_unassigned
          by (apply Hnone; by eapply list_elem_of_lookup_2)
      | done
      | ].
    + done.
    + by subst.
    + by destruct H2.
Qed.

(** ** Dictionaries *)

Lemma dict_get_None {V} (d : dict V) k : dict_get d k = None ↔ k ∉ dict_keys d.
Proof.
  unfold dict_keys. induction d as [|[k' v] d IH]; cbn.
  - split; [intros _; apply not_elem_of_nil | done].
  - case_decide as Hk; subst.
    + split; [done|]. intros []. apply list_elem_of_here.
    + rewrite IH, not_elem_of_cons. intuition congruence.
Qed.

Lemma dict_get_Some_key {V} (d : dict V) k v : dict_get d k = Some v → k ∈ dict_keys d.
Proof.
  intros Hget. destruct (decide (k ∈ dict_keys d)) as [|Hn]; [done|].
  apply dict_get_None in Hn. congruence.
Qed.

Lemma dict_get_is_Some {V} (d : dict V) k : k ∈ dict_keys d → is_Some (dict_get d k).
Proof.
  intros Hin. destruct (dict_get d k) eqn:Hget; [by eexists|].
  by apply dict_get_None in Hget.
Qed.

(** ** Resolving names *)

Lemma resolve_valid valid proposer : proposer ∈ valid → resolve valid proposer = proposer.
Proof. intros ?. unfold resolve. by rewrite bool_decide_eq_false_2 by naive_solver. Qed.

Lemma resolve_invalid valid proposer : proposer ∉ valid → resolve valid proposer = ngram.
Proof. intros ?. unfold resolve. by rewrite bool_decide_eq_true_2. Qed.

Lemma resolve_ngram valid : resolve valid ngram = ngram.
Proof. unfold resolve. by case_bool_decide. Qed.

Lemma resolve_cases valid proposer :
  resolve valid proposer ∈ valid ∨ (resolve valid proposer = ngram ∧ ngram ∉ valid).
Proof.
  unfold resolve. case_bool_decide as Hp; [|left; by destruct (decide (proposer ∈ valid))].
  destruct (decide (ngram ∈ valid)); auto.
Qed.

Lemma coerced_refl valid h : coerced valid h h.
Proof. intros a. by left. Qed.

Lemma coerced_resolve valid h0 h a :
  coerced valid h0 h →
  resolve valid (proposer_name (h a)) = resolve valid (proposer_name (h0 a)).
Proof.
  intros Hco. destruct (Hco a) as [->|[Hinv ->]]; [done|].
  by rewrite resolve_ngram, resolve_invalid.
Qed.

Lemma coerced_served_by valid h0 h seq :
  coerced valid h0 h → served_by h valid seq = served_by h0 valid seq.
Proof.
  intros Hco. unfold served_by, assignment.
  destruct (spec_decode_params seq) as [a|]; [|done]. cbn.
  by rewrite (coerced_resolve _ _ _ _ Hco).
Qed.

Lemma coerced_store valid h0 h a :
  coerced valid h0 h → proposer_name (h a) ∉ valid →
  coerced valid h0 (heap_store a {| proposer_name := ngram |} h).
Proof.
  intros Hco Hinv b. unfold heap_store. case_decide as Hb; [subst b|apply Hco].
  destruct (Hco a) as [Heq|[Hinv0 Hng]].
  - right. by rewrite <- Heq.
  - by right.
Qed.

(** ** execute_model *)

(** One turn of the scan. *)
Lemma execute_model_body_unassigned _workers valid n seq proposer w :
  spec_decode_params seq = None →
  execute_model_body _workers valid n seq proposer w = (Return (proposer, Next), w).
Proof. unfold execute_model_body. by intros ->. Qed.

Lemma execute_model_body_assigned _workers valid n seq proposer w a :
  spec_decode_params seq = Some a →
  let asked := proposer_name (heap w a) in
  let w1 := if bool_decide (asked ∉ valid)
            then {| heap := heap_store a {| proposer_name := ngram |} (heap w);
                    calls := calls w |}
            else w in
  execute_model_body _workers valid n seq proposer w
  = match dict_get _workers (resolve valid asked) with
    | Some worker =>
        (Return (resolve valid asked,
                 if truthy (is_multi_step_worker_instance worker) then Break else Next),
         w1)
    | None => (Raise (KeyError (resolve valid asked)), w1)
    end.
Proof.
  intros Ha asked w1. unfold execute_model_body. rewrite Ha.
  unfold resolve. subst w1. run_monad. fold asked.
  case_bool_decide; run_monad; unfold getitem;
    destruct (dict_get _workers _) as [worker|]; run_monad; [|done| |done];
    by destruct (truthy _).
Qed.

(** What the scan of lines 112-124 has done when it stops: the call log is
    untouched, the heap differs only by coercions, every sequence scanned so
    far that asked for an unregistered name now asks for the fallback, and no
    sequence before the stop resolves to a worker that runs model steps. *)
Lemma execute_model_scan _workers req w :
  let batch := seq_group_metadata_list req in
  let valid := valid_proposers_of _workers in
  let scanned n w' :=
    calls w' = calls w ∧ coerced valid (heap w) (heap w') ∧
    (∀ j seq a, j < n → batch !! j = Some seq → spec_decode_params seq = Some a →
       proposer_name (heap w a) ∉ valid → proposer_name (heap w' a) = ngram) in
  let quiet n :=
    ∀ j seq, j < n → batch !! j = Some seq → steps_models _workers (heap w) seq = false in
  match for_enumerate (execute_model_body _workers valid) 0 batch ngram w with
  | (Return (proposer, None), w') => scanned (length batch) w' ∧ quiet (length batch)
  | (Return (proposer, Some k), w') =>
      scanned (S k) w' ∧ quiet k ∧
      ∃ seq worker, batch !! k = Some seq ∧
        served_by (heap w) valid seq = Some proposer ∧
        dict_get _workers proposer = Some worker ∧
        truthy (is_multi_step_worker_instance worker) = true
  | (Raise e, w') => ngram ∉ valid
  end.
Proof.
  intros batch valid scanned quiet.
  pose proof (for_enumerate_rule (execute_model_body _workers valid)
    (fun n _ w' => scanned n w' ∧ quiet n)
    (fun k proposer w' => scanned (S k) w' ∧ quiet k ∧
       ∃ seq worker, batch !! k = Some seq ∧
         served_by (heap w) valid seq = Some proposer ∧
         dict_get _workers proposer = Some worker ∧
         truthy (is_multi_step_worker_instance worker) = true)
    (fun _ _ _ => ngram ∉ valid) batch) as Hrule.
  specialize (Hrule) with (s := ngram) (w := w).
  assert (Hstep : ∀ n x s w0, batch !! n = Some x → scanned n w0 ∧ quiet n →
    match execute_model_body _workers valid n x s w0 with
    | (Return (s', Next), w') => scanned (S n) w' ∧ quiet (S n)
    | (Return (s', Break), w') => scanned (S n) w' ∧ quiet n ∧
        ∃ seq worker, batch !! n = Some seq ∧
          served_by (heap w) valid seq = Some s' ∧
          dict_get _workers s' = Some worker ∧
          truthy (is_multi_step_worker_instance worker) = true
    | (Raise e, w') => ngram ∉ valid
    end).
  { intros n x s w0 Hx [(Hcalls & Hco & Hdone) Hquiet].
    destruct (spec_decode_params x) as [a|] eqn:Ha.
    - rewrite (execute_model_body_assigned _ _ _ _ _ _ _ Ha). cbn zeta.
      set (asked := proposer_name (heap w0 a)).
      assert (Hserved : served_by (heap w) valid x = Some (resolve valid asked)).
      { unfold served_by, assignment. rewrite Ha. cbn. f_equal.
        symmetry. by apply coerced_resolve. }
      set (w1 := if bool_decide (asked ∉ valid) then _ else w0).
      assert (Hw1 : scanned (S n) w1).
      { subst w1. case_bool_decide as Hasked; cbn.
        - split_and!; [done|by apply coerced_store|].
          intros j seq b Hj Hseq Hb Hinv. unfold heap_store. cbn.
          case_decide; [done|].
          apply (Hdone j seq); [|done..].
          destruct (decide (j = n)) as [->|]; [|lia]. congruence.
        - split_and!; [done..|].
          intros j seq b Hj Hseq Hb Hinv.
          destruct (decide (j = n)) as [->|]; [|apply (Hdone j seq); [lia|done..]].
          assert (b = a) as -> by congruence.
          destruct (Hco a) as [Heq|[_ ?]]; [|done].
          exfalso. apply Hinv. by rewrite <- Heq. }
      destruct (dict_get _workers (resolve valid asked)) as [worker|] eqn:Hget.
      + destruct (truthy (is_multi_step_worker_instance worker)) eqn:Hms.
        * split_and!; [done..|]. by exists x, worker.
        * split; [done|]. intros j seq Hj Hseq.
          destruct (decide (j = n)) as [->|]; [|apply (Hquiet j); [lia|done]].
          assert (seq = x) as -> by congruence.
          unfold steps_models. fold valid. by rewrite Hserved, Hget.
      + apply dict_get_None in Hget.
        destruct (resolve_cases valid asked) as [?|[Heq ?]]; done.
    - rewrite (execute_model_body_unassigned _ _ _ _ _ _ Ha).
      split.
      + destruct Hcalls. split_and!; [done..|].
        intros j seq b Hj Hseq Hb Hinv.
        destruct (decide (j = n)) as [->|]; [congruence|].
        apply (Hdone j seq); [lia|done..].
      + intros j seq Hj Hseq.
        destruct (decide (j = n)) as [->|]; [|apply (Hquiet j); [lia|done]].
        assert (seq = x) as -> by congruence.
        unfold steps_models, served_by, assignment. by rewrite Ha. }
  assert (Hstart : scanned 0 w ∧ quiet 0).
  { split; [split_and!; [done|apply coerced_refl|]|unfold quiet]; intros; lia. }
  specialize (Hrule Hstep Hstart).
  destruct (for_enumerate _ 0 batch ngram w) as [[[s' [k|]]|e] w']; [| |].
  - by destruct Hrule as [_ ?].
  - done.
  - by destruct Hrule as (n & _ & ?).
Qed.

Lemma steps_models_true _workers h seq :
  steps_models _workers h seq = true ↔
  ∃ proposer worker,
    served_by h (valid_proposers_of _workers) seq = Some proposer
    ∧ dict_get _workers proposer = Some worker
    ∧ truthy (is_multi_step_worker_instance worker) = true.
Proof.
  unfold steps_models. split.
  - destruct (served_by _ _ _) as [proposer|]; [|done].
    destruct (dict_get _workers proposer) as [worker|] eqn:Hget; [|done].
    intros. by exists proposer, worker.
  - by intros (proposer & worker & -> & -> & ->).
Qed.

Lemma execute_model_unfold _workers req w :
  execute_model _workers (Some req) w
  = match for_enumerate (execute_model_body _workers (valid_proposers_of _workers)) 0
            (seq_group_metadata_list req) ngram w with
    | (Return (proposer, Some _), w') =>
        match dict_get _workers proposer with
        | Some worker =>
            (worker_execute_model (worker_ops worker) (heap w') req,
             {| heap := heap w'; calls := calls w' ++ [call_execute_model proposer req] |})
        | None => (Raise (KeyError proposer), w')
        end
    | (Return (_, None), w') => (Return [], w')
    | (Raise e, w') => (Raise e, w')
    end.
Proof.
  unfold execute_model. unfold mbind at 1, M_bind at 1.
  destruct (for_enumerate _ _ _ _ _) as [[[proposer [k|]]|e] w']; cbn; [|done..].
  unfold getitem. destruct (dict_get _ _); by run_monad.
Qed.

(** C8: with the fallback registered, execute_model (a) returns the empty
    list and calls no worker when there is no request or the batch is empty;
    (b) returns the empty list and calls no worker when no sequence of the
    batch resolves to a worker that runs model steps; (c) otherwise leaves
    its scan at the first sequence that resolves to such a worker and hands
    the whole request to that worker's execute_model, whose answer it
    returns.  A sequence resolves to the worker registered under the name it
    asks for, or under the fallback when that name is not registered; a
    sequence that asks for nothing is passed over by the scan. *)
Theorem execute_model_delegation _workers w :
  ngram ∈ valid_proposers_of _workers →
  execute_model _workers None w = (Return [], w)
  ∧ (∀ req, seq_group_metadata_list req = [] →
       execute_model _workers (Some req) w = (Return [], w))
  ∧ (∀ req,
       (∀ seq, seq ∈ seq_group_metadata_list req →
          steps_models _workers (heap w) seq = false) →
       ∃ w', execute_model _workers (Some req) w = (Return [], w')
             ∧ calls w' = calls w)
  ∧ (∀ req k seq,
       seq_group_metadata_list req !! k = Some seq →
       steps_models _workers (heap w) seq = true →
       (∀ j seq', j < k → seq_group_metadata_list req !! j = Some seq' →
          steps_models _workers (heap w) seq' = false) →
       ∃ proposer worker w',
         served_by (heap w) (valid_proposers_of _workers) seq = Some proposer
         ∧ dict_get _workers proposer = Some worker
         ∧ truthy (is_multi_step_worker_instance worker) = true
         ∧ for_enumerate (execute_model_body _workers (valid_proposers_of _workers)) 0
             (seq_group_metadata_list req) ngram w
           = (Return (proposer, Some k), w')
         ∧ calls w' = calls w
         ∧ execute_model _workers (Some req) w
           = (worker_execute_model (worker_ops worker) (heap w') req,
              {| heap := heap w';
                 calls := calls w ++ [call_execute_model proposer req] |})).
Proof.
  intros Hfallback. split_and!.
  - reflexivity.
  - intros req Hempty. unfold execute_model. by rewrite Hempty.
  - intros req Hquiet. rewrite execute_model_unfold.
    pose proof (execute_model_scan _workers req w) as Hscan. cbn zeta in Hscan.
    destruct (for_enumerate _ _ _ _ _) as [[[proposer [k|]]|e] w'].
    + destruct Hscan as (_ & _ & seq & worker & Hk & Hserved & Hget & Hms).
      assert (steps_models _workers (heap w) seq = true) as Htrue
        by (apply steps_models_true; eauto).
      rewrite Hquiet in Htrue; [done|]. by eapply list_elem_of_lookup_2.
    + destruct Hscan as [(Hcalls & _) _]. eauto.
    + done.
  - intros req k seq Hk Hms Hbefore. rewrite execute_model_unfold.
    pose proof (execute_model_scan _workers req w) as Hscan. cbn zeta in Hscan.
    destruct (for_enumerate _ _ _ _ _) as [[[proposer [k'|]]|e] w'].
    + destruct Hscan as ((Hcalls & _) & Hquiet & seq' & worker & Hk' & Hserved & Hget & Hms').
      assert (steps_models _workers (heap w) seq' = true) as Htrue
        by (apply steps_models_true; eauto).
      assert (k' = k) as ->.
      { destruct (decide (k' < k)) as [Hlt|]; [by rewrite (Hbefore k' seq' Hlt Hk') in Htrue|].
        destruct (decide (k < k')) as [Hlt|]; [by rewrite (Hquiet k seq Hlt Hk) in Hms|].
        lia. }
      assert (seq' = seq) as -> by congruence.
      exists proposer, worker, w'. rewrite Hget, Hcalls. by split_and!.
    + destruct Hscan as [_ Hquiet].
      rewrite (Hquiet k seq) in Hms; [done| by eapply lookup_lt_Some | done].
    + done.
Qed.

(** ** Who rewrites an assignment *)

Lemma heap_kept_ret {A} (a : A) : heap_kept (mret a).
Proof. done. Qed.

Lemma heap_kept_raise {A} e : heap_kept (@raise A e).
Proof. done. Qed.

Lemma heap_kept_lift_outcome {A} (o : outcome A) : heap_kept (lift_outcome o).
Proof. done. Qed.

Lemma heap_kept_get_heap : heap_kept get_heap.
Proof. done. Qed.

Lemma heap_kept_log_call c : heap_kept (log_call c).
Proof. done. Qed.

Lemma heap_kept_get_proposer a : heap_kept (get_proposer a).
Proof. done. Qed.

Lemma heap_kept_getitem {V} (d : dict V) k : heap_kept (getitem d k).
Proof. unfold getitem. by destruct (dict_get d k). Qed.

Lemma heap_kept_list_getitem {A} (l : list A) i : heap_kept (list_getitem l i).
Proof. unfold list_getitem. by destruct (l !! i). Qed.

Lemma heap_kept_list_setitem {A} (l : list A) i x : heap_kept (list_setitem l i x).
Proof. unfold list_setitem. by case_bool_decide. Qed.

Lemma heap_kept_bind {A B} (m : M A) (f : A → M B) :
  heap_kept m → (∀ a, heap_kept (f a)) → heap_kept (m ≫= f).
Proof.
  intros Hm Hf w. unfold mbind, M_bind. specialize (Hm w).
  destruct (m w) as [[a|e] w']; cbn in *; [|done].
  by rewrite Hf.
Qed.

Lemma heap_kept_if {A} (b : bool) (m1 m2 : M A) :
  heap_kept m1 → heap_kept m2 → heap_kept (if b then m1 else m2).
Proof. by destruct b. Qed.

Lemma heap_kept_for_enumerate {A St} (body : nat → A → St → M (St * flow)) i l s :
  (∀ n x s, heap_kept (body n x s)) → heap_kept (for_enumerate body i l s).
Proof.
  intros Hbody. revert i s. induction l as [|x l IH]; intros i s; cbn.
  - apply heap_kept_ret.
  - apply heap_kept_bind; [done|]. intros [s' []]; cbn; [apply IH | apply heap_kept_ret].
Qed.

Ltac heap_kept_tac := repeat (first
  [ apply heap_kept_ret | apply heap_kept_raise | apply heap_kept_lift_outcome
  | apply heap_kept_get_heap | apply heap_kept_log_call | apply heap_kept_get_proposer
  | apply heap_kept_getitem | apply heap_kept_list_getitem | apply heap_kept_list_setitem
  | apply heap_kept_bind; [|intros ?]
  | apply heap_kept_if
  | apply heap_kept_for_enumerate; intros ? ? ?
  | match goal with
    | |- heap_kept (match ?x with _ => _ end) => destruct x
    end ]).

Lemma heap_kept__get_proposer_for_this_step _workers execute_model_req schedule_policy :
  heap_kept (_get_proposer_for_this_step _workers execute_model_req schedule_policy).
Proof.
  unfold _get_proposer_for_this_step, popularity_body, proposal_latency_body, dict_max.
  heap_kept_tac.
Qed.

Lemma heap_kept_get_spec_proposals _workers req bonus :
  heap_kept (get_spec_proposals _workers req bonus).
Proof.
  unfold get_spec_proposals.
  apply heap_kept_bind; [apply heap_kept__get_proposer_for_this_step|intros ?].
  unfold invoke_get_spec_proposals. heap_kept_tac.
Qed.

Lemma heap_kept__get_combined_spec_proposals _workers req bonus :
  heap_kept (_get_combined_spec_proposals _workers req bonus).
Proof.
  unfold _get_combined_spec_proposals, partition_body, submit_body, result_body,
    combine_body, merge_body, torch_stack, invoke_get_spec_proposals.
  heap_kept_tac.
Qed.

(** C2, as the code has it: get_spec_proposals and
    _get_combined_spec_proposals leave every assignment as it was, whatever
    the outcome; only execute_model rewrites, and when it returns, every
    sequence it has scanned (the sequences up to and including the first one
    that resolves to a worker that runs model steps, all of them if there is
    none) that asked for an unregistered name asks for the fallback. *)
Theorem coercion_only_in_execute_model _workers req w :
  (∀ bonus, heap (get_spec_proposals _workers req bonus w).2 = heap w)
  ∧ (∀ bonus, heap (_get_combined_spec_proposals _workers req bonus w).2 = heap w)
  ∧ (∀ result w',
       execute_model _workers (Some req) w = (Return result, w') →
       ∀ i seq sd_params,
         seq_group_metadata_list req !! i = Some seq →
         spec_decode_params seq = Some sd_params →
         proposer_name (heap w sd_params) ∉ valid_proposers_of _workers →
         (∀ j seq', j < i → seq_group_metadata_list req !! j = Some seq' →
            steps_models _workers (heap w) seq' = false) →
         proposer_name (heap w' sd_params) = ngram).
Proof.
  split_and!.
  - intros bonus. apply heap_kept_get_spec_proposals.
  - intros bonus. apply heap_kept__get_combined_spec_proposals.
  - intros result w' Hrun i seq a Hi Ha Hunknown Hbefore.
    rewrite execute_model_unfold in Hrun.
    pose proof (execute_model_scan _workers req w) as Hscan. cbn zeta in Hscan.
    destruct (for_enumerate _ _ _ _ _) as [[[proposer [k|]]|e] w1].
    + destruct Hscan as ((_ & _ & Hdone) & _ & seq' & worker & Hk & Hserved & Hget & Hms).
      rewrite Hget in Hrun.
      assert (heap w' = heap w1) as -> by by injection Hrun as _ <-.
      apply (Hdone i seq); [|done..].
      destruct (decide (k < i)) as [Hlt|]; [|lia].
      assert (steps_models _workers (heap w) seq' = true) as Htrue
        by (apply steps_models_true; eauto).
      by rewrite (Hbefore k seq' Hlt Hk) in Htrue.
    + destruct Hscan as [(_ & _ & Hdone) _].
      injection Hrun as _ <-.
      apply (Hdone i seq); [by eapply lookup_lt_Some|done..].
    + done.
Qed.

(** ** Dictionaries given by their keys and a function *)

Lemma dict_keys_dict_of {V} (f : string → V) ks : dict_keys (dict_of f ks) = ks.
Proof.
  unfold dict_keys, dict_of. rewrite <- list_fmap_compose.
  induction ks as [|k ks IH]; [done|]. cbn. by rewrite IH.
Qed.

Lemma dict_get_dict_of {V} (f : string → V) ks k :
  dict_get (dict_of f ks) k = if decide (k ∈ ks) then Some (f k) else None.
Proof.
  induction ks as [|k' ks IH]; cbn.
  - by rewrite decide_False by apply not_elem_of_nil.
  - destruct (decide (k' = k)) as [Hk|Hk]; subst.
    + by rewrite decide_True by apply list_elem_of_here.
    + fold (dict_of f ks). rewrite IH.
      destruct (decide (k ∈ ks)) as [Hin|Hin].
      * by rewrite decide_True by by apply list_elem_of_further.
      * rewrite decide_False; [done|]. rewrite not_elem_of_cons. naive_solver.
Qed.

Lemma dict_of_ext {V} (f g : string → V) ks :
  (∀ k, k ∈ ks → f k = g k) → dict_of f ks = dict_of g ks.
Proof.
  intros Hfg. unfold dict_of. apply list_fmap_ext.
  intros i k Hk. rewrite (Hfg k); [done|]. by eapply list_elem_of_lookup_2.
Qed.

Lemma dict_of_snoc {V} (f : string → V) ks k :
  dict_of f (ks ++ [k]) = dict_of f ks ++ [(k, f k)].
Proof. unfold dict_of. by rewrite fmap_app. Qed.

(** [d[k] = v] on such a dictionary: the key stays where it is, or goes to
    the end. *)
Lemma dict_set_dict_of {V} (f g : string → V) ks k v :
  NoDup ks →
  (∀ k', k' ∈ ks → k' ≠ k → g k' = f k') →
  g k = v →
  dict_set (dict_of f ks) k v
  = dict_of g (if decide (k ∈ ks) then ks else ks ++ [k]).
Proof.
  intros Hnodup Hother Hk. induction Hnodup as [|k0 ks Hk0 Hnodup IH]; cbn.
  - rewrite decide_False by apply not_elem_of_nil. cbn. by rewrite Hk.
  - destruct (decide (k0 = k)) as [Heq|Heq]; subst.
    + rewrite decide_True by apply list_elem_of_here. cbn. f_equal.
      apply dict_of_ext. intros k' Hk'. symmetry. apply Hother.
      * by apply list_elem_of_further.
      * intros ->. done.
    + fold (dict_of f ks). rewrite IH.
      * rewrite <- (Hother k0); [|apply list_elem_of_here|done].
        destruct (decide (k ∈ ks)) as [Hin|Hin].
        -- by rewrite decide_True by by apply list_elem_of_further.
        -- rewrite decide_False; [done|]. rewrite not_elem_of_cons. naive_solver.
      * intros k' Hk' Hne. apply Hother; [by apply list_elem_of_further|done].
Qed.

Lemma NoDup_snoc_or (ks : list string) k :
  NoDup ks → NoDup (if decide (k ∈ ks) then ks else ks ++ [k]).
Proof.
  intros Hnodup. case_decide; [done|].
  apply NoDup_app. split_and!; [done| |apply NoDup_singleton].
  intros k' Hk' ->%list_elem_of_singleton. done.
Qed.

Lemma elem_of_snoc_or (ks : list string) k k' :
  k' ∈ (if decide (k ∈ ks) then ks else ks ++ [k]) ↔ k' ∈ ks ∨ k' = k.
Proof.
  case_decide.
  - split; [auto|]. by intros [?| ->].
  - rewrite elem_of_app, list_elem_of_singleton. done.
Qed.

(** ** Votes *)

Lemma votes_snoc h batch seq proposer :
  votes h (batch ++ [seq]) proposer
  = votes h batch proposer
    + (if decide (assignment h seq = Some proposer) then 1 else 0).
Proof.
  unfold votes. rewrite filter_app, length_app. f_equal.
  rewrite filter_cons, filter_nil. by case_decide.
Qed.

Lemma votes_pos h batch proposer :
  0 < votes h batch proposer ↔
  ∃ seq, seq ∈ batch ∧ assignment h seq = Some proposer.
Proof.
  unfold votes. split.
  - intros Hpos.
    destruct (filter _ batch) as [|seq l] eqn:Hf; [cbn in Hpos; lia|].
    exists seq.
    assert (seq ∈ filter (fun seq => assignment h seq = Some proposer) batch) as Hin
      by (rewrite Hf; apply list_elem_of_here).
    apply list_elem_of_filter in Hin. by destruct Hin.
  - intros (seq & Hin & Hseq).
    assert (seq ∈ filter (fun seq => assignment h seq = Some proposer) batch) as Hf
      by by apply list_elem_of_filter.
    destruct (filter _ batch); [by apply not_elem_of_nil in Hf|cbn; lia].
Qed.

(** ** The popularity policy *)

(** [max] returns the first of the greatest counts. *)
Lemma max_from_spec (l : list (string * nat)) (best : string * nat) :
  ∃ l1 l2 c,
    best :: l = l1 ++ (max_from best l, c) :: l2
    ∧ (∀ x, x ∈ l1 → (x.2 < c)%nat)
    ∧ (∀ x, x ∈ l2 → (x.2 ≤ c)%nat).
Proof.
  revert best. induction l as [|x l IH]; intros best; cbn.
  - exists [], [], best.2. destruct best. split_and!; [done|..]; by intros ? ?%not_elem_of_nil.
  - case_bool_decide as Hlt.
    + destruct (IH x) as (l1 & l2 & c & Heq & Hl1 & Hl2).
      exists (best :: l1), l2, c. split_and!; [by rewrite Heq|..|done].
      intros y [->|Hy]%elem_of_cons; [|by apply Hl1].
      destruct l1 as [|x' l1]; cbn in Heq.
      * injection Heq as Hx _. rewrite Hx in Hlt. cbn in Hlt. done.
      * injection Heq as <- _. specialize (Hl1 x (list_elem_of_here _ _)). lia.
    + destruct (IH best) as (l1 & l2 & c & Heq & Hl1 & Hl2).
      destruct l1 as [|b l1]; cbn in Heq.
      * injection Heq as Hbest ->.
        exists [], (x :: l2), c. split_and!.
        -- cbn. by rewrite <- Hbest.
        -- by intros ? ?%not_elem_of_nil.
        -- intros y [->|Hy]%elem_of_cons; [|by apply Hl2].
           rewrite Hbest in Hlt. cbn in Hlt. lia.
      * injection Heq as <- Hl.
        exists (best :: x :: l1), l2, c. split_and!; [cbn; by do 2 f_equal|..|done].
        intros y [->|[->|Hy]%elem_of_cons]%elem_of_cons.
        -- apply Hl1, list_elem_of_here.
        -- specialize (Hl1 best (list_elem_of_here _ _)). lia.
        -- by apply Hl1, list_elem_of_further.
Qed.

Lemma popularity_policy _workers req w :
  _get_proposer_for_this_step _workers (Some req) (Some "popularity") w
  = match for_enumerate (popularity_body (valid_proposers_of _workers)) 0
            (seq_group_metadata_list req) [] w with
    | (Return r, w') =>
        match r.1 with
        | [] => (Return ngram, w')
        | x :: d => (Return (max_from x d), w')
        end
    | (Raise e, w') => (Raise e, w')
    end.
Proof.
  unfold _get_proposer_for_this_step. run_monad.
  rewrite (bool_decide_eq_true_2 (Some "popularity" = Some "popularity")) by done.
  destruct (for_enumerate _ _ _ _ _) as [[[d exit]|e] w']; cbn; [|done].
  by destruct d.
Qed.

Lemma popularity_body_spec valid n seq (d : dict nat) w :
  popularity_body valid n seq d w
  = match assignment (heap w) seq with
    | Some p =>
        if bool_decide (p ∉ valid) then (Return (d, Next), w)
        else
          let d0 := if negb (dict_contains d p) then dict_set d p 0 else d in
          match dict_get d0 p with
          | Some c => (Return (dict_set d0 p (c + 1), Next), w)
          | None => (Raise (KeyError p), w)
          end
    | None => (Return (d, Next), w)
    end.
Proof.
  unfold popularity_body, assignment.
  destruct (spec_decode_params seq) as [a|]; [|done]. run_monad.
  case_bool_decide; [done|]. unfold getitem.
  by destruct (dict_get _ _).
Qed.

Lemma asked_before_snoc h prefix seq p q :
  asked_before h prefix p q → asked_before h (prefix ++ [seq]) p q.
Proof.
  intros (before & s & after & -> & Hs & Hbefore).
  exists before, s, (after ++ [seq]). split_and!; [|done..].
  by rewrite <- (assoc_L (++)).
Qed.

Lemma counted_step h valid prefix seq d :
  counted h valid prefix d →
  match assignment h seq with
  | Some p =>
      if bool_decide (p ∉ valid) then counted h valid (prefix ++ [seq]) d
      else
        let d0 := if negb (dict_contains d p) then dict_set d p 0 else d in
        ∃ c, dict_get d0 p = Some c
             ∧ counted h valid (prefix ++ [seq]) (dict_set d0 p (c + 1))
  | None => counted h valid (prefix ++ [seq]) d
  end.
Proof.
  intros (ks & -> & Hnodup & Hks & Hord).
  assert (Hquiet : (∀ p, p ∈ valid → assignment h seq ≠ Some p) →
                   counted h valid (prefix ++ [seq]) (dict_of (votes h prefix) ks)).
  { intros Hno. exists ks. split_and!; [|done|..].
    - apply dict_of_ext. intros k Hk. rewrite votes_snoc.
      rewrite decide_False; [lia|]. apply Hno. by apply Hks.
    - intros p. rewrite Hks, votes_snoc. split.
      + intros [? ?]. split; [done|lia].
      + intros [Hv Hpos]. split; [done|].
        rewrite decide_False in Hpos by by apply Hno. lia.
    - intros i j p q Hi Hj Hij. by apply asked_before_snoc, (Hord i j). }
  destruct (assignment h seq) as [p|] eqn:Hp; [|by apply Hquiet].
  case_bool_decide as Hvalid.
  { apply Hquiet. by intros q Hq [= ->]. }
  assert (p ∈ valid) as Hpv by (by destruct (decide (p ∈ valid))).
  cbn zeta. unfold dict_contains. rewrite dict_keys_dict_of.
  set (ks' := if decide (p ∈ ks) then ks else ks ++ [p]).
  assert (Hd0 : (if negb (bool_decide (p ∈ ks))
                 then dict_set (dict_of (votes h prefix) ks) p 0
                 else dict_of (votes h prefix) ks)
                = dict_of (votes h prefix) ks').
  { subst ks'. case_bool_decide as Hin; cbn.
    - by rewrite decide_True.
    - rewrite (dict_set_dict_of _ (votes h prefix)); [done..|].
      destruct (decide (0 < votes h prefix p)) as [Hpos|]; [|lia].
      exfalso. apply Hin, Hks. done. }
  rewrite Hd0.
  assert (Hnodup' : NoDup ks') by by apply NoDup_snoc_or.
  assert (Hin' : p ∈ ks') by (apply elem_of_snoc_or; by right).
  exists (votes h prefix p). split.
  { rewrite dict_get_dict_of. by rewrite decide_True. }
  exists ks'. split_and!; [|done|..].
  - rewrite (dict_set_dict_of _ (votes h (prefix ++ [seq]))); [by rewrite decide_True|done|..].
    + intros k' _ Hne. rewrite votes_snoc. rewrite decide_False by congruence. lia.
    + rewrite votes_snoc. by rewrite decide_True.
  - intros q. unfold ks'. rewrite elem_of_snoc_or, Hks, votes_snoc. split.
    + intros [[? ?]| ->]; [split; [done|lia]|].
      split; [done|]. rewrite decide_True by done. lia.
    + intros [Hq Hpos]. case_decide as Hqp; [right; congruence|left].
      split; [done|lia].
  - intros i j p1 q Hi Hj Hij. unfold ks' in Hi, Hj.
    destruct (decide (p ∈ ks)) as [Hin|Hin].
    { by apply asked_before_snoc, (Hord i j). }
    apply lookup_app_Some in Hj as [Hj|[Hlen Hj]].
    + apply lookup_app_Some in Hi as [Hi|[Hlen _]].
      * by apply asked_before_snoc, (Hord i j).
      * apply lookup_lt_Some in Hj. lia.
    + apply lookup_app_Some in Hi as [Hi|[Hlen' _]]; [|
        apply list_lookup_singleton_Some in Hj as [Hj _]; lia].
      apply list_lookup_singleton_Some in Hj as [_ <-].
      assert (p1 ∈ ks) as Hp1 by by eapply list_elem_of_lookup_2.
      apply Hks in Hp1 as [_ Hpos]. apply votes_pos in Hpos as (s & Hs & Hsp).
      apply list_elem_of_split in Hs as (before & after & ->).
      exists before, s, (after ++ [seq]). split_and!.
      * by rewrite <- (assoc_L (++)).
      * done.
      * intros s' Hs' Hs'p. apply Hin, Hks. split; [done|].
        apply votes_pos. exists s'. split; [|done].
        apply elem_of_app. by left.
Qed.

Lemma popularity_loop _workers req w :
  ∃ d exit,
    for_enumerate (popularity_body (valid_proposers_of _workers)) 0
      (seq_group_metadata_list req) [] w = (Return (d, exit), w)
    ∧ counted (heap w) (valid_proposers_of _workers) (seq_group_metadata_list req) d.
Proof.
  set (batch := seq_group_metadata_list req).
  set (valid := valid_proposers_of _workers).
  pose proof (for_enumerate_rule (popularity_body valid)
    (fun n d w' => w' = w ∧ counted (heap w) valid (take n batch) d)
    (fun _ _ _ => False) (fun _ _ _ => False) batch) as Hrule.
  specialize (Hrule) with (s := []) (w := w).
  assert (Hstep : ∀ n x (d : dict nat) w0, batch !! n = Some x →
    w0 = w ∧ counted (heap w) valid (take n batch) d →
    match popularity_body valid n x d w0 with
    | (Return (d', Next), w') => w' = w ∧ counted (heap w) valid (take (S n) batch) d'
    | (Return (_, Break), _) => False
    | (Raise _, _) => False
    end).
  { intros n x d w0 Hx [-> Hcounted].
    rewrite popularity_body_spec, (take_S_r _ _ _ Hx).
    pose proof (counted_step _ _ _ x _ Hcounted) as Hnext.
    destruct (assignment (heap w) x) as [p|]; [|done].
    case_bool_decide; [done|]. cbn zeta in Hnext |- *.
    destruct Hnext as (c & -> & Hnext). done. }
  assert (Hstart : w = w ∧ counted (heap w) valid (take 0 batch) []).
  { split; [done|]. exists []. split_and!; [done|apply NoDup_nil_2|..].
    - intros p. rewrite elem_of_nil, take_0. unfold votes. cbn.
      split; [done|]. intros [_ ?]. lia.
    - intros i j p q Hi. by rewrite lookup_nil in Hi. }
  specialize (Hrule Hstep Hstart).
  destruct (for_enumerate _ _ _ _ _) as [[[d [n|]]|e] w'].
  - by destruct Hrule as [_ ?].
  - destruct Hrule as [-> Hcounted]. rewrite firstn_all in Hcounted. eauto.
  - by destruct Hrule as (? & _ & ?).
Qed.

(** C6: the popularity policy counts, for every registered name, the
    sequences that ask for it, and returns a name with the greatest count;
    among names with the greatest count it returns the one that was asked
    for first in the batch.  When no sequence asks for a registered name it
    returns the fallback. *)
Theorem popularity_first_maximum _workers req w :
  ((∃ seq proposer,
      seq ∈ seq_group_metadata_list req
      ∧ assignment (heap w) seq = Some proposer
      ∧ proposer ∈ valid_proposers_of _workers) →
   ∃ winner,
     _get_proposer_for_this_step _workers (Some req) (Some "popularity") w
     = (Return winner, w)
     ∧ winner ∈ valid_proposers_of _workers
     ∧ 0 < votes (heap w) (seq_group_metadata_list req) winner
     ∧ (∀ p, p ∈ valid_proposers_of _workers →
          (votes (heap w) (seq_group_metadata_list req) p
           ≤ votes (heap w) (seq_group_metadata_list req) winner)%nat)
     ∧ (∀ p, p ∈ valid_proposers_of _workers → p ≠ winner →
          votes (heap w) (seq_group_metadata_list req) p
          = votes (heap w) (seq_group_metadata_list req) winner →
          asked_before (heap w) (seq_group_metadata_list req) winner p))
  ∧ ((∀ seq proposer,
        seq ∈ seq_group_metadata_list req →
        assignment (heap w) seq = Some proposer →
        proposer ∉ valid_proposers_of _workers) →
     _get_proposer_for_this_step _workers (Some req) (Some "popularity") w
     = (Return ngram, w)).
Proof.
  rewrite popularity_policy.
  destruct (popularity_loop _workers req w) as (d & exit & -> & ks & -> & Hnodup & Hks & Hord).
  set (batch := seq_group_metadata_list req) in *.
  set (valid := valid_proposers_of _workers) in *.
  set (count := votes (heap w) batch) in *.
  cbn [fst]. split.
  - intros (seq & proposer & Hin & Hasks & Hvalid).
    assert (proposer ∈ ks) as Hkey.
    { apply Hks. split; [done|]. apply votes_pos. eauto. }
    destruct (dict_of count ks) as [|x d] eqn:Ed.
    { destruct ks; [by apply elem_of_nil in Hkey|done]. }
    destruct (max_from_spec d x) as (l1 & l2 & c & Hd & Hl1 & Hl2).
    rewrite <- Ed in Hd. clear Ed.
    set (winner := max_from x d) in *.
    assert (Hitem : ∀ i p, ks !! i = Some p ↔ dict_of count ks !! i = Some (p, count p)).
    { intros i p. unfold dict_of. rewrite list_lookup_fmap.
      destruct (ks !! i) as [k|]; cbn; [|done]. split; [by intros [= ->]|by intros [= ->]]. }
    assert (Hwin : ks !! length l1 = Some winner ∧ c = count winner).
    { assert (dict_of count ks !! length l1 = Some (winner, c)) as Hw
        by (rewrite Hd; by apply list_lookup_middle).
      unfold dict_of in Hw. rewrite list_lookup_fmap in Hw.
      destruct (ks !! length l1) as [k|]; cbn in Hw; [|done].
      by injection Hw as -> <-. }
    destruct Hwin as [Hwin ->].
    assert (Hpos : ∀ p, p ∈ ks → (p, count p) ∈ l1 ∨ p = winner ∨ (p, count p) ∈ l2).
    { intros p (i & Hi)%list_elem_of_lookup. apply Hitem in Hi.
      apply list_elem_of_lookup_2 in Hi. rewrite Hd in Hi.
      apply elem_of_app in Hi as [?|[[= -> _]|?]%elem_of_cons]; auto. }
    exists winner. split_and!.
    + done.
    + apply Hks. by eapply list_elem_of_lookup_2.
    + apply Hks. by eapply list_elem_of_lookup_2.
    + intros p Hp. destruct (decide (0 < count p)) as [Hp0|]; [|lia].
      destruct (Hpos p) as [H1|[->|H2]]; [by apply Hks|..|done|].
      * specialize (Hl1 _ H1). cbn in Hl1. lia.
      * specialize (Hl2 _ H2). cbn in Hl2. lia.
    + intros p Hp Hne Htie.
      assert (0 < count winner) as Hw0 by (apply Hks; by eapply list_elem_of_lookup_2).
      destruct (Hpos p) as [H1|[->|H2]]; [apply Hks; split; [done|lia]|..|done|].
      * specialize (Hl1 _ H1). cbn in Hl1. lia.
      * apply list_elem_of_lookup in H2 as [j Hj].
        apply (Hord (length l1) (length l1 + S j)); [done| |lia].
        apply Hitem. rewrite Hd. rewrite lookup_app_r by lia.
        replace (length l1 + S j - length l1) with (S j) by lia. done.
  - intros Hnone.
    destruct ks as [|k0 ks0]; [done|]. exfalso. clear Hord.
    assert (k0 ∈ k0 :: ks0) as Hk0 by apply list_elem_of_here.
    apply Hks in Hk0 as [Hvalid (seq & Hin & Hasks)%votes_pos].
    by apply (Hnone seq k0).
Qed.

(** ** Groups and their positions *)

Lemma group_snoc h valid batch seq p :
  group h valid (batch ++ [seq]) p
  = group h valid batch p
    ++ (if decide (served_by h valid seq = Some p) then [seq] else []).
Proof.
  unfold group. rewrite filter_app. by f_equal.
Qed.

Lemma group_app h valid a b p :
  group h valid (a ++ b) p = group h valid a p ++ group h valid b p.
Proof. unfold group. by rewrite filter_app. Qed.

Lemma group_cons_served h valid seq batch p :
  served_by h valid seq = Some p →
  group h valid (seq :: batch) p = seq :: group h valid batch p.
Proof. intros Hp. unfold group. by rewrite filter_cons, decide_True. Qed.

Lemma elem_of_group h valid batch p seq :
  seq ∈ group h valid batch p ↔ seq ∈ batch ∧ served_by h valid seq = Some p.
Proof. unfold group. rewrite list_elem_of_filter. tauto. Qed.

Lemma group_nil h valid batch p :
  (∀ seq, seq ∈ batch → served_by h valid seq ≠ Some p) → group h valid batch p = [].
Proof.
  intros Hno. apply elem_of_nil_inv. intros seq [Hin Hp]%elem_of_group.
  by apply (Hno seq).
Qed.

Lemma group_indices_from_app h valid p i a b :
  group_indices_from h valid p i (a ++ b)
  = group_indices_from h valid p i a
    ++ group_indices_from h valid p (i + length a) b.
Proof.
  revert i. induction a as [|x a IH]; intros i; cbn.
  - by rewrite Nat.add_0_r.
  - rewrite IH, <- (assoc_L (++)). do 3 f_equal. lia.
Qed.

Lemma group_indices_snoc h valid batch seq p :
  group_indices h valid (batch ++ [seq]) p
  = group_indices h valid batch p
    ++ (if decide (served_by h valid seq = Some p) then [length batch] else []).
Proof.
  unfold group_indices. rewrite group_indices_from_app. cbn.
  by rewrite app_nil_r.
Qed.

Lemma length_group_indices_from h valid p i batch :
  length (group_indices_from h valid p i batch) = length (group h valid batch p).
Proof.
  unfold group. revert i. induction batch as [|x batch IH]; intros i; cbn; [done|].
  rewrite length_app, IH. by case_decide.
Qed.

Lemma elem_of_group_indices_from h valid p i batch idx :
  idx ∈ group_indices_from h valid p i batch ↔
  ∃ seq, i ≤ idx ∧ batch !! (idx - i) = Some seq ∧ served_by h valid seq = Some p.
Proof.
  revert i. induction batch as [|x batch IH]; intros i; cbn.
  - rewrite elem_of_nil. split; [done|]. by intros (? & _ & ? & _).
  - rewrite elem_of_app, IH. split.
    + intros [Hhere|(seq & Hle & Hseq & Hp)].
      * case_decide as Hx; [|by apply elem_of_nil in Hhere].
        apply list_elem_of_singleton in Hhere as ->.
        exists x. rewrite Nat.sub_diag. done.
      * exists seq. split_and!; [lia| |done].
        replace (idx - i) with (S (idx - S i)) by lia. done.
    + intros (seq & Hle & Hseq & Hp).
      destruct (decide (idx = i)) as [->|Hne].
      * left. rewrite Nat.sub_diag in Hseq. injection Hseq as ->.
        rewrite decide_True by done. by apply list_elem_of_singleton.
      * right. exists seq. split_and!; [lia| |done].
        replace (idx - i) with (S (idx - S i)) in Hseq by lia. done.
Qed.

Lemma elem_of_group_indices h valid batch p idx :
  idx ∈ group_indices h valid batch p ↔
  ∃ seq, batch !! idx = Some seq ∧ served_by h valid seq = Some p.
Proof.
  unfold group_indices. rewrite elem_of_group_indices_from.
  rewrite Nat.sub_0_r. split.
  - intros (seq & _ & ? & ?). eauto.
  - intros (seq & ? & ?). exists seq. split_and!; [lia|done..].
Qed.

Lemma NoDup_group_indices_from h valid p i batch :
  NoDup (group_indices_from h valid p i batch).
Proof.
  revert i. induction batch as [|x batch IH]; intros i; cbn; [apply NoDup_nil_2|].
  case_decide; cbn; [|apply IH].
  apply NoDup_cons_2; [|apply IH].
  rewrite elem_of_group_indices_from. intros (? & ? & _). lia.
Qed.

Lemma NoDup_group_indices h valid batch p : NoDup (group_indices h valid batch p).
Proof. apply NoDup_group_indices_from. Qed.

Lemma group_indices_lt h valid batch p idx :
  idx ∈ group_indices h valid batch p → idx < length batch.
Proof.
  intros (seq & Hseq & _)%elem_of_group_indices. by eapply lookup_lt_Some.
Qed.

Lemma group_indices_disjoint h valid batch p q idx :
  idx ∈ group_indices h valid batch p → idx ∈ group_indices h valid batch q → p = q.
Proof.
  intros (seq & Hseq & Hp)%elem_of_group_indices (seq' & Hseq' & Hq)%elem_of_group_indices.
  congruence.
Qed.

(** The sequence at position [i] is the [k]-th of its group, where [k]
    counts the sequences of the group before it. *)
Lemma group_position h valid batch i seq p :
  batch !! i = Some seq → served_by h valid seq = Some p →
  group_indices h valid batch p !! length (group h valid (take i batch) p) = Some i
  ∧ group h valid batch p !! length (group h valid (take i batch) p) = Some seq.
Proof.
  intros Hi Hp.
  assert (length (take i batch) = i) as Hlen.
  { rewrite length_take. apply lookup_lt_Some in Hi. lia. }
  pose proof (take_drop_middle batch i seq Hi) as Hsplit.
  set (before := take i batch) in *.
  assert (Hk : length (group_indices_from h valid p 0 before)
               = length (group h valid before p))
    by apply length_group_indices_from.
  split.
  - rewrite <- Hsplit. unfold group_indices. rewrite group_indices_from_app. cbn.
    rewrite decide_True by done. rewrite Hlen.
    rewrite lookup_app_r by lia. by rewrite Hk, Nat.sub_diag.
  - rewrite <- Hsplit. rewrite group_app, group_cons_served by done.
    by rewrite lookup_app_r, Nat.sub_diag.
Qed.

(** ** The partition, lines 224-235 *)

Lemma partition_body_spec valid idx seq
    (st : dict (list SequenceGroupMetadata) * dict (list nat)) w :
  partition_body valid idx seq st w
  = match served_by (heap w) valid seq with
    | Some p =>
        let fresh := negb (dict_contains st.1 p) in
        let proposer_requests := if fresh then dict_set st.1 p [] else st.1 in
        let original_indices := if fresh then dict_set st.2 p [] else st.2 in
        match dict_get proposer_requests p with
        | Some sq_list =>
            match dict_get original_indices p with
            | Some indices =>
                (Return ((dict_set proposer_requests p (sq_list ++ [seq]),
                          dict_set original_indices p (indices ++ [idx])), Next), w)
            | None => (Raise (KeyError p), w)
            end
        | None => (Raise (KeyError p), w)
        end
    | None => (Return (st, Next), w)
    end.
Proof.
  unfold partition_body, served_by, assignment, resolve.
  destruct (spec_decode_params seq) as [a|]; [|done]. run_monad.
  unfold getitem. destruct (dict_get _ _); run_monad; [|done].
  by destruct (dict_get _ _).
Qed.

Lemma partitioned_step h valid prefix seq st :
  partitioned h valid prefix st →
  match served_by h valid seq with
  | Some p =>
      let fresh := negb (dict_contains st.1 p) in
      let proposer_requests := if fresh then dict_set st.1 p [] else st.1 in
      let original_indices := if fresh then dict_set st.2 p [] else st.2 in
      ∃ sq_list indices,
        dict_get proposer_requests p = Some sq_list
        ∧ dict_get original_indices p = Some indices
        ∧ partitioned h valid (prefix ++ [seq])
            (dict_set proposer_requests p (sq_list ++ [seq]),
             dict_set original_indices p (indices ++ [length prefix]))
  | None => partitioned h valid (prefix ++ [seq]) st
  end.
Proof.
  destruct st as [pr oi]. intros (ks & Hpr & Hoi & Hnodup & Hks). cbn in Hpr, Hoi. subst.
  destruct (served_by h valid seq) as [p|] eqn:Hp.
  - cbn zeta. cbn [fst snd]. unfold dict_contains. rewrite dict_keys_dict_of.
    set (ks' := if decide (p ∈ ks) then ks else ks ++ [p]).
    assert (Hempty : p ∉ ks → group h valid prefix p = [] ∧ group_indices h valid prefix p = []).
    { intros Hin.
      assert (group h valid prefix p = []) as Hg.
      { apply group_nil. intros s Hs Hsp. apply Hin, Hks. eauto. }
      split; [done|]. apply length_zero_iff_nil.
      unfold group_indices. by rewrite length_group_indices_from, Hg. }
    assert (Hpr0 : (if negb (bool_decide (p ∈ ks))
                    then dict_set (dict_of (group h valid prefix) ks) p []
                    else dict_of (group h valid prefix) ks)
                   = dict_of (group h valid prefix) ks').
    { subst ks'. case_bool_decide as Hin; cbn.
      - by rewrite decide_True.
      - rewrite (dict_set_dict_of _ (group h valid prefix)); [done..|].
        by destruct (Hempty Hin). }
    assert (Hoi0 : (if negb (bool_decide (p ∈ ks))
                    then dict_set (dict_of (group_indices h valid prefix) ks) p []
                    else dict_of (group_indices h valid prefix) ks)
                   = dict_of (group_indices h valid prefix) ks').
    { subst ks'. case_bool_decide as Hin; cbn.
      - by rewrite decide_True.
      - rewrite (dict_set_dict_of _ (group_indices h valid prefix)); [done..|].
        by destruct (Hempty Hin). }
    rewrite Hpr0, Hoi0.
    assert (Hnodup' : NoDup ks') by by apply NoDup_snoc_or.
    assert (Hin' : p ∈ ks') by (apply elem_of_snoc_or; by right).
    exists (group h valid prefix p), (group_indices h valid prefix p).
    rewrite !dict_get_dict_of, !decide_True by done. split_and!; [done..|].
    exists ks'. cbn [fst snd]. split_and!; [| |done|].
    + rewrite (dict_set_dict_of _ (group h valid (prefix ++ [seq]))); [by rewrite decide_True|done|..].
      * intros k' _ Hne. rewrite group_snoc, decide_False by congruence. by rewrite app_nil_r.
      * by rewrite group_snoc, decide_True.
    + rewrite (dict_set_dict_of _ (group_indices h valid (prefix ++ [seq])));
        [by rewrite decide_True|done|..].
      * intros k' _ Hne. rewrite group_indices_snoc, decide_False by congruence.
        by rewrite app_nil_r.
      * by rewrite group_indices_snoc, decide_True.
    + intros q. unfold ks'. rewrite elem_of_snoc_or, Hks. split.
      * intros [(s & Hs & Hsq)| ->].
        -- exists s. split; [apply elem_of_app; by left|done].
        -- exists seq. split; [apply elem_of_app; right; by apply list_elem_of_singleton|done].
      * intros (s & [Hs| ->%list_elem_of_singleton]%elem_of_app & Hsq); [left; eauto|].
        right. congruence.
  - exists ks. cbn [fst snd]. split_and!; [| |done|].
    + apply dict_of_ext. intros k _. rewrite group_snoc, decide_False by congruence.
      by rewrite app_nil_r.
    + apply dict_of_ext. intros k _. rewrite group_indices_snoc, decide_False by congruence.
      by rewrite app_nil_r.
    + intros q. rewrite Hks. split.
      * intros (s & Hs & Hsq). exists s. split; [apply elem_of_app; by left|done].
      * intros (s & [Hs| ->%list_elem_of_singleton]%elem_of_app & Hsq); [eauto|congruence].
Qed.

Lemma partition_loop valid batch w :
  ∃ st exit,
    for_enumerate (partition_body valid) 0 batch ([], []) w = (Return (st, exit), w)
    ∧ partitioned (heap w) valid batch st.
Proof.
  pose proof (for_enumerate_rule (partition_body valid)
    (fun n st w' => w' = w ∧ partitioned (heap w) valid (take n batch) st)
    (fun _ _ _ => False) (fun _ _ _ => False) batch) as Hrule.
  specialize (Hrule) with (s := ([], [])) (w := w).
  assert (Hstep : ∀ n x st w0, batch !! n = Some x →
    w0 = w ∧ partitioned (heap w) valid (take n batch) st →
    match partition_body valid n x st w0 with
    | (Return (st', Next), w') => w' = w ∧ partitioned (heap w) valid (take (S n) batch) st'
    | (Return (_, Break), _) => False
    | (Raise _, _) => False
    end).
  { intros n x st w0 Hx [-> Hpart].
    rewrite partition_body_spec, (take_S_r _ _ _ Hx).
    pose proof (partitioned_step _ _ _ x _ Hpart) as Hnext.
    destruct (served_by (heap w) valid x) as [p|]; [|done].
    cbn zeta in Hnext |- *.
    destruct Hnext as (sq_list & indices & -> & -> & Hnext).
    rewrite length_take in Hnext. apply lookup_lt_Some in Hx.
    by replace (n `min` length batch) with n in Hnext by lia. }
  assert (Hstart : w = w ∧ partitioned (heap w) valid (take 0 batch) ([], [])).
  { split; [done|]. exists []. rewrite take_0. split_and!; [done..|apply NoDup_nil_2|].
    intros p. rewrite elem_of_nil. split; [done|].
    by intros (? & ?%elem_of_nil & _). }
  specialize (Hrule Hstep Hstart).
  destruct (for_enumerate _ _ _ _ _) as [[[st [n|]]|e] w'].
  - by destruct Hrule as [_ ?].
  - destruct Hrule as [-> Hpart]. rewrite firstn_all in Hpart. eauto.
  - by destruct Hrule as (? & _ & ?).
Qed.

(** ** Dispatch, lines 244-255 *)

Lemma lookup_dict_of {V} (f : string → V) ks n x :
  dict_of f ks !! n = Some x ↔ ∃ p, ks !! n = Some p ∧ x = (p, f p).
Proof.
  unfold dict_of. rewrite list_lookup_fmap.
  destruct (ks !! n) as [p|]; cbn.
  - split; [intros [= <-]; eauto|]. by intros (? & [= <-] & ->).
  - split; [done|]. by intros (? & ? & _).
Qed.

Lemma submit_loop _workers req bonus (f : string → list SequenceGroupMetadata) ks w :
  (∀ p, p ∈ ks → f p ≠ []) →
  let future_of p :=
    match dict_get _workers p with
    | Some worker =>
        worker_get_spec_proposals (worker_ops worker) (heap w) (clone req (f p)) bonus
    | None => Raise (KeyError p)
    end in
  match for_enumerate (submit_body _workers req bonus) 0 (dict_of f ks) [] w with
  | (Return (futures, None), w') =>
      heap w' = heap w
      ∧ futures = (fun p => (p, future_of p)) <$> ks
      ∧ (∀ p, p ∈ ks → is_Some (dict_get _workers p))
  | (Return (_, Some _), _) => False
  | (Raise e, w') => heap w' = heap w ∧ ∃ p, p ∈ ks ∧ dict_get _workers p = None
  end.
Proof.
  intros Hnonempty future_of.
  pose proof (for_enumerate_rule (submit_body _workers req bonus)
    (fun n futures w' =>
       heap w' = heap w
       ∧ futures = (fun p => (p, future_of p)) <$> take n ks
       ∧ (∀ p, p ∈ take n ks → is_Some (dict_get _workers p)))
    (fun _ _ _ => False)
    (fun _ _ w' => heap w' = heap w ∧ ∃ p, p ∈ ks ∧ dict_get _workers p = None)
    (dict_of f ks)) as Hrule.
  specialize (Hrule) with (s := []) (w := w).
  destruct (for_enumerate _ _ _ _ _) as [[[futures [n|]]|e] w'].
  all: destruct Hrule as [H1 H2];
    [ intros n' x futs w0 (p & Hp & ->)%lookup_dict_of (Hheap & -> & Hreg);
      unfold submit_body; cbn [fst snd];
      rewrite bool_decide_eq_true_2
        by (rewrite length_zero_iff_nil; apply Hnonempty; by eapply list_elem_of_lookup_2);
      unfold getitem, invoke_get_spec_proposals;
      destruct (dict_get _workers p) as [worker|] eqn:Hget; run_monad;
      [ split_and!; [done| |];
        [ rewrite (take_S_r _ _ _ Hp), fmap_app; cbn; unfold future_of;
          by rewrite Hget, Hheap
        | intros q; rewrite (take_S_r _ _ _ Hp), elem_of_app, list_elem_of_singleton;
          intros [?| ->]; [by apply Hreg|by rewrite Hget] ]
      | split; [done|]; exists p; split; [by eapply list_elem_of_lookup_2|done] ]
    | split_and!; [done|by rewrite take_0|by intros ? ?%elem_of_nil]
    | ].
  - done.
  - unfold dict_of in H2. rewrite length_fmap in H2.
    destruct H2 as (Hf & Hreg). by rewrite firstn_all in Hf, Hreg.
  - by destruct H2 as (? & ?).
Qed.

Lemma result_loop (result : string → outcome (SpeculativeProposals Tensor)) ks w :
  NoDup ks →
  match for_enumerate result_body 0 ((fun p => (p, result p)) <$> ks) [] w with
  | (Return (all_proposals, None), w') =>
      w' = w
      ∧ (∀ p, p ∈ ks → ∃ a, result p = Return a)
      ∧ all_proposals = dict_of (fun p => answer_of (result p)) ks
  | (Return (_, Some _), _) => False
  | (Raise e, w') => w' = w ∧ ∃ p, p ∈ ks ∧ result p = Raise e
  end.
Proof.
  intros Hnodup.
  pose proof (for_enumerate_rule result_body
    (fun n all_proposals w' =>
       w' = w
       ∧ (∀ p, p ∈ take n ks → ∃ a, result p = Return a)
       ∧ all_proposals = dict_of (fun p => answer_of (result p)) (take n ks))
    (fun _ _ _ => False)
    (fun _ e w' => w' = w ∧ ∃ p, p ∈ ks ∧ result p = Raise e)
    ((fun p => (p, result p)) <$> ks)) as Hrule.
  specialize (Hrule) with (s := []) (w := w).
  destruct (for_enumerate _ _ _ _ _) as [[[all_proposals [n|]]|e] w'].
  all: destruct Hrule as [H1 H2];
    [ intros n' x d w0 Hx (-> & Hok & ->);
      rewrite list_lookup_fmap in Hx;
      destruct (ks !! n') as [p|] eqn:Hp; [|done]; injection Hx as <-;
      unfold result_body; cbn [fst snd]; run_monad;
      destruct (result p) as [a|e'] eqn:Hres; cbn;
      [ split_and!; [done| |];
        [ intros q; rewrite (take_S_r _ _ _ Hp), elem_of_app, list_elem_of_singleton;
          intros [?| ->]; [by apply Hok|eauto]
        | rewrite (take_S_r _ _ _ Hp);
          rewrite (dict_set_dict_of _ (fun p => answer_of (result p)));
            [|by eapply sublist_NoDup; [|apply sublist_take]|done|by rewrite Hres];
          rewrite decide_False; [done|];
          intros (i & Hi & Hlt)%elem_of_take;
          pose proof (NoDup_lookup _ _ _ _ Hnodup Hi Hp); lia ]
      | split; [done|]; exists p; split; [by eapply list_elem_of_lookup_2|done] ]
    | split_and!; [done|by intros ? ?%elem_of_nil|by rewrite take_0]
    | ].
  - done.
  - destruct H2 as (Hok & ->).
    assert (Hl : length ((fun p => (p, result p)) <$> ks) = length ks)
      by apply length_fmap.
    rewrite Hl, firstn_all in Hok. by rewrite Hl, firstn_all.
  - by destruct H2 as (? & ?).
Qed.

(** ** Merge, lines 257-270 *)

Lemma written_start (src : list Tensor) indices old : written src indices 0 old old.
Proof. split_and!; [done| |done]. intros; lia. Qed.

Lemma written_step (src : list Tensor) indices j old cur idx t :
  NoDup indices →
  written src indices j old cur →
  indices !! j = Some idx →
  src !! j = Some t →
  idx < length old →
  written src indices (S j) old (<[idx := Some t]> cur).
Proof.
  intros Hnodup (Hlen & Hdone & Hrest) Hj Ht Hidx. split_and!.
  - by rewrite length_insert.
  - intros k idx' Hk Hidx'. destruct (decide (k = j)) as [->|Hne].
    + assert (idx' = idx) as -> by congruence.
      exists t. split; [done|]. apply list_lookup_insert_eq. lia.
    + destruct (Hdone k idx') as (t' & Ht' & Hcur); [lia|done|].
      exists t'. split; [done|]. rewrite list_lookup_insert_ne; [done|].
      intros <-. apply Hne. by eapply NoDup_lookup.
  - intros i Hi. rewrite list_lookup_insert_ne.
    + apply Hrest. intros k Hk. apply Hi. lia.
    + intros <-. by apply (Hi j); [lia|].
Qed.

Lemma merge_loop (proposals : SpeculativeProposals Tensor) indices
    (merged : Merged Tensor) w :
  NoDup indices →
  match for_enumerate (merge_body proposals) 0 indices merged w with
  | (Return (merged', None), w') =>
      w' = w
      ∧ written (proposal_token_ids proposals) indices (length indices)
          (merged_token_ids merged) (merged_token_ids merged')
      ∧ written (proposal_probs proposals) indices (length indices)
          (merged_probs merged) (merged_probs merged')
      ∧ written (proposal_lens proposals) indices (length indices)
          (merged_lens merged) (merged_lens merged')
  | (Return (_, Some _), _) => False
  | (Raise e, w') =>
      w' = w
      ∧ ∃ j idx, indices !! j = Some idx
          ∧ (length (proposal_token_ids proposals) ≤ j
             ∨ length (proposal_probs proposals) ≤ j
             ∨ length (proposal_lens proposals) ≤ j
             ∨ length (merged_token_ids merged) ≤ idx
             ∨ length (merged_probs merged) ≤ idx
             ∨ length (merged_lens merged) ≤ idx)
  end.
Proof.
  intros Hnodup.
  pose proof (for_enumerate_rule (merge_body proposals)
    (fun j merged' w' =>
       w' = w
       ∧ written (proposal_token_ids proposals) indices j
           (merged_token_ids merged) (merged_token_ids merged')
       ∧ written (proposal_probs proposals) indices j
           (merged_probs merged) (merged_probs merged')
       ∧ written (proposal_lens proposals) indices j
           (merged_lens merged) (merged_lens merged'))
    (fun _ _ _ => False)
    (fun _ _ w' =>
       w' = w
       ∧ ∃ j idx, indices !! j = Some idx
           ∧ (length (proposal_token_ids proposals) ≤ j
              ∨ length (proposal_probs proposals) ≤ j
              ∨ length (proposal_lens proposals) ≤ j
              ∨ length (merged_token_ids merged) ≤ idx
              ∨ length (merged_probs merged) ≤ idx
              ∨ length (merged_lens merged) ≤ idx))
    indices) as Hrule.
  specialize (Hrule) with (s := merged) (w := w).
  assert (Hstep : ∀ j idx (cur : Merged Tensor) w0, indices !! j = Some idx →
    w0 = w
    ∧ written (proposal_token_ids proposals) indices j
        (merged_token_ids merged) (merged_token_ids cur)
    ∧ written (proposal_probs proposals) indices j
        (merged_probs merged) (merged_probs cur)
    ∧ written (proposal_lens proposals) indices j
        (merged_lens merged) (merged_lens cur) →
    match merge_body proposals j idx cur w0 with
    | (Return (cur', Next), w') =>
        w' = w
        ∧ written (proposal_token_ids proposals) indices (S j)
            (merged_token_ids merged) (merged_token_ids cur')
        ∧ written (proposal_probs proposals) indices (S j)
            (merged_probs merged) (merged_probs cur')
        ∧ written (proposal_lens proposals) indices (S j)
            (merged_lens merged) (merged_lens cur')
    | (Return (_, Break), _) => False
    | (Raise _, w') =>
        w' = w
        ∧ ∃ j idx, indices !! j = Some idx
            ∧ (length (proposal_token_ids proposals) ≤ j
               ∨ length (proposal_probs proposals) ≤ j
               ∨ length (proposal_lens proposals) ≤ j
               ∨ length (merged_token_ids merged) ≤ idx
               ∨ length (merged_probs merged) ≤ idx
               ∨ length (merged_lens merged) ≤ idx)
    end).
  { intros j idx cur w0 Hj (-> & Htok & Hprobs & Hlens).
    pose proof Htok as (Hlt & _). pose proof Hprobs as (Hlp & _).
    pose proof Hlens as (Hll & _).
    unfold merge_body, list_getitem, list_setitem. run_monad.
    destruct (proposal_token_ids proposals !! j) as [t1|] eqn:H1; run_monad;
      [|apply lookup_ge_None in H1; split; [done|]; exists j, idx; auto].
    case_bool_decide as Hb1; run_monad;
      [|split; [done|]; exists j, idx; split; [done|]; do 3 right; left; lia].
    destruct (proposal_probs proposals !! j) as [t2|] eqn:H2; run_monad;
      [|apply lookup_ge_None in H2; split; [done|]; exists j, idx; auto].
    case_bool_decide as Hb2; run_monad;
      [|split; [done|]; exists j, idx; split; [done|]; do 4 right; left; lia].
    destruct (proposal_lens proposals !! j) as [t3|] eqn:H3; run_monad;
      [|apply lookup_ge_None in H3; split; [done|]; exists j, idx; auto].
    case_bool_decide as Hb3; run_monad;
      [|split; [done|]; exists j, idx; split; [done|]; do 5 right; lia].
    split_and!; [done|apply written_step; (done || lia)..]. }
  assert (Hstart : w = w
    ∧ written (proposal_token_ids proposals) indices 0
        (merged_token_ids merged) (merged_token_ids merged)
    ∧ written (proposal_probs proposals) indices 0
        (merged_probs merged) (merged_probs merged)
    ∧ written (proposal_lens proposals) indices 0
        (merged_lens merged) (merged_lens merged))
    by (split_and!; [done|apply written_start..]).
  specialize (Hrule Hstep Hstart).
  destruct (for_enumerate _ _ _ _ _) as [[[merged' [n|]]|e] w'].
  - by destruct Hrule as [_ ?].
  - done.
  - by destruct Hrule as (? & _ & ?).
Qed.

Lemma scattered_start (field : SpeculativeProposals Tensor → list Tensor)
    answer indices n :
  scattered field answer indices [] n (replicate n None).
Proof.
  split_and!.
  - apply length_replicate.
  - by intros p k idx ?%elem_of_nil.
  - intros i Hi _. by apply lookup_replicate_2.
Qed.

Lemma scattered_step (field : SpeculativeProposals Tensor → list Tensor)
    answer indices ps p n old cur :
  scattered field answer indices ps n old →
  written (field (answer p)) (indices p) (length (indices p)) old cur →
  (∀ q idx, q ∈ ps → idx ∈ indices q → idx ∉ indices p) →
  scattered field answer indices (ps ++ [p]) n cur.
Proof.
  intros (Hlen & Hdone & Hrest) (Hlen' & Hnew & Hkeep) Hdisjoint. split_and!.
  - congruence.
  - intros q k idx [Hq| ->%list_elem_of_singleton]%elem_of_app Hk.
    + destruct (Hdone q k idx Hq Hk) as (t & Ht & Hold).
      exists t. split; [done|]. rewrite Hkeep; [done|].
      intros k' _ Hk'. apply (Hdisjoint q idx); [done|..].
      * by eapply list_elem_of_lookup_2.
      * by eapply list_elem_of_lookup_2.
    + apply Hnew; [by eapply lookup_lt_Some|done].
  - intros i Hi Hfree. rewrite Hkeep.
    + apply Hrest; [done|]. intros q Hq. apply Hfree, elem_of_app. by left.
    + intros k _ Hk. apply (Hfree p).
      * apply elem_of_app. right. by apply list_elem_of_singleton.
      * by eapply list_elem_of_lookup_2.
Qed.

Lemma combine_loop (answer : string → SpeculativeProposals Tensor)
    (indices : string → list nat) ks n w :
  NoDup ks →
  (∀ p, p ∈ ks → NoDup (indices p)) →
  (∀ p q idx, p ∈ ks → q ∈ ks → idx ∈ indices p → idx ∈ indices q → p = q) →
  (∀ p idx, p ∈ ks → idx ∈ indices p → idx < n) →
  match for_enumerate (combine_body (dict_of answer ks)) 0 (dict_of indices ks)
          {| merged_token_ids := replicate n None;
             merged_probs := replicate n None;
             merged_lens := replicate n None |} w with
  | (Return (merged, None), w') =>
      w' = w
      ∧ scattered proposal_token_ids answer indices ks n (merged_token_ids merged)
      ∧ scattered proposal_probs answer indices ks n (merged_probs merged)
      ∧ scattered proposal_lens answer indices ks n (merged_lens merged)
  | (Return (_, Some _), _) => False
  | (Raise e, w') =>
      w' = w
      ∧ ∃ p, p ∈ ks
          ∧ (length (proposal_token_ids (answer p)) < length (indices p)
             ∨ length (proposal_probs (answer p)) < length (indices p)
             ∨ length (proposal_lens (answer p)) < length (indices p))
  end.
Proof.
  intros Hnodup Hnodup_idx Hdisjoint Hbound.
  set (Inv := fun (j : nat) (merged : Merged Tensor) w' =>
    w' = w
    ∧ scattered proposal_token_ids answer indices (take j ks) n (merged_token_ids merged)
    ∧ scattered proposal_probs answer indices (take j ks) n (merged_probs merged)
    ∧ scattered proposal_lens answer indices (take j ks) n (merged_lens merged)).
  set (Exc := fun (_ : nat) (_ : exn) w' =>
    w' = w
    ∧ ∃ p, p ∈ ks
        ∧ (length (proposal_token_ids (answer p)) < length (indices p)
           ∨ length (proposal_probs (answer p)) < length (indices p)
           ∨ length (proposal_lens (answer p)) < length (indices p))).
  assert (Hstep : ∀ j x (cur : Merged Tensor) w0,
    dict_of indices ks !! j = Some x → Inv j cur w0 →
    match combine_body (dict_of answer ks) j x cur w0 with
    | (Return (cur', Next), w') => Inv (S j) cur' w'
    | (Return (_, Break), _) => False
    | (Raise e, w') => Exc j e w'
    end).
  { intros j x cur w0 (p & Hp & ->)%lookup_dict_of (-> & Htok & Hprobs & Hlens).
    assert (p ∈ ks) as Hin by by eapply list_elem_of_lookup_2.
    assert (Hfresh : ∀ q idx, q ∈ take j ks → idx ∈ indices q → idx ∉ indices p).
    { intros q idx (i & Hi & Hlt)%elem_of_take Hq Hidx.
      assert (q = p) as ->.
      { apply (Hdisjoint q p idx); [by eapply list_elem_of_lookup_2|done..]. }
      pose proof (NoDup_lookup _ _ _ _ Hnodup Hi Hp). lia. }
    unfold combine_body, getitem. cbn [fst snd].
    rewrite dict_get_dict_of, decide_True by done. run_monad.
    unfold Inv. rewrite (take_S_r _ _ _ Hp).
    case_bool_decide as Hlen.
    - pose proof (merge_loop (answer p) (indices p) cur w (Hnodup_idx p Hin)) as Hmerge.
      destruct (for_enumerate (merge_body (answer p)) 0 (indices p) cur w)
        as [[[cur' [k|]]|e] w']; cbn.
      + done.
      + destruct Hmerge as (-> & Wtok & Wprobs & Wlens).
        split_and!; [done|by eapply scattered_step..].
      + destruct Hmerge as (-> & k & idx & Hk & Hshort).
        split; [done|]. exists p. split; [done|].
        pose proof (lookup_lt_Some _ _ _ Hk) as Hklt.
        assert (idx < n) as Hidx.
        { apply (Hbound p); [done|]. by eapply list_elem_of_lookup_2. }
        destruct Htok as (Ht & _). destruct Hprobs as (Hp' & _).
        destruct Hlens as (Hl & _). lia.
    - assert (indices p = []) as Hnil.
      { apply length_zero_iff_nil.
        destruct (decide (length (indices p) = 0)); [done|]. by destruct Hlen. }
      split_and!; [done|..].
      all: eapply scattered_step; [done| |done].
      all: rewrite Hnil; apply written_start. }
  assert (Hstart : Inv 0 {| merged_token_ids := replicate n None;
                            merged_probs := replicate n None;
                            merged_lens := replicate n None |} w).
  { unfold Inv. rewrite take_0. split_and!; [done|apply scattered_start..]. }
  pose proof (for_enumerate_rule (combine_body (dict_of answer ks))
    Inv (fun _ _ _ => False) Exc (dict_of indices ks) Hstep _ _ Hstart) as Hrule.
  destruct (for_enumerate _ _ _ _ _) as [[[merged [k|]]|e] w'].
  - by destruct Hrule as [_ ?].
  - unfold Inv, dict_of in Hrule. by rewrite length_fmap, firstn_all in Hrule.
  - by destruct Hrule as (? & _ & ?).
Qed.

(** ** torch.stack *)

Lemma all_tensors_Some (l : list (option Tensor)) ts :
  all_tensors l = Some ts ↔ l = Some <$> ts.
Proof.
  revert ts. induction l as [|[t|] l IH]; intros ts; cbn.
  - split; [by intros [= <-]|]. by destruct ts.
  - destruct (all_tensors l) as [ts'|] eqn:Hall.
    + split.
      * intros [= <-]. cbn. f_equal. by apply IH.
      * destruct ts as [|t' ts]; [done|]. cbn. intros [= -> Hl].
        apply IH in Hl. by injection Hl as ->.
    + split; [done|]. destruct ts as [|t' ts]; [done|]. cbn. intros [= -> Hl].
      by apply IH in Hl.
  - split; [done|]. by destruct ts.
Qed.

Lemma stackable_alike (t u : Tensor) : stackable t u = true ↔ alike t u.
Proof.
  unfold stackable, alike. rewrite andb_true_iff, !bool_decide_eq_true.
  split; intros [Hsize Hdevice]; by split.
Qed.

Lemma all_stackable_alike (ts : list Tensor) :
  all_stackable ts = true ↔ ∀ t u, t ∈ ts → u ∈ ts → alike t u.
Proof.
  destruct ts as [|t0 ts]; cbn.
  - split; [|done]. by intros _ t u ?%elem_of_nil.
  - rewrite forallb_forall. split.
    + intros Hall.
      assert (∀ t, t ∈ t0 :: ts → alike t0 t) as Hfirst.
      { intros t [->|Hin]%elem_of_cons; [done|].
        by apply stackable_alike, Hall, list_elem_of_In. }
      intros t u Ht Hu.
      destruct (Hfirst t Ht) as [? ?], (Hfirst u Hu) as [? ?].
      split; congruence.
    + intros Hall t Hin%list_elem_of_In. apply stackable_alike, Hall.
      * apply list_elem_of_here.
      * by apply list_elem_of_further.
Qed.

Lemma torch_stack_Return (l : list (option Tensor)) ts w w' :
  torch_stack l w = (Return ts, w') →
  w' = w ∧ l = Some <$> ts ∧ ∀ t u, t ∈ ts → u ∈ ts → alike t u.
Proof.
  unfold torch_stack. destruct l as [|x l]; [done|].
  destruct (all_tensors (x :: l)) as [ts'|] eqn:Hall; [|done].
  destruct (all_stackable ts') eqn:Hlike; [|done].
  intros [= <- <-]. split_and!; [done|by apply all_tensors_Some|].
  by apply all_stackable_alike.
Qed.

Lemma torch_stack_filled (l : list (option Tensor)) w :
  l ≠ [] →
  (∀ i, i < length l → ∃ t, l !! i = Some (Some t)) →
  (∀ i j t u, l !! i = Some (Some t) → l !! j = Some (Some u) → alike t u) →
  ∃ ts, torch_stack l w = (Return ts, w).
Proof.
  intros Hne Hfilled Hlike.
  assert (∃ ts, all_tensors l = Some ts) as [ts Hts].
  { clear Hne Hlike. induction l as [|x l IH].
    - by exists [].
    - destruct (Hfilled 0) as (t & Ht); [cbn; lia|]. injection Ht as ->.
      destruct IH as [ts Hts].
      { intros i Hi. apply (Hfilled (S i)). cbn. lia. }
      exists (t :: ts). cbn. by rewrite Hts. }
  exists ts. unfold torch_stack. destruct l as [|x l]; [done|]. rewrite Hts.
  apply all_tensors_Some in Hts.
  assert (all_stackable ts = true) as ->; [|done].
  apply all_stackable_alike. intros t u [i Hi]%list_elem_of_lookup [j Hj]%list_elem_of_lookup.
  apply (Hlike i j); rewrite Hts, list_lookup_fmap; [by rewrite Hi|by rewrite Hj].
Qed.

Lemma torch_stack_Raise_filled (l : list (option Tensor)) e w w' :
  (∀ i, i < length l → ∃ t, l !! i = Some (Some t)) →
  torch_stack l w = (Raise e, w') →
  e = RuntimeError.
Proof.
  intros Hfilled. unfold torch_stack. destruct l as [|x l]; [by intros [= <-]|].
  destruct (all_tensors (x :: l)) as [ts|] eqn:Hall.
  - destruct (all_stackable ts); [done|]. by intros [= <-].
  - exfalso.
    assert (∀ l' : list (option Tensor),
              (∀ i, i < length l' → ∃ t, l' !! i = Some (Some t)) →
              all_tensors l' ≠ None) as Hsome; [|by eapply Hsome].
    clear. induction l' as [|y l' IH]; intros Hfilled; [done|].
    destruct (Hfilled 0) as (t & Ht); [cbn; lia|]. injection Ht as ->. cbn.
    destruct (all_tensors l') eqn:Hl'; [done|].
    exfalso. apply IH; [|done]. intros i Hi. apply (Hfilled (S i)). cbn. lia.
Qed.

(** ** _get_combined_spec_proposals as a whole *)

Lemma bind_run {A B} (m : M A) (f : A → M B) w :
  (m ≫= f) w
  = match m w with
    | (Return a, w') => f a w'
    | (Raise e, w') => (Raise e, w')
    end.
Proof. reflexivity. Qed.

(** The stages of the call, one after the other.  When the call returns, the
    three lists handed to [torch.stack] hold exactly what the groups wrote,
    and the rows could be stacked; when it raises, some worker was missing,
    failed or answered too short, or a slot was left empty, or the batch was
    empty, or the rows could not be stacked. *)
Lemma combined_stages _workers req bonus w :
  let h := heap w in
  let valid := valid_proposers_of _workers in
  let batch := seq_group_metadata_list req in
  let answer p := answer_of (backend_result _workers h req bonus p) in
  ∃ ks,
    NoDup ks
    ∧ (∀ p, p ∈ ks ↔ ∃ seq, seq ∈ batch ∧ served_by h valid seq = Some p)
    ∧ match _get_combined_spec_proposals _workers req bonus w with
      | (Return proposals, w') =>
          (∀ p, p ∈ ks →
             ∃ worker a, dict_get _workers p = Some worker
                         ∧ backend_result _workers h req bonus p = Return a)
          ∧ scattered proposal_token_ids answer (group_indices h valid batch) ks
              (length batch) (Some <$> proposal_token_ids proposals)
          ∧ scattered proposal_probs answer (group_indices h valid batch) ks
              (length batch) (Some <$> proposal_probs proposals)
          ∧ scattered proposal_lens answer (group_indices h valid batch) ks
              (length batch) (Some <$> proposal_lens proposals)
          ∧ rows_agree _workers h req bonus
      | (Raise e, w') =>
          batch = []
          ∨ (∃ seq, seq ∈ batch ∧ spec_decode_params seq = None)
          ∨ ¬ workers_answer _workers h req bonus
          ∨ (e = RuntimeError ∧ ¬ rows_agree _workers h req bonus)
      end.
Proof.
  intros h valid batch answer.
  destruct (partition_loop valid batch w) as ([pr oi] & exit & Hpart & ks & Hpr & Hoi & Hnodup & Hks).
  cbn [fst snd] in Hpr, Hoi. subst pr oi. fold h in Hks.
  exists ks. split_and!; [done..|].
  assert (Hnonempty : ∀ p, p ∈ ks → group h valid batch p ≠ []).
  { intros p (seq & Hin & Hp)%Hks Hnil.
    assert (seq ∈ group h valid batch p) as Hg by by apply elem_of_group.
    rewrite Hnil in Hg. by apply elem_of_nil in Hg. }
  assert (Hshort : ∀ p, p ∈ ks →
    (length (proposal_token_ids (answer p)) < length (group_indices h valid batch p)
     ∨ length (proposal_probs (answer p)) < length (group_indices h valid batch p)
     ∨ length (proposal_lens (answer p)) < length (group_indices h valid batch p)) →
    ¬ workers_answer _workers h req bonus).
  { intros p Hp Hlt Hgood.
    destruct (Hgood p) as (worker & a & _ & Ha & H1 & H2 & H3); [by apply Hks|].
    unfold answer in Hlt. rewrite Ha in Hlt. cbn in Hlt.
    unfold group_indices in Hlt. rewrite length_group_indices_from in Hlt.
    fold valid batch in H1, H2, H3. lia. }
  unfold _get_combined_spec_proposals. fold valid batch.
  rewrite bind_run, Hpart. cbn [fst snd]. fold h.
  rewrite bind_run.
  pose proof (submit_loop _workers req bonus (group h valid batch) ks w Hnonempty) as Hsubmit.
  cbn zeta in Hsubmit. fold h in Hsubmit.
  destruct (for_enumerate (submit_body _workers req bonus) 0 _ [] w)
    as [[[futures [n|]]|e] w1]; [done| |].
  2: { destruct Hsubmit as (_ & p & Hp & Hget). do 2 right. left. intros Hgood.
       destruct (Hgood p) as (worker & _ & ? & _); [by apply Hks|]. congruence. }
  destruct Hsubmit as (Hheap & -> & Hreg). cbn [fst snd].
  rewrite bind_run.
  pose proof (result_loop (backend_result _workers h req bonus) ks w1 Hnodup) as Hresult.
  change (fun p => (p, match dict_get _workers p with
                       | Some worker =>
                           worker_get_spec_proposals (worker_ops worker) h
                             (clone req (group h valid batch p)) bonus
                       | None => Raise (KeyError p)
                       end))
    with (fun p => (p, backend_result _workers h req bonus p)).
  destruct (for_enumerate result_body 0 _ [] w1)
    as [[[all_proposals [n|]]|e] w2]; [done| |].
  2: { destruct Hresult as (_ & p & Hp & Hraise). do 2 right. left. intros Hgood.
       destruct (Hgood p) as (_ & a & _ & ? & _); [by apply Hks|]. congruence. }
  destruct Hresult as (-> & Hok & ->). cbn [fst snd].
  rewrite bind_run.
  assert (Hc1 : ∀ p, p ∈ ks → NoDup (group_indices h valid batch p))
    by (intros; apply NoDup_group_indices).
  assert (Hc2 : ∀ p q idx, p ∈ ks → q ∈ ks →
            idx ∈ group_indices h valid batch p →
            idx ∈ group_indices h valid batch q → p = q)
    by (intros; by eapply group_indices_disjoint).
  assert (Hc3 : ∀ p idx, p ∈ ks → idx ∈ group_indices h valid batch p →
            idx < length batch)
    by (intros; by eapply group_indices_lt).
  pose proof (combine_loop answer (group_indices h valid batch) ks (length batch) w1
    Hnodup Hc1 Hc2 Hc3) as Hcombine.
  destruct (for_enumerate (combine_body _) 0 _ _ w1)
    as [[[merged [n|]]|e] w3].
  - done.
  - destruct Hcombine as (-> & Htok & Hprobs & Hlens).
    cbn [fst snd].
    assert (Hserving : ∀ p, 0 < length (group h valid batch p) → p ∈ ks).
    { intros p Hlen. apply Hks.
      destruct (group h valid batch p) as [|seq g] eqn:Hg; [cbn in Hlen; lia|].
      exists seq. apply elem_of_group. rewrite Hg. apply list_elem_of_here. }
    (* an empty slot is a sequence that asks for nothing; a list that is
       full and refused holds rows that are not alike *)
    assert (Hslot : ∀ (l : list (option Tensor)) field e' w',
      scattered field answer (group_indices h valid batch) ks (length batch) l →
      torch_stack l w1 = (Raise e', w') →
      batch = [] ∨ (∃ seq, seq ∈ batch ∧ spec_decode_params seq = None)
      ∨ (e' = RuntimeError ∧ ¬ rows_agree_in field _workers h req bonus)).
    { intros l field e' w' (Hlen & Hfilled & Hfree) Hnot.
      destruct (decide (batch = [])) as [|Hne]; [by left|right].
      destruct (decide (Exists (fun seq => spec_decode_params seq = None) batch))
        as [(seq & ? & ?)%Exists_exists|Hall]; [eauto|right].
      assert (Hrow : ∀ i, i < length l →
        ∃ p a j t, backend_result _workers h req bonus p = Return a
                   ∧ j < length (group h valid batch p)
                   ∧ field a !! j = Some t
                   ∧ l !! i = Some (Some t)).
      { intros i Hi. rewrite Hlen in Hi.
        destruct (lookup_lt_is_Some_2 batch i Hi) as [seq Hseq].
        destruct (spec_decode_params seq) as [a|] eqn:Ha.
        - assert (served_by h valid seq = Some (resolve valid (proposer_name (h a))))
            as Hserved by (unfold served_by, assignment; by rewrite Ha).
          destruct (group_position _ _ _ _ _ _ Hseq Hserved) as [Hidx _].
          assert (resolve valid (proposer_name (h a)) ∈ ks) as Hp.
          { apply Hks. exists seq. split; [by eapply list_elem_of_lookup_2|done]. }
          destruct (Hfilled _ _ _ Hp Hidx) as (t & Hfield & Ht).
          destruct (Hok _ Hp) as [b Hb].
          exists (resolve valid (proposer_name (h a))), b,
            (length (group h valid (take i batch) (resolve valid (proposer_name (h a))))), t.
          split_and!; [done| |by unfold answer in Hfield; rewrite Hb in Hfield|done].
          apply lookup_lt_Some in Hidx. unfold group_indices in Hidx.
          by rewrite length_group_indices_from in Hidx.
        - exfalso. apply Hall, Exists_exists. exists seq.
          split; [by eapply list_elem_of_lookup_2|done]. }
      split.
      { eapply torch_stack_Raise_filled; [|exact Hnot].
        intros i Hi. destruct (Hrow i Hi) as (_ & _ & _ & t & _ & _ & _ & Ht). eauto. }
      intros Hagree.
      assert (∃ ts, torch_stack l w1 = (Return ts, w1)) as [ts Hts].
      { apply torch_stack_filled.
        - intros ->. by destruct batch.
        - intros i Hi. destruct (Hrow i Hi) as (_ & _ & _ & t & _ & _ & _ & Ht). eauto.
        - intros i i' t u Ht Hu.
          destruct (Hrow i) as (p & a & j & t' & Ha & Hj & Hfa & Ht');
            [by eapply lookup_lt_Some|].
          destruct (Hrow i') as (q & b & k & u' & Hb & Hk & Hfb & Hu');
            [by eapply lookup_lt_Some|].
          assert (t' = t) as -> by congruence. assert (u' = u) as -> by congruence.
          by apply (Hagree p q a b j k). }
      congruence. }
    (* the rows of a list that was taken are alike *)
    assert (Hrows : ∀ (ts : list Tensor) field,
      scattered field answer (group_indices h valid batch) ks (length batch) (Some <$> ts) →
      (∀ t u, t ∈ ts → u ∈ ts → alike t u) →
      rows_agree_in field _workers h req bonus).
    { intros ts field (_ & Hfilled & _) Hlike.
      assert (Hin : ∀ p a j t, backend_result _workers h req bonus p = Return a →
                j < length (group h valid batch p) → field a !! j = Some t → t ∈ ts).
      { intros p a j t Ha Hj Hfa.
        assert (p ∈ ks) as Hp by (apply Hserving; lia).
        destruct (lookup_lt_is_Some_2 (group_indices h valid batch p) j) as [idx Hidx].
        { unfold group_indices. by rewrite length_group_indices_from. }
        destruct (Hfilled _ _ _ Hp Hidx) as (t' & Hfield & Ht').
        unfold answer in Hfield. rewrite Ha in Hfield. cbn in Hfield.
        assert (t' = t) as -> by congruence.
        rewrite list_lookup_fmap in Ht'.
        destruct (ts !! idx) as [t''|] eqn:Hts; [|done].
        injection Ht' as ->. by eapply list_elem_of_lookup_2. }
      intros p q a b j k t u Ha Hb Hj Hk Hfa Hfb. apply Hlike; [by apply (Hin p a j)|by apply (Hin q b k)]. }
    rewrite bind_run.
    destruct (torch_stack (merged_token_ids merged) w1) as [[ts1|e1] w4] eqn:Hs1.
    2: { destruct (Hslot _ _ _ _ Htok Hs1) as [?|[?|[-> Hno]]]; [by left|by right; left|].
         do 3 right. split; [done|]. by intros (? & _). }
    apply torch_stack_Return in Hs1 as (-> & Hs1 & Hl1). rewrite bind_run.
    destruct (torch_stack (merged_probs merged) w1) as [[ts2|e2] w5] eqn:Hs2.
    2: { destruct (Hslot _ _ _ _ Hprobs Hs2) as [?|[?|[-> Hno]]]; [by left|by right; left|].
         do 3 right. split; [done|]. by intros (_ & ? & _). }
    apply torch_stack_Return in Hs2 as (-> & Hs2 & Hl2). rewrite bind_run.
    destruct (torch_stack (merged_lens merged) w1) as [[ts3|e3] w6] eqn:Hs3.
    2: { destruct (Hslot _ _ _ _ Hlens Hs3) as [?|[?|[-> Hno]]]; [by left|by right; left|].
         do 3 right. split; [done|]. by intros (_ & _ & ?). }
    apply torch_stack_Return in Hs3 as (-> & Hs3 & Hl3).
    cbn. rewrite <- Hs1, <- Hs2, <- Hs3. split_and!; [|done..|].
    + intros p Hp. destruct (Hok p Hp) as [a Ha]. destruct (Hreg p Hp) as [worker Hw].
      eauto.
    + rewrite Hs1 in Htok. rewrite Hs2 in Hprobs. rewrite Hs3 in Hlens.
      split_and!; eauto.
  - destruct Hcombine as (-> & p & Hp & Hlt).
    do 2 right. left. by apply (Hshort p).
Qed.

(** A sequence without parameters is in no group, so its slot stays empty
    and [torch.stack] refuses the list: the call cannot return. *)
Lemma combined_proposals_need_params _workers req bonus w :
  (∃ seq, seq ∈ seq_group_metadata_list req ∧ spec_decode_params seq = None) →
  ∀ proposals w',
    _get_combined_spec_proposals _workers req bonus w ≠ (Return proposals, w').
Proof.
  intros (seq & Hin & Hnone) proposals w' Hrun.
  destruct (combined_stages _workers req bonus w) as (ks & _ & Hks & Hstages).
  rewrite Hrun in Hstages. destruct Hstages as (_ & (Hlen & _ & Hfree) & _).
  apply list_elem_of_lookup in Hin as [i Hi].
  assert (i < length (seq_group_metadata_list req)) as Hlt by by eapply lookup_lt_Some.
  specialize (Hfree i Hlt). rewrite list_lookup_fmap in Hfree.
  destruct (proposal_token_ids proposals !! i); cbn in Hfree.
  - assert (Some (Some t) ≠ Some None) as Hne by done. apply Hne, Hfree.
    intros p _ (seq' & Hseq' & Hserved)%elem_of_group_indices.
    assert (seq' = seq) as -> by congruence.
    unfold served_by, assignment in Hserved. by rewrite Hnone in Hserved.
  - assert ((None : option (option Tensor)) ≠ Some None) as Hne by done. apply Hne, Hfree.
    intros p _ (seq' & Hseq' & Hserved)%elem_of_group_indices.
    assert (seq' = seq) as -> by congruence.
    unfold served_by, assignment in Hserved. by rewrite Hnone in Hserved.
Qed.

(** A proposer with a group serves a sequence of the batch. *)
Lemma group_serving h valid (batch : list SequenceGroupMetadata) p j :
  j < length (group h valid batch p) →
  ∃ seq, seq ∈ batch ∧ served_by h valid seq = Some p.
Proof.
  intros Hj. destruct (group h valid batch p) as [|seq g] eqn:Hg; [cbn in Hj; lia|].
  exists seq. apply elem_of_group. rewrite Hg. apply list_elem_of_here.
Qed.

(** C3: for a batch in which every sequence carries parameters, whatever
    _get_combined_spec_proposals returns is in batch order: the rows at
    position [i] are the rows that the worker serving sequence [i] answered
    for that sequence, which is the [k]-th of the worker's sub-batch when [k]
    sequences of the sub-batch stand before it in the batch.  And the call
    does return whenever the batch is not empty, every worker that serves a
    sequence is registered and answers its sub-batch with a row for each of
    its sequences, and the rows answered can be stacked: in each of the three
    lists they have one size and live on one device. *)
Theorem combined_proposals_keep_batch_order _workers req bonus w :
  (∀ seq, seq ∈ seq_group_metadata_list req → is_Some (spec_decode_params seq)) →
  (∀ proposals w',
     _get_combined_spec_proposals _workers req bonus w = (Return proposals, w') →
     length (proposal_token_ids proposals) = length (seq_group_metadata_list req)
     ∧ ∀ i seq,
         seq_group_metadata_list req !! i = Some seq →
         ∃ proposer worker answer k,
           served_by (heap w) (valid_proposers_of _workers) seq = Some proposer
           ∧ dict_get _workers proposer = Some worker
           ∧ worker_get_spec_proposals (worker_ops worker) (heap w)
               (clone req (group (heap w) (valid_proposers_of _workers)
                             (seq_group_metadata_list req) proposer)) bonus
             = Return answer
           ∧ k = length (group (heap w) (valid_proposers_of _workers)
                           (take i (seq_group_metadata_list req)) proposer)
           ∧ group (heap w) (valid_proposers_of _workers)
               (seq_group_metadata_list req) proposer !! k = Some seq
           ∧ is_Some (proposal_token_ids proposals !! i)
           ∧ proposal_token_ids proposals !! i = proposal_token_ids answer !! k
           ∧ proposal_probs proposals !! i = proposal_probs answer !! k
           ∧ proposal_lens proposals !! i = proposal_lens answer !! k)
  ∧ (seq_group_metadata_list req ≠ [] →
     workers_answer _workers (heap w) req bonus →
     rows_agree _workers (heap w) req bonus →
     ∃ proposals w',
       _get_combined_spec_proposals _workers req bonus w = (Return proposals, w')).
Proof.
  intros Hparams.
  destruct (combined_stages _workers req bonus w) as (ks & Hnodup & Hks & Hstages).
  set (batch := seq_group_metadata_list req) in *.
  set (valid := valid_proposers_of _workers) in *.
  set (h := heap w) in *.
  split.
  - intros proposals w' Hrun. rewrite Hrun in Hstages.
    destruct Hstages as (Hreg & (Hlen1 & Htok & _) & (_ & Hprobs & _) & (_ & Hlens & _) & _).
    split; [by rewrite length_fmap in Hlen1|].
    intros i seq Hi.
    destruct (Hparams seq) as [a Ha]; [by eapply list_elem_of_lookup_2|].
    set (proposer := resolve valid (proposer_name (h a))).
    assert (served_by h valid seq = Some proposer) as Hserved
      by (unfold served_by, assignment; by rewrite Ha).
    assert (proposer ∈ ks) as Hin.
    { apply Hks. exists seq. split; [by eapply list_elem_of_lookup_2|done]. }
    destruct (Hreg proposer Hin) as (worker & answer & Hget & Hanswer).
    destruct (group_position _ _ _ _ _ _ Hi Hserved) as [Hidx Hseq].
    set (k := length (group h valid (take i batch) proposer)) in *.
    destruct (Htok proposer k i Hin Hidx) as (t1 & Ht1 & Hm1).
    destruct (Hprobs proposer k i Hin Hidx) as (t2 & Ht2 & Hm2).
    destruct (Hlens proposer k i Hin Hidx) as (t3 & Ht3 & Hm3).
    rewrite Hanswer in Ht1, Ht2, Ht3. cbn in Ht1, Ht2, Ht3.
    rewrite list_lookup_fmap in Hm1, Hm2, Hm3.
    exists proposer, worker, answer, k.
    unfold backend_result in Hanswer. rewrite Hget in Hanswer.
    rewrite Ht1, Ht2, Ht3.
    destruct (proposal_token_ids proposals !! i) as [u1|]; [|done].
    destruct (proposal_probs proposals !! i) as [u2|]; [|done].
    destruct (proposal_lens proposals !! i) as [u3|]; [|done].
    cbn in Hm1, Hm2, Hm3.
    split_and!; [done..|by eexists|congruence|congruence|congruence].
  - intros Hne Hanswer Hagree.
    destruct (_get_combined_spec_proposals _workers req bonus w) as [[proposals|e] w'];
      [eauto|].
    exfalso. destruct Hstages as [?|[(seq & Hin & Hnone)|[Hno|[_ Hno]]]]; [done| |done..].
    destruct (Hparams seq Hin) as [a Ha]. congruence.
Qed.

(** * Further properties of the module *)

(** ** What the two implemented policies return *)

Lemma proposal_latency_returns valid (batch : list SequenceGroupMetadata) w :
  ∃ chosen exit,
    for_enumerate (proposal_latency_body valid) 0 batch ngram w
    = (Return (chosen, exit), w)
    ∧ (chosen ∈ valid ∨ chosen = ngram).
Proof.
  pose proof (for_enumerate_rule (proposal_latency_body valid)
    (fun _ s w' => w' = w ∧ (s ∈ valid ∨ s = ngram))
    (fun _ s w' => w' = w ∧ (s ∈ valid ∨ s = ngram))
    (fun _ _ _ => False) batch) as Hrule.
  assert (Hstep : ∀ n x s w0, batch !! n = Some x →
    w0 = w ∧ (s ∈ valid ∨ s = ngram) →
    match proposal_latency_body valid n x s w0 with
    | (Return (s', Next), w') => w' = w ∧ (s' ∈ valid ∨ s' = ngram)
    | (Return (s', Break), w') => w' = w ∧ (s' ∈ valid ∨ s' = ngram)
    | (Raise _, _) => False
    end).
  { intros n x s w0 _ [-> Hs].
    destruct (assignment (heap w) x) as [p|] eqn:Hp.
    - rewrite (proposal_latency_body_assigned _ _ _ _ _ _ Hp).
      repeat case_bool_decide; subst; auto.
    - by rewrite (proposal_latency_body_unassigned _ _ _ _ _ Hp). }
  specialize (Hrule Hstep ngram w (conj eq_refl (or_intror eq_refl))).
  destruct (for_enumerate _ _ _ _ _) as [[[s' [k|]]|e] w'].
  - destruct Hrule as (_ & -> & ?). eauto.
  - destruct Hrule as (-> & ?). eauto.
  - by destruct Hrule as (? & _ & ?).
Qed.

(** [max] over counts kept as [dict_of]: the winner is a key and no key has
    a greater count. *)
Lemma max_from_dict_of (count : string → nat) ks x d :
  dict_of count ks = x :: d →
  max_from x d ∈ ks ∧ ∀ q, q ∈ ks → count q ≤ count (max_from x d).
Proof.
  intros Hd.
  destruct (max_from_spec d x) as (l1 & l2 & c & Hsplit & Hl1 & Hl2).
  rewrite <- Hd in Hsplit.
  assert (Hitem : ∀ y, y ∈ dict_of count ks → y.1 ∈ ks ∧ y.2 = count y.1).
  { intros y (k & -> & Hk)%list_elem_of_fmap. done. }
  assert ((max_from x d, c) ∈ dict_of count ks) as Hwin.
  { rewrite Hsplit, elem_of_app, elem_of_cons. auto. }
  apply Hitem in Hwin as [Hwin Hc]. cbn in Hwin, Hc. split; [done|].
  intros q Hq.
  assert ((q, count q) ∈ dict_of count ks) as Hqd.
  { apply list_elem_of_fmap. by exists q. }
  rewrite Hsplit, elem_of_app, elem_of_cons in Hqd.
  destruct Hqd as [H1|[[= -> _]|H2]].
  - specialize (Hl1 _ H1). cbn in Hl1. lia.
  - done.
  - specialize (Hl2 _ H2). cbn in Hl2. lia.
Qed.

(** X1: given a request, the policies "proposal_latency" and "popularity"
    never raise and never touch the heap or a worker, and the name they
    return is a key of the registry or the fallback name. *)
Theorem selected_proposer_is_registered_or_fallback _workers req w :
  (∃ chosen,
     _get_proposer_for_this_step _workers (Some req) (Some "proposal_latency") w
     = (Return chosen, w)
     ∧ (chosen ∈ valid_proposers_of _workers ∨ chosen = ngram))
  ∧ (∃ chosen,
       _get_proposer_for_this_step _workers (Some req) (Some "popularity") w
       = (Return chosen, w)
       ∧ (chosen ∈ valid_proposers_of _workers ∨ chosen = ngram)).
Proof.
  split.
  - rewrite proposal_latency_policy.
    destruct (proposal_latency_returns (valid_proposers_of _workers)
                (seq_group_metadata_list req) w) as (chosen & exit & -> & Hchosen).
    by exists chosen.
  - rewrite popularity_policy.
    destruct (popularity_loop _workers req w) as (d & exit & -> & ks & -> & _ & Hks & _).
    cbn [fst].
    destruct (dict_of _ ks) as [|x d] eqn:Hd; [exists ngram; auto|].
    destruct (max_from_dict_of _ _ _ _ Hd) as [Hwin _].
    exists (max_from x d). split; [done|]. left. by apply Hks.
Qed.

(** X2: under the popularity policy a registered name that more sequences
    ask for than for any other registered name is returned, wherever those
    sequences stand in the batch. *)
Theorem popularity_strict_majority _workers req w proposer :
  proposer ∈ valid_proposers_of _workers →
  0 < votes (heap w) (seq_group_metadata_list req) proposer →
  (∀ q, q ∈ valid_proposers_of _workers → q ≠ proposer →
     votes (heap w) (seq_group_metadata_list req) q
     < votes (heap w) (seq_group_metadata_list req) proposer) →
  _get_proposer_for_this_step _workers (Some req) (Some "popularity") w
  = (Return proposer, w).
Proof.
  intros Hvalid Hpos Hmore. rewrite popularity_policy.
  destruct (popularity_loop _workers req w) as (d & exit & -> & ks & -> & _ & Hks & _).
  cbn [fst].
  assert (proposer ∈ ks) as Hin by by apply Hks.
  destruct (dict_of _ ks) as [|x d] eqn:Hd.
  { destruct ks; [by apply elem_of_nil in Hin|done]. }
  destruct (max_from_dict_of _ _ _ _ Hd) as [Hwin Hmax].
  destruct (decide (max_from x d = proposer)) as [->|Hne]; [done|].
  exfalso. specialize (Hmax proposer Hin).
  assert (max_from x d ∈ valid_proposers_of _workers) as Hw by by apply Hks.
  specialize (Hmore _ Hw Hne). lia.
Qed.

(** ** get_spec_proposals, lines 63-89 *)

Lemma get_spec_proposals_run _workers req bonus w chosen :
  _get_proposer_for_this_step _workers (Some req) (Some "proposal_latency") w
  = (Return chosen, w) →
  get_spec_proposals _workers req bonus w
  = match dict_get _workers chosen with
    | Some worker =>
        (worker_get_spec_proposals (worker_ops worker) (heap w) req bonus,
         {| heap := heap w;
            calls := calls w ++ [call_get_spec_proposals chosen req bonus] |})
    | None => (Raise (KeyError chosen), w)
    end.
Proof.
  intros Hchosen. unfold get_spec_proposals. rewrite bind_run, Hchosen.
  unfold getitem, invoke_get_spec_proposals.
  destruct (dict_get _workers chosen) as [worker|]; by run_monad.
Qed.

Lemma proposal_latency_nothing_registered valid (batch : list SequenceGroupMetadata) w :
  (∀ seq p, seq ∈ batch → assignment (heap w) seq = Some p → p ∉ valid) →
  ∃ exit,
    for_enumerate (proposal_latency_body valid) 0 batch ngram w
    = (Return (ngram, exit), w).
Proof.
  intros Hnone.
  pose proof (for_enumerate_rule (proposal_latency_body valid)
    (fun _ s w' => w' = w ∧ s = ngram)
    (fun _ s w' => w' = w ∧ s = ngram)
    (fun _ _ _ => False) batch) as Hrule.
  assert (Hstep : ∀ n x s w0, batch !! n = Some x → w0 = w ∧ s = ngram →
    match proposal_latency_body valid n x s w0 with
    | (Return (s', Next), w') => w' = w ∧ s' = ngram
    | (Return (s', Break), w') => w' = w ∧ s' = ngram
    | (Raise _, _) => False
    end).
  { intros n x s w0 Hx [-> ->].
    destruct (assignment (heap w) x) as [p|] eqn:Hp.
    - rewrite (proposal_latency_body_assigned _ _ _ _ _ _ Hp).
      repeat case_bool_decide; subst; [done..|].
      exfalso. by eapply Hnone; [eapply list_elem_of_lookup_2|..].
    - by rewrite (proposal_latency_body_unassigned _ _ _ _ _ Hp). }
  specialize (Hrule Hstep ngram w (conj eq_refl eq_refl)).
  destruct (for_enumerate _ _ _ _ _) as [[[s' [k|]]|e] w'].
  - destruct Hrule as (_ & -> & ->). eauto.
  - destruct Hrule as (-> & ->). eauto.
  - by destruct Hrule as (? & _ & ?).
Qed.

(** X3: with the fallback registered, get_spec_proposals makes exactly one
    call: it hands the whole request to the get_spec_proposals of the worker
    registered under the name the "proposal_latency" policy chose, and returns
    or raises what that worker returns or raises; the heap is left alone. *)
Theorem get_spec_proposals_delegates_once _workers req bonus w :
  ngram ∈ valid_proposers_of _workers →
  ∃ chosen worker,
    _get_proposer_for_this_step _workers (Some req) (Some "proposal_latency") w
    = (Return chosen, w)
    ∧ dict_get _workers chosen = Some worker
    ∧ get_spec_proposals _workers req bonus w
      = (worker_get_spec_proposals (worker_ops worker) (heap w) req bonus,
         {| heap := heap w;
            calls := calls w ++ [call_get_spec_proposals chosen req bonus] |}).
Proof.
  intros Hfallback.
  assert (∃ chosen,
    _get_proposer_for_this_step _workers (Some req) (Some "proposal_latency") w
    = (Return chosen, w) ∧ chosen ∈ valid_proposers_of _workers)
    as (chosen & Hchosen & Hvalid).
  { rewrite proposal_latency_policy.
    destruct (proposal_latency_returns (valid_proposers_of _workers)
                (seq_group_metadata_list req) w) as (chosen & exit & -> & [?| ->]);
      by exists chosen || by exists ngram. }
  destruct (dict_get_is_Some _workers chosen Hvalid) as [worker Hget].
  exists chosen, worker. split_and!; [done..|].
  by rewrite (get_spec_proposals_run _ _ _ _ _ Hchosen), Hget.
Qed.

(** X4: when the fallback is not registered and no sequence asks for a
    registered name (an empty registry, an empty batch, only unknown names),
    get_spec_proposals raises KeyError for the fallback name without calling
    a worker. *)
Theorem get_spec_proposals_without_fallback _workers req bonus w :
  ngram ∉ valid_proposers_of _workers →
  (∀ seq p, seq ∈ seq_group_metadata_list req →
     assignment (heap w) seq = Some p → p ∉ valid_proposers_of _workers) →
  get_spec_proposals _workers req bonus w = (Raise (KeyError ngram), w).
Proof.
  intros Hfallback Hnone.
  assert (_get_proposer_for_this_step _workers (Some req) (Some "proposal_latency") w
          = (Return ngram, w)) as Hchosen.
  { rewrite proposal_latency_policy.
    by destruct (proposal_latency_nothing_registered _ _ w Hnone) as (exit & ->). }
  rewrite (get_spec_proposals_run _ _ _ _ _ Hchosen).
  by rewrite (proj2 (dict_get_None _workers ngram) Hfallback).
Qed.

(** ** execute_model, whatever its outcome *)

Lemma execute_model_scan_world _workers req w :
  let run := for_enumerate (execute_model_body _workers (valid_proposers_of _workers)) 0
               (seq_group_metadata_list req) ngram w in
  calls run.2 = calls w
  ∧ coerced (valid_proposers_of _workers) (heap w) (heap run.2).
Proof.
  set (valid := valid_proposers_of _workers).
  set (batch := seq_group_metadata_list req).
  pose (kept := fun (_ : nat) (_ : string) w' =>
    calls w' = calls w ∧ coerced valid (heap w) (heap w')).
  assert (Hstep : ∀ n x s w0, batch !! n = Some x → kept n s w0 →
    match execute_model_body _workers valid n x s w0 with
    | (Return (s', Next), w') => kept (S n) s' w'
    | (Return (s', Break), w') => kept n s' w'
    | (Raise e, w') => (fun _ (_ : exn) w' => kept 0 ngram w') n e w'
    end).
  { intros n x s w0 _ [Hcalls Hco].
    destruct (spec_decode_params x) as [a|] eqn:Ha.
    - rewrite (execute_model_body_assigned _ _ _ _ _ _ _ Ha). cbn zeta.
      set (w1 := if bool_decide _ then _ else w0).
      assert (kept 0 ngram w1) as Hw1.
      { subst w1. case_bool_decide; [|done].
        split; [done|]. by apply coerced_store. }
      destruct (dict_get _ _) as [worker|]; [|done].
      by destruct (truthy _).
    - by rewrite (execute_model_body_unassigned _ _ _ _ _ _ Ha). }
  pose proof (for_enumerate_rule (execute_model_body _workers valid)
    kept kept (fun _ _ w' => kept 0 ngram w') batch Hstep ngram w
    (conj eq_refl (coerced_refl _ _))) as Hrule.
  cbn zeta.
  destruct (for_enumerate _ _ _ _ _) as [[[s' [k|]]|e] w']; cbn [snd].
  - by destruct Hrule as [_ ?].
  - done.
  - by destruct Hrule as (? & _ & ?).
Qed.

(** X5: whatever execute_model is given and however it ends, it changes the
    heap only by replacing names that are not registered by the fallback name
    (a registered name is never rewritten), and it calls at most one worker,
    on that worker's execute_model and with the whole request. *)
Theorem execute_model_only_coerces _workers execute_model_req w :
  coerced (valid_proposers_of _workers) (heap w)
    (heap (execute_model _workers execute_model_req w).2)
  ∧ (calls (execute_model _workers execute_model_req w).2 = calls w
     ∨ ∃ proposer req,
         execute_model_req = Some req
         ∧ calls (execute_model _workers execute_model_req w).2
           = calls w ++ [call_execute_model proposer req]).
Proof.
  destruct execute_model_req as [req|]; [|split; [apply coerced_refl|by left]].
  rewrite execute_model_unfold.
  pose proof (execute_model_scan_world _workers req w) as [Hcalls Hco].
  cbn zeta in Hcalls, Hco.
  destruct (for_enumerate _ _ _ _ _) as [[[proposer [k|]]|e] w']; cbn [snd] in *.
  - destruct (dict_get _workers proposer) as [worker|]; cbn [snd heap calls].
    + split; [done|]. right. exists proposer, req. by rewrite Hcalls.
    + split; [done|by left].
  - split; [done|by left].
  - split; [done|by left].
Qed.

(** X6: when the fallback is not registered and the first sequence that does
    not simply pass (it asks for a name that is not registered, while every
    sequence before it asks for nothing or for a registered worker that runs
    no model steps) is reached, execute_model raises KeyError for the fallback
    name; no worker has been called, and the rewrite of that sequence's
    assignment to the fallback name has already happened. *)
Theorem execute_model_without_fallback _workers req w k seq sd_params :
  ngram ∉ valid_proposers_of _workers →
  seq_group_metadata_list req !! k = Some seq →
  spec_decode_params seq = Some sd_params →
  proposer_name (heap w sd_params) ∉ valid_proposers_of _workers →
  (∀ j seq', j < k → seq_group_metadata_list req !! j = Some seq' →
     steps_models _workers (heap w) seq' = false
     ∧ ∀ p, assignment (heap w) seq' = Some p → p ∈ valid_proposers_of _workers) →
  ∃ w',
    execute_model _workers (Some req) w = (Raise (KeyError ngram), w')
    ∧ calls w' = calls w
    ∧ proposer_name (heap w' sd_params) = ngram.
Proof.
  intros Hfallback Hk Ha Hunknown Hbefore.
  set (valid := valid_proposers_of _workers) in *.
  set (batch := seq_group_metadata_list req) in *.
  pose (w1 := {| heap := heap_store sd_params {| proposer_name := ngram |} (heap w);
                 calls := calls w |}).
  assert (Hstep : ∀ n x s w0, batch !! n = Some x → n ≤ k ∧ w0 = w →
    match execute_model_body _workers valid n x s w0 with
    | (Return (s', Next), w') => S n ≤ k ∧ w' = w
    | (Return (s', Break), w') => False
    | (Raise e, w') => e = KeyError ngram ∧ w' = w1
    end).
  { intros n x s w0 Hx [Hle ->].
    destruct (decide (n = k)) as [->|Hne].
    - assert (x = seq) as -> by congruence.
      rewrite (execute_model_body_assigned _ _ _ _ _ _ _ Ha). cbn zeta.
      rewrite resolve_invalid, bool_decide_eq_true_2 by done.
      by rewrite (proj2 (dict_get_None _workers ngram) Hfallback).
    - destruct (Hbefore n x) as [Hquiet Hreg]; [lia|done|].
      destruct (spec_decode_params x) as [a|] eqn:Hxa.
      + rewrite (execute_model_body_assigned _ _ _ _ _ _ _ Hxa). cbn zeta.
        assert (proposer_name (heap w a) ∈ valid) as Hin
          by (apply Hreg; by rewrite (assignment_Some _ _ _ Hxa)).
        rewrite resolve_valid, bool_decide_eq_false_2 by (done || by intros []).
        unfold steps_models, served_by in Hquiet.
        rewrite (assignment_Some _ _ _ Hxa) in Hquiet. cbn in Hquiet.
        fold valid in Hquiet. rewrite resolve_valid in Hquiet by done.
        destruct (dict_get_is_Some _workers _ Hin) as [worker Hget].
        rewrite Hget in Hquiet |- *. rewrite Hquiet. split; [lia|done].
      + rewrite (execute_model_body_unassigned _ _ _ _ _ _ Hxa). split; [lia|done]. }
  pose proof (for_enumerate_rule (execute_model_body _workers valid)
    (fun n _ w' => n ≤ k ∧ w' = w) (fun _ _ _ => False)
    (fun _ e w' => e = KeyError ngram ∧ w' = w1) batch Hstep ngram w
    (conj (Nat.le_0_l k) eq_refl)) as Hrule.
  rewrite execute_model_unfold. fold valid batch.
  destruct (for_enumerate _ _ _ _ _) as [[[s' [n|]]|e] w'].
  - by destruct Hrule as [_ ?].
  - destruct Hrule as [Hle _]. apply lookup_lt_Some in Hk. lia.
  - destruct Hrule as (n & _ & -> & ->). exists w1. split_and!; [done..|].
    cbn. unfold heap_store. by rewrite decide_True.
Qed.

(** X7: with the fallback registered, after an execute_model that found no
    sequence resolving to a worker that runs model steps, every sequence of
    the batch that carries parameters asks for a registered name. *)
Theorem execute_model_leaves_registered_names _workers req w :
  ngram ∈ valid_proposers_of _workers →
  (∀ seq, seq ∈ seq_group_metadata_list req →
     steps_models _workers (heap w) seq = false) →
  ∀ seq sd_params,
    seq ∈ seq_group_metadata_list req →
    spec_decode_params seq = Some sd_params →
    proposer_name (heap (execute_model _workers (Some req) w).2 sd_params)
    ∈ valid_proposers_of _workers.
Proof.
  intros Hfallback Hquiet seq a Hin Ha.
  rewrite execute_model_unfold.
  pose proof (execute_model_scan _workers req w) as Hscan. cbn zeta in Hscan.
  destruct (for_enumerate _ _ _ _ _) as [[[proposer [k|]]|e] w'].
  - destruct Hscan as (_ & _ & seq' & worker & Hk & Hserved & Hget & Hms).
    assert (steps_models _workers (heap w) seq' = true) as Htrue
      by (apply steps_models_true; eauto).
    rewrite Hquiet in Htrue; [done|]. by eapply list_elem_of_lookup_2.
  - destruct Hscan as [(_ & Hco & Hdone) _]. cbn [snd].
    apply list_elem_of_lookup in Hin as [i Hi].
    destruct (decide (proposer_name (heap w a) ∈ valid_proposers_of _workers))
      as [Hreg|Hunknown].
    + destruct (Hco a) as [->|[? _]]; done.
    + rewrite (Hdone i seq a); [done|by eapply lookup_lt_Some|done..].
  - done.
Qed.

(** ** The cache operations with a model-stepping worker, lines 130-150 *)

Lemma for_enumerate_skip {A St} (body : nat → A → St → M (St * flow)) pre l i s w :
  (∀ n x, x ∈ pre → body n x s w = (Return (s, Next), w)) →
  for_enumerate body i (pre ++ l) s w = for_enumerate body (i + length pre) l s w.
Proof.
  revert i. induction pre as [|x pre IH]; intros i Hskip; cbn.
  - by rewrite Nat.add_0_r.
  - rewrite bind_run, Hskip by apply list_elem_of_here. cbn.
    rewrite IH; [f_equal; lia|].
    intros n y Hy. apply Hskip. by apply list_elem_of_further.
Qed.

(** X8: when the registry holds a worker that passes the probe,
    get_cache_block_size_bytes and determine_num_available_blocks return what
    the first such worker in registry order reports, and call that worker and
    no other. *)
Theorem cache_answers_of_first_multi_step_worker _workers w pre name worker post :
  _workers = pre ++ (name, worker) :: post →
  (∀ item, item ∈ pre → truthy (is_multi_step_worker_instance item.2) = false) →
  truthy (is_multi_step_worker_instance worker) = true →
  get_cache_block_size_bytes _workers w
  = (Return (worker_get_cache_block_size_bytes (worker_ops worker)),
     {| heap := heap w;
        calls := calls w ++ [call_get_cache_block_size_bytes name] |})
  ∧ determine_num_available_blocks _workers w
    = (Return (worker_determine_num_available_blocks (worker_ops worker)),
       {| heap := heap w;
          calls := calls w ++ [call_determine_num_available_blocks name] |}).
Proof.
  intros -> Hpre Hworker. split.
  - unfold get_cache_block_size_bytes. rewrite bind_run, for_enumerate_skip.
    + cbn. rewrite bind_run. unfold get_cache_block_size_bytes_body at 1. cbn [fst snd].
      rewrite Hworker. by run_monad.
    + intros n item Hitem. unfold get_cache_block_size_bytes_body.
      by rewrite Hpre.
  - unfold determine_num_available_blocks. rewrite bind_run, for_enumerate_skip.
    + cbn. rewrite bind_run. unfold determine_num_available_blocks_body at 1.
      cbn [fst snd]. rewrite Hworker. by run_monad.
    + intros n item Hitem. unfold determine_num_available_blocks_body.
      by rewrite Hpre.
Qed.

Lemma initialize_cache_loop _workers (num_gpu_blocks num_cpu_blocks : Z) i w :
  (∀ item, item ∈ multi_step_workers _workers →
     worker_initialize_cache (worker_ops item.2) num_gpu_blocks num_cpu_blocks
     = Return tt) →
  for_enumerate (initialize_cache_body num_gpu_blocks num_cpu_blocks) i _workers tt w
  = (Return (tt, None),
     {| heap := heap w;
        calls := calls w
                 ++ ((fun item => call_initialize_cache item.1 num_gpu_blocks num_cpu_blocks)
                       <$> multi_step_workers _workers) |}).
Proof.
  unfold multi_step_workers.
  revert i w. induction _workers as [|[name worker] _workers IH]; intros i w Hok.
  - cbn. rewrite app_nil_r. by destruct w.
  - cbn [for_enumerate]. rewrite bind_run. unfold initialize_cache_body at 1. cbn [fst snd].
    rewrite (filter_cons (fun item : string * Worker Tensor SamplerOutput =>
                            truthy (is_multi_step_worker_instance item.2) = true)) in Hok |- *.
    cbn [snd] in Hok |- *.
    destruct (truthy (is_multi_step_worker_instance worker)) eqn:Hms.
    + rewrite decide_True in Hok |- * by done.
      pose proof (Hok (name, worker) (list_elem_of_here _ _)) as Hfirst. cbn in Hfirst.
      run_monad. rewrite Hfirst. cbn. rewrite IH.
      * cbn. by rewrite <- (assoc_L (++)).
      * intros item Hitem. apply Hok. by apply list_elem_of_further.
    + rewrite decide_False in Hok |- * by done. run_monad. by rewrite IH.
Qed.

Lemma initialize_cache_loop_raise _workers (num_gpu_blocks num_cpu_blocks : Z)
    i w pre item post e :
  multi_step_workers _workers = pre ++ item :: post →
  (∀ item', item' ∈ pre →
     worker_initialize_cache (worker_ops item'.2) num_gpu_blocks num_cpu_blocks
     = Return tt) →
  worker_initialize_cache (worker_ops item.2) num_gpu_blocks num_cpu_blocks = Raise e →
  for_enumerate (initialize_cache_body num_gpu_blocks num_cpu_blocks) i _workers tt w
  = (Raise e,
     {| heap := heap w;
        calls := calls w
                 ++ ((fun item => call_initialize_cache item.1 num_gpu_blocks num_cpu_blocks)
                       <$> pre ++ [item]) |}).
Proof.
  unfold multi_step_workers.
  revert i w pre. induction _workers as [|[name worker] _workers IH];
    intros i w pre Hsplit Hok Hraise.
  - by destruct pre.
  - cbn [for_enumerate]. rewrite bind_run. unfold initialize_cache_body at 1. cbn [fst snd].
    rewrite (filter_cons (fun item : string * Worker Tensor SamplerOutput =>
                            truthy (is_multi_step_worker_instance item.2) = true)) in Hsplit.
    cbn [snd] in Hsplit.
    destruct (truthy (is_multi_step_worker_instance worker)) eqn:Hms.
    + rewrite decide_True in Hsplit by done.
      destruct pre as [|first pre]; cbn in Hsplit; injection Hsplit as <- Hsplit.
      * cbn in Hraise. run_monad. by rewrite Hraise.
      * pose proof (Hok (name, worker) (list_elem_of_here _ _)) as Hfirst. cbn in Hfirst.
        run_monad. rewrite Hfirst. cbn. rewrite (IH _ _ pre Hsplit).
        -- cbn. by rewrite <- (assoc_L (++)).
        -- intros item' Hitem'. apply Hok. by apply list_elem_of_further.
        -- done.
    + rewrite decide_False in Hsplit by done. run_monad. by rewrite (IH _ _ pre Hsplit).
Qed.

(** X9: initialize_cache calls initialize_cache, with the two block counts
    it was given, on the workers of the registry that pass the probe, once
    each and in registry order, and on no other worker.  When all of these
    calls return it has called every such worker and returns; when one of
    them raises, it raises the same exception, and the workers that pass the
    probe and stand after that one in the registry are not called. *)
Theorem initialize_cache_reaches_multi_step_workers _workers
    (num_gpu_blocks num_cpu_blocks : Z) w :
  ((∀ item, item ∈ multi_step_workers _workers →
      worker_initialize_cache (worker_ops item.2) num_gpu_blocks num_cpu_blocks
      = Return tt) →
   initialize_cache _workers num_gpu_blocks num_cpu_blocks w
   = (Return tt,
      {| heap := heap w;
         calls := calls w
                  ++ ((fun item => call_initialize_cache item.1 num_gpu_blocks num_cpu_blocks)
                        <$> multi_step_workers _workers) |}))
  ∧ (∀ pre item post e,
       multi_step_workers _workers = pre ++ item :: post →
       (∀ item', item' ∈ pre →
          worker_initialize_cache (worker_ops item'.2) num_gpu_blocks num_cpu_blocks
          = Return tt) →
       worker_initialize_cache (worker_ops item.2) num_gpu_blocks num_cpu_blocks
       = Raise e →
       initialize_cache _workers num_gpu_blocks num_cpu_blocks w
       = (Raise e,
          {| heap := heap w;
             calls := calls w
                      ++ ((fun item =>
                             call_initialize_cache item.1 num_gpu_blocks num_cpu_blocks)
                            <$> pre ++ [item]) |})).
Proof.
  split.
  - intros Hok. unfold initialize_cache. rewrite bind_run.
    by rewrite initialize_cache_loop.
  - intros pre item post e Hsplit Hok Hraise. unfold initialize_cache. rewrite bind_run.
    by rewrite (initialize_cache_loop_raise _ _ _ _ _ pre item post e).
Qed.

(** ** The probe through wrappers *)

(** The probe looks through any number of wrappers. *)
Lemma probe_wrap_with (layers : list (WorkerOps Tensor SamplerOutput))
    (inner : Worker Tensor SamplerOutput) :
  is_multi_step_worker_instance (wrap_with layers inner)
  = is_multi_step_worker_instance inner.
Proof. induction layers as [|ops layers IH]; [done|]. cbn. exact IH. Qed.

Lemma probe_truthy_inv :
  ∀ obj : Worker Tensor SamplerOutput,
    truthy (is_multi_step_worker_instance obj) = true →
    ∃ layers ops, obj = wrap_with layers (MultiStepWorker ops).
Proof.
  fix IH 1. intros [ops|[inner|] ops|ops] Hprobe; cbn in Hprobe; try done.
  - by exists [], ops.
  - destruct (IH inner Hprobe) as (layers & ops' & ->).
    by exists (ops :: layers), ops'.
Qed.

(** X10: a worker passes the probe exactly when it is a MultiStepWorker
    under any number (none included) of SmallerTpProposerWorker wrappers, each
    of which has its [_worker] attribute. *)
Theorem probe_accepts_wrapped_multi_step_workers (obj : Worker Tensor SamplerOutput) :
  truthy (is_multi_step_worker_instance obj) = true
  ↔ ∃ layers ops, obj = wrap_with layers (MultiStepWorker ops).
Proof.
  split; [apply probe_truthy_inv|].
  intros (layers & ops & ->). by rewrite probe_wrap_with.
Qed.

(** ** _get_combined_spec_proposals: the partition as the code makes it *)

Lemma lookup_group_indices_from h valid p pre batch :
  (fun i => (pre ++ batch) !! i) <$> group_indices_from h valid p (length pre) batch
  = Some <$> group h valid batch p.
Proof.
  revert pre. induction batch as [|x batch IH]; intros pre; [done|].
  cbn [group_indices_from]. rewrite fmap_app.
  specialize (IH (pre ++ [x])). rewrite <- (assoc_L (++)) in IH. cbn in IH.
  rewrite length_app in IH. cbn in IH.
  replace (length pre + 1) with (S (length pre)) in IH by lia. rewrite IH.
  unfold group. rewrite filter_cons.
  case_decide; [|done]. cbn. by rewrite list_lookup_middle.
Qed.

(** X11: the partition of lines 224-235 never fails and leaves heap and
    workers alone.  Its two dictionaries have the same keys, each once; the
    indices recorded for a proposer are, without repetition, exactly the
    positions of the sequences it serves (the sequences that carry parameters
    and ask for it, or for an unregistered name when it is the fallback), and
    the sequences stored for it are the sequences at those positions in the
    same order.  So every sequence that carries parameters is recorded under
    exactly one proposer; a sequence without parameters is recorded nowhere. *)
Theorem partition_records_sequences_with_params valid (batch : list SequenceGroupMetadata) w :
  ∃ proposer_requests original_indices exit,
    for_enumerate (partition_body valid) 0 batch ([], []) w
    = (Return ((proposer_requests, original_indices), exit), w)
    ∧ dict_keys proposer_requests = dict_keys original_indices
    ∧ NoDup (dict_keys original_indices)
    ∧ ∀ p, match dict_get original_indices p with
           | Some indices =>
               indices ≠ []
               ∧ NoDup indices
               ∧ (∀ i, i ∈ indices ↔
                    ∃ seq, batch !! i = Some seq ∧ served_by (heap w) valid seq = Some p)
               ∧ ∃ sq_list, dict_get proposer_requests p = Some sq_list
                   ∧ (fun i => batch !! i) <$> indices = Some <$> sq_list
           | None =>
               dict_get proposer_requests p = None
               ∧ ∀ seq, seq ∈ batch → served_by (heap w) valid seq ≠ Some p
           end.
Proof.
  destruct (partition_loop valid batch w)
    as ([pr oi] & exit & Hrun & ks & Hpr & Hoi & Hnodup & Hks).
  cbn [fst snd] in Hpr, Hoi. subst pr oi.
  eexists _, _, exit. split; [exact Hrun|].
  rewrite !dict_keys_dict_of. split_and!; [done..|].
  intros p. rewrite !dict_get_dict_of.
  destruct (decide (p ∈ ks)) as [Hin|Hin].
  - split_and!.
    + apply Hks in Hin as (seq & (i & Hi)%list_elem_of_lookup & Hserved).
      intros Hnil.
      assert (i ∈ group_indices (heap w) valid batch p) as Hmem
        by (apply elem_of_group_indices; eauto).
      rewrite Hnil in Hmem. by apply elem_of_nil in Hmem.
    + apply NoDup_group_indices.
    + intros i. apply elem_of_group_indices.
    + eexists. split; [done|].
      apply (lookup_group_indices_from (heap w) valid p [] batch).
  - split; [done|]. intros seq Hseq Hserved. apply Hin, Hks. eauto.
Qed.

(** ** _get_combined_spec_proposals: dispatch and failures *)

Lemma submit_loop_calls _workers req bonus (f : string → list SequenceGroupMetadata) ks w :
  (∀ p, p ∈ ks → f p ≠ []) →
  let call p := call_get_spec_proposals p (clone req (f p)) bonus in
  match for_enumerate (submit_body _workers req bonus) 0 (dict_of f ks) [] w with
  | (Return (_, None), w') =>
      heap w' = heap w ∧ calls w' = calls w ++ (call <$> ks)
  | (Return (_, Some _), _) => False
  | (Raise e, w') =>
      heap w' = heap w
      ∧ ∃ n p, ks !! n = Some p ∧ dict_get _workers p = None ∧ e = KeyError p
               ∧ calls w' = calls w ++ (call <$> take n ks)
  end.
Proof.
  intros Hnonempty call.
  assert (Hstep : ∀ n x futs w0, dict_of f ks !! n = Some x →
    heap w0 = heap w ∧ calls w0 = calls w ++ (call <$> take n ks) →
    match submit_body _workers req bonus n x futs w0 with
    | (Return (_, Next), w') =>
        heap w' = heap w ∧ calls w' = calls w ++ (call <$> take (S n) ks)
    | (Return (_, Break), _) => False
    | (Raise e, w') =>
        heap w' = heap w
        ∧ ∃ n p, ks !! n = Some p ∧ dict_get _workers p = None ∧ e = KeyError p
                 ∧ calls w' = calls w ++ (call <$> take n ks)
    end).
  { intros n x futs w0 (p & Hp & ->)%lookup_dict_of (Hheap & Hcalls).
    unfold submit_body. cbn [fst snd].
    rewrite bool_decide_eq_true_2
      by (rewrite length_zero_iff_nil; apply Hnonempty; by eapply list_elem_of_lookup_2).
    unfold getitem, invoke_get_spec_proposals.
    destruct (dict_get _workers p) as [worker|] eqn:Hget; run_monad.
    - split; [done|].
      by rewrite (take_S_r _ _ _ Hp), fmap_app, Hcalls, <- (assoc_L (++)).
    - split; [done|]. by exists n, p. }
  pose proof (for_enumerate_rule (submit_body _workers req bonus)
    (fun n _ w' => heap w' = heap w ∧ calls w' = calls w ++ (call <$> take n ks))
    (fun _ _ _ => False)
    (fun _ e w' =>
       heap w' = heap w
       ∧ ∃ n p, ks !! n = Some p ∧ dict_get _workers p = None ∧ e = KeyError p
                ∧ calls w' = calls w ++ (call <$> take n ks))
    (dict_of f ks) Hstep [] w) as Hrule.
  destruct (for_enumerate _ _ _ _ _) as [[[futures [n|]]|e] w'].
  - destruct Hrule as [_ ?]; [|done]. split; [done|]. by rewrite take_0, app_nil_r.
  - destruct Hrule as [Hheap Hcalls].
    { split; [done|]. by rewrite take_0, app_nil_r. }
    unfold dict_of in Hcalls. by rewrite length_fmap, firstn_all in Hcalls.
  - destruct Hrule as (? & _ & ?); [|done]. split; [done|]. by rewrite take_0, app_nil_r.
Qed.

Lemma torch_stack_world (l : list (option Tensor)) w : (torch_stack l w).2 = w.
Proof.
  unfold torch_stack. destruct l; [done|].
  destruct (all_tensors _) as [ts|]; [|done]. by destruct (all_stackable ts).
Qed.

(** The call up to the barrier of lines 253-255: the proposers that serve a
    sequence, the calls made on their workers, and how a missing or failing
    worker ends the call. *)
Lemma combined_dispatch _workers req bonus w :
  let h := heap w in
  let valid := valid_proposers_of _workers in
  let batch := seq_group_metadata_list req in
  let call p := call_get_spec_proposals p (clone req (group h valid batch p)) bonus in
  let run := _get_combined_spec_proposals _workers req bonus w in
  ∃ ks,
    NoDup ks
    ∧ (∀ p, p ∈ ks ↔ ∃ seq, seq ∈ batch ∧ served_by h valid seq = Some p)
    ∧ heap run.2 = heap w
    ∧ ((∃ n p, ks !! n = Some p ∧ dict_get _workers p = None
               ∧ run.1 = Raise (KeyError p)
               ∧ calls run.2 = calls w ++ (call <$> take n ks))
       ∨ (calls run.2 = calls w ++ (call <$> ks)
          ∧ (∀ p, p ∈ ks → is_Some (dict_get _workers p))
          ∧ ((∃ p e, p ∈ ks ∧ backend_result _workers h req bonus p = Raise e
                     ∧ run.1 = Raise e)
             ∨ (∀ p, p ∈ ks → ∃ a, backend_result _workers h req bonus p = Return a)))).
Proof.
  intros h valid batch call run.
  destruct (partition_loop valid batch w) as ([pr oi] & exit & Hpart & ks & Hpr & Hoi & Hnodup & Hks).
  cbn [fst snd] in Hpr, Hoi. subst pr oi. fold h in Hks.
  exists ks. split_and!; [done..|apply heap_kept__get_combined_spec_proposals|].
  assert (Hnonempty : ∀ p, p ∈ ks → group h valid batch p ≠ []).
  { intros p (seq & Hin & Hp)%Hks Hnil.
    assert (seq ∈ group h valid batch p) as Hg by by apply elem_of_group.
    rewrite Hnil in Hg. by apply elem_of_nil in Hg. }
  subst run. unfold _get_combined_spec_proposals. fold valid batch.
  rewrite bind_run, Hpart. cbn [fst snd]. fold h.
  rewrite bind_run.
  pose proof (submit_loop _workers req bonus (group h valid batch) ks w Hnonempty) as Hsubmit.
  pose proof (submit_loop_calls _workers req bonus (group h valid batch) ks w Hnonempty)
    as Hcalls.
  cbn zeta in Hsubmit, Hcalls. fold h in Hsubmit.
  destruct (for_enumerate (submit_body _workers req bonus) 0 _ [] w)
    as [[[futures [n|]]|e] w1]; [done| |].
  2: { left. destruct Hcalls as (_ & n & p & Hp & Hget & -> & Hc). by exists n, p. }
  destruct Hsubmit as (Hheap & -> & Hreg). destruct Hcalls as [_ Hcalls].
  right. cbn [fst snd].
  rewrite bind_run.
  pose proof (result_loop (backend_result _workers h req bonus) ks w1 Hnodup) as Hresult.
  change (fun p => (p, match dict_get _workers p with
                       | Some worker =>
                           worker_get_spec_proposals (worker_ops worker) h
                             (clone req (group h valid batch p)) bonus
                       | None => Raise (KeyError p)
                       end))
    with (fun p => (p, backend_result _workers h req bonus p)).
  destruct (for_enumerate result_body 0 _ [] w1)
    as [[[all_proposals [n|]]|e] w2]; [done| |].
  2: { destruct Hresult as (-> & p & Hp & Hraise). cbn [fst snd].
       split_and!; [done..|]. left. by exists p, e. }
  destruct Hresult as (-> & Hok & ->). cbn [fst snd].
  rewrite bind_run.
  assert (Hc1 : ∀ p, p ∈ ks → NoDup (group_indices h valid batch p))
    by (intros; apply NoDup_group_indices).
  assert (Hc2 : ∀ p q idx, p ∈ ks → q ∈ ks →
            idx ∈ group_indices h valid batch p →
            idx ∈ group_indices h valid batch q → p = q)
    by (intros; by eapply group_indices_disjoint).
  assert (Hc3 : ∀ p idx, p ∈ ks → idx ∈ group_indices h valid batch p →
            idx < length batch)
    by (intros; by eapply group_indices_lt).
  pose proof (combine_loop (fun p => answer_of (backend_result _workers h req bonus p))
    (group_indices h valid batch) ks (length batch) w1 Hnodup Hc1 Hc2 Hc3) as Hcombine.
  destruct (for_enumerate (combine_body _) 0 _ _ w1) as [[[merged [n|]]|e] w3]; [done| |].
  2: { destruct Hcombine as (-> & _). cbn [fst snd]. split_and!; [done..|by right]. }
  destruct Hcombine as (-> & _). cbn [fst snd].
  split_and!; [|done|by right].
  rewrite bind_run.
  pose proof (torch_stack_world (merged_token_ids merged) w1) as Hw1.
  destruct (torch_stack (merged_token_ids merged) w1) as [[ts1|e1] w4];
    cbn in Hw1; subst w4; [|done].
  rewrite bind_run.
  pose proof (torch_stack_world (merged_probs merged) w1) as Hw2.
  destruct (torch_stack (merged_probs merged) w1) as [[ts2|e2] w5];
    cbn in Hw2; subst w5; [|done].
  rewrite bind_run.
  pose proof (torch_stack_world (merged_lens merged) w1) as Hw3.
  destruct (torch_stack (merged_lens merged) w1) as [[ts3|e3] w6];
    cbn in Hw3; subst w6; done.
Qed.

Lemma served_by_registered h valid seq p :
  ngram ∈ valid → served_by h valid seq = Some p → p ∈ valid.
Proof.
  unfold served_by. intros Hfallback Hserved.
  destruct (assignment h seq) as [q|]; [|done]. injection Hserved as <-.
  by destruct (resolve_cases valid q) as [?|[-> _]].
Qed.

(** X12: with the fallback registered, _get_combined_spec_proposals calls
    get_spec_proposals exactly once on the worker of every proposer that
    serves a sequence of the batch, handing it the request cut down to the
    sequences it serves, and calls nothing else; this holds however the call
    ends, and the heap is left as it was. *)
Theorem combined_proposals_call_each_serving_worker_once _workers req bonus w :
  ngram ∈ valid_proposers_of _workers →
  ∃ ks,
    NoDup ks
    ∧ (∀ p, p ∈ ks ↔
         ∃ seq, seq ∈ seq_group_metadata_list req
                ∧ served_by (heap w) (valid_proposers_of _workers) seq = Some p)
    ∧ heap (_get_combined_spec_proposals _workers req bonus w).2 = heap w
    ∧ calls (_get_combined_spec_proposals _workers req bonus w).2
      = calls w
        ++ ((fun p =>
               call_get_spec_proposals p
                 (clone req (group (heap w) (valid_proposers_of _workers)
                               (seq_group_metadata_list req) p)) bonus) <$> ks).
Proof.
  intros Hfallback.
  destruct (combined_dispatch _workers req bonus w)
    as (ks & Hnodup & Hks & Hheap & [(n & p & Hp & Hget & _)|(Hcalls & _)]).
  - exfalso. apply dict_get_None in Hget. apply Hget.
    assert (p ∈ ks) as (seq & _ & Hserved)%Hks by by eapply list_elem_of_lookup_2.
    by eapply served_by_registered.
  - by exists ks.
Qed.

(** X13: with the fallback registered, when the worker of a proposer that
    serves a sequence of the batch raises, _get_combined_spec_proposals
    returns nothing: it raises, and what it raises is the exception of such
    a worker. *)
Theorem combined_proposals_fail_together _workers req bonus w :
  ngram ∈ valid_proposers_of _workers →
  (∃ seq p e,
     seq ∈ seq_group_metadata_list req
     ∧ served_by (heap w) (valid_proposers_of _workers) seq = Some p
     ∧ backend_result _workers (heap w) req bonus p = Raise e) →
  ∃ seq p e,
    seq ∈ seq_group_metadata_list req
    ∧ served_by (heap w) (valid_proposers_of _workers) seq = Some p
    ∧ backend_result _workers (heap w) req bonus p = Raise e
    ∧ (_get_combined_spec_proposals _workers req bonus w).1 = Raise e.
Proof.
  intros Hfallback (seq & p & e & Hin & Hserved & Hraise).
  destruct (combined_dispatch _workers req bonus w)
    as (ks & Hnodup & Hks & Hheap & [(n & q & Hq & Hget & _)|(_ & _ & Hresults)]).
  - exfalso. apply dict_get_None in Hget. apply Hget.
    assert (q ∈ ks) as (seq' & _ & Hserved')%Hks by by eapply list_elem_of_lookup_2.
    by eapply served_by_registered.
  - destruct Hresults as [(q & e' & Hq & Hraise' & Hrun)|Hok].
    + apply Hks in Hq as (seq' & Hin' & Hserved'). by exists seq', q, e'.
    + destruct (Hok p) as [a Ha]; [apply Hks; eauto|]. congruence.
Qed.

(** X14: when the fallback is not registered and some sequence of the batch
    asks for a name that is not registered, _get_combined_spec_proposals
    raises KeyError for the fallback name. *)
Theorem combined_proposals_without_fallback _workers req bonus w :
  ngram ∉ valid_proposers_of _workers →
  (∃ seq p, seq ∈ seq_group_metadata_list req
            ∧ assignment (heap w) seq = Some p
            ∧ p ∉ valid_proposers_of _workers) →
  (_get_combined_spec_proposals _workers req bonus w).1 = Raise (KeyError ngram).
Proof.
  intros Hfallback (seq & p & Hin & Hasks & Hunknown).
  assert (served_by (heap w) (valid_proposers_of _workers) seq = Some ngram) as Hserved.
  { unfold served_by. rewrite Hasks. cbn. by rewrite resolve_invalid. }
  destruct (combined_dispatch _workers req bonus w)
    as (ks & Hnodup & Hks & Hheap & [(n & q & Hq & Hget & Hrun & _)|(_ & Hreg & _)]).
  - assert (q ∈ ks) as (seq' & _ & Hserved')%Hks by by eapply list_elem_of_lookup_2.
    apply dict_get_None in Hget.
    unfold served_by in Hserved'.
    destruct (assignment (heap w) seq') as [q'|]; [|done]. injection Hserved' as <-.
    destruct (resolve_cases (valid_proposers_of _workers) q') as [?|[Heq _]]; [done|].
    by rewrite Hrun, Heq.
  - exfalso. destruct (Hreg ngram) as [worker Hget]; [apply Hks; eauto|].
    apply dict_get_Some_key in Hget. done.
Qed.

(** X15: _get_combined_spec_proposals returns only for a batch that is not
    empty, in which every sequence carries parameters, and for which every
    proposer that serves a sequence is registered and its worker answered its
    sub-batch with a row for each of its sequences; what it returns has one
    row per sequence of the batch in each of its three lists, and the heap is
    as it was. *)
Theorem combined_proposals_return_only_if _workers req bonus w proposals w' :
  _get_combined_spec_proposals _workers req bonus w = (Return proposals, w') →
  seq_group_metadata_list req ≠ []
  ∧ (∀ seq, seq ∈ seq_group_metadata_list req → is_Some (spec_decode_params seq))
  ∧ workers_answer _workers (heap w) req bonus
  ∧ length (proposal_token_ids proposals) = length (seq_group_metadata_list req)
  ∧ length (proposal_probs proposals) = length (seq_group_metadata_list req)
  ∧ length (proposal_lens proposals) = length (seq_group_metadata_list req)
  ∧ heap w' = heap w.
Proof.
  intros Hrun.
  destruct (combined_stages _workers req bonus w) as (ks & Hnodup & Hks & Hstages).
  rewrite Hrun in Hstages.
  destruct Hstages as (Hreg & (Hl1 & Htok & _) & (Hl2 & Hprobs & _) & (Hl3 & Hlens & _) & _).
  rewrite length_fmap in Hl1, Hl2, Hl3.
  split_and!; [| | |done..|].
  - intros Hempty. unfold _get_combined_spec_proposals in Hrun.
    by rewrite Hempty in Hrun.
  - intros seq Hin. destruct (spec_decode_params seq) eqn:Hparams; [by eexists|].
    exfalso. eapply combined_proposals_need_params; [|exact Hrun]. eauto.
  - intros p Hserving. apply Hks in Hserving as Hin.
    destruct (Hreg p Hin) as (worker & a & Hget & Ha).
    exists worker, a. split_and!; [done..| | |].
    all: rewrite <- (length_group_indices_from (heap w) (valid_proposers_of _workers) p 0).
    all: fold (group_indices (heap w) (valid_proposers_of _workers)
                 (seq_group_metadata_list req) p).
    all: destruct (group_indices (heap w) (valid_proposers_of _workers)
                     (seq_group_metadata_list req) p) as [|i0 l] eqn:Hgi using rev_ind;
      [cbn; lia|clear IHl].
    + destruct (Htok p (length l) i0 Hin) as (t & Ht & _).
      { rewrite Hgi. by apply list_lookup_middle. }
      rewrite Ha in Ht. cbn in Ht. apply lookup_lt_Some in Ht.
      rewrite length_app. cbn. lia.
    + destruct (Hprobs p (length l) i0 Hin) as (t & Ht & _).
      { rewrite Hgi. by apply list_lookup_middle. }
      rewrite Ha in Ht. cbn in Ht. apply lookup_lt_Some in Ht.
      rewrite length_app. cbn. lia.
    + destruct (Hlens p (length l) i0 Hin) as (t & Ht & _).
      { rewrite Hgi. by apply list_lookup_middle. }
      rewrite Ha in Ht. cbn in Ht. apply lookup_lt_Some in Ht.
      rewrite length_app. cbn. lia.
  - pose proof (heap_kept__get_combined_spec_proposals _workers req bonus w) as Hheap.
    by rewrite Hrun in Hheap.
Qed.

(** X17: when the batch is not empty, every sequence carries parameters and
    every serving worker is registered and answers with a row for each of its
    sequences, but the rows answered cannot be stacked (in one of the three
    lists two of them differ in size or device), _get_combined_spec_proposals
    raises the RuntimeError of [torch.stack]. *)
Theorem combined_proposals_need_stackable_rows _workers req bonus w :
  seq_group_metadata_list req ≠ [] →
  (∀ seq, seq ∈ seq_group_metadata_list req → is_Some (spec_decode_params seq)) →
  workers_answer _workers (heap w) req bonus →
  ¬ rows_agree _workers (heap w) req bonus →
  (_get_combined_spec_proposals _workers req bonus w).1 = Raise RuntimeError.
Proof.
  intros Hne Hparams Hanswer Hragged.
  destruct (combined_stages _workers req bonus w) as (ks & _ & _ & Hstages).
  destruct (_get_combined_spec_proposals _workers req bonus w) as [[proposals|e] w'].
  - by destruct Hstages as (_ & _ & _ & _ & Hagree).
  - destruct Hstages as [?|[(seq & Hin & Hnone)|[?|[-> _]]]]; [done| |done..].
    destruct (Hparams seq Hin) as [a Ha]. congruence.
Qed.


(** ** The constructor *)

(** X16: __init__ succeeds only for tensor_parallel_size 1.  The object it
    builds has the vocabulary size of "model_config", and its registry is the
    "worker_list" it was given, the empty one when that keyword is missing.
    So on an object built without "worker_list", get_spec_proposals raises
    KeyError for the fallback name on every request and calls nothing, and the
    cache queries answer with their defaults. *)
Theorem worker_built_without_worker_list
    (kwargs : Kwargs Tensor SamplerOutput) self :
  __init__ kwargs = Return self →
  kwargs_parallel_config kwargs = Some 1%Z
  ∧ kwargs_model_config kwargs = Some (self_vocab_size self)
  ∧ self_workers self = default [] (kwargs_worker_list kwargs)
  ∧ (kwargs_worker_list kwargs = None →
     ∀ req bonus w,
       get_spec_proposals (self_workers self) req bonus w = (Raise (KeyError ngram), w)
       ∧ get_cache_block_size_bytes (self_workers self) w = (Return 0%Z, w)
       ∧ determine_num_available_blocks (self_workers self) w
         = (Return ((-1)%Z, (-1)%Z), w)).
Proof.
  unfold __init__. intros Hinit.
  destruct (kwargs_model_config kwargs) as [vocab|]; [|done].
  destruct (kwargs_parallel_config kwargs) as [draft_tp|]; [|done].
  case_bool_decide as Htp; [done|].
  injection Hinit as <-. cbn [self_workers self_vocab_size].
  split_and!; [|done..|].
  - f_equal. by destruct (decide (draft_tp = 1%Z)).
  - intros -> req bonus w. cbn [default]. split_and!; [|done..].
    assert (_get_proposer_for_this_step ([] : Registry Tensor SamplerOutput)
              (Some req) (Some "proposal_latency") w = (Return ngram, w)) as Hchosen.
    { rewrite proposal_latency_policy.
      destruct (proposal_latency_nothing_registered
                  (valid_proposers_of ([] : Registry Tensor SamplerOutput))
                  (seq_group_metadata_list req) w) as (exit & ->); [|done].
      intros seq p _ _. apply not_elem_of_nil. }
    by rewrite (get_spec_proposals_run _ _ _ _ _ Hchosen).
Qed.

End Properties.

(** * The properties at work on the sample registry *)

(** Takes a hypothesis [x ∈ [a; b; ...]] apart, one goal per element. *)
Ltac each_member H :=
  cbn in H;
  repeat (apply elem_of_cons in H as [->|H]);
  [..|by apply elem_of_nil in H].

(** Settles a closed decidable proposition by evaluating its decision. *)
Ltac decide_closed := apply (bool_decide_unpack _); vm_compute; exact I.

(** C1, at the input on which the code departs from it: a batch of one
    sequence that carries no parameters.  The partition puts the sequence in
    no group (both dictionaries stay empty), no worker is called, slot 0 of
    the merged lists is never written, and the call ends in the TypeError
    that [torch.stack] raises on the empty slot.  The same happens to the
    second sequence of a batch whose first sequence asks for "A". *)
Theorem combined_proposals_skip_missing_params :
  for_enumerate (partition_body (valid_proposers_of sample_workers)) 0
    [seq_without_params] ([], []) (world_of [])
  = (Return (([], []), None), world_of [])
  ∧ _get_combined_spec_proposals sample_workers
      {| seq_group_metadata_list := [seq_without_params] |} [] (world_of [])
    = (Raise TypeError, world_of [])
  ∧ (for_enumerate (partition_body (valid_proposers_of sample_workers)) 0
       [seq_at 0; seq_without_params] ([], []) (world_of ["A"])).1
    = Return (([("A", [seq_at 0])], [("A", [0])]), None)
  ∧ (_get_combined_spec_proposals sample_workers
       {| seq_group_metadata_list := [seq_at 0; seq_without_params] |} []
       (world_of ["A"])).1
    = Raise TypeError.
Proof. split_and!; reflexivity. Qed.

(** C2 fails as it is stated: "zz" is not a registered name, and the
    sequence that asks for it still asks for it after get_spec_proposals and
    after _get_combined_spec_proposals have returned; after execute_model has
    returned it still does so when it stands behind the sequence at which the
    scan stopped. *)
Lemma unknown_assignment_survives :
("zz" ∉ valid_proposers_of sample_workers)
  ∧ (∃ proposals w',
       get_spec_proposals sample_workers (batch_of 2) [] (world_of ["zz"; "A"])
       = (Return proposals, w')
       ∧ assignment (heap w') (seq_at 0) = Some "zz")
  ∧ (∃ proposals w',
       _get_combined_spec_proposals sample_workers (batch_of 2) []
         (world_of ["zz"; "A"])
       = (Return proposals, w')
       ∧ assignment (heap w') (seq_at 0) = Some "zz")
  ∧ (∃ outputs w',
       execute_model sample_workers (Some (batch_of 2)) (world_of ["A"; "zz"])
       = (Return outputs, w')
       ∧ assignment (heap w') (seq_at 1) = Some "zz").
Proof.
  split_and!.
  - decide_closed.
  - eexists _, _. split; [compute; reflexivity|reflexivity].
  - eexists _, _. split; [compute; reflexivity|reflexivity].
  - eexists _, _. split; [compute; reflexivity|reflexivity].
Qed.

Lemma coercion_only_in_execute_model_witness :
  proposer_name
    (heap (execute_model sample_workers (Some (batch_of 3))
             (world_of ["zz"; "A"; "yy"])).2 0)
  = ngram
  ∧ proposer_name
      (heap (get_spec_proposals sample_workers (batch_of 3) []
               (world_of ["zz"; "A"; "yy"])).2 0)
    = "zz".
Proof.
  pose proof (coercion_only_in_execute_model sample_workers (batch_of 3)
                (world_of ["zz"; "A"; "yy"])) as (Hkept & _ & Hrewritten).
  split.
  - apply (Hrewritten ["A"] _ eq_refl 0 (seq_at 0) 0); [reflexivity..| |].
    + decide_closed.
    + intros j seq' Hj. lia.
  - by rewrite Hkept.
Defined.

Lemma combined_proposals_keep_batch_order_witness :
  (∀ seq, seq ∈ seq_group_metadata_list (batch_of 4) →
     is_Some (spec_decode_params seq))
  ∧ workers_answer sample_workers (heap (world_of ["A"; ngram; "A"; "B"])) (batch_of 4) []
  ∧ rows_agree sample_workers (heap (world_of ["A"; ngram; "A"; "B"])) (batch_of 4) []
  ∧ ∃ proposals w',
      _get_combined_spec_proposals sample_workers (batch_of 4) []
        (world_of ["A"; ngram; "A"; "B"])
      = (Return proposals, w')
      ∧ ∀ answer, worker_get_spec_proposals (stub_ops "A")
                    (heap (world_of ["A"; ngram; "A"; "B"]))
                    (clone (batch_of 4) [seq_at 0; seq_at 2]) [] = Return answer →
          proposal_token_ids proposals !! 2 = proposal_token_ids answer !! 1.
Proof.
  assert (Hparams : ∀ seq, seq ∈ seq_group_metadata_list (batch_of 4) →
                      is_Some (spec_decode_params seq)).
  { intros seq Hin. each_member Hin; by eexists. }
  assert (Hanswer : workers_answer sample_workers
                      (heap (world_of ["A"; ngram; "A"; "B"])) (batch_of 4) []).
  { intros p (seq & Hin & Hserved).
    each_member Hin; vm_compute in Hserved; injection Hserved as <-;
      eexists _, _; (split; [reflexivity|]); (split; [reflexivity|]);
      vm_compute; lia. }
  assert (Hagree : rows_agree sample_workers
                     (heap (world_of ["A"; ngram; "A"; "B"])) (batch_of 4) []).
  { split_and!.
    all: intros p q a b j k t u Ha Hb
           (seq1 & Hin1 & Hs1)%group_serving (seq2 & Hin2 & Hs2)%group_serving Ht Hu.
    all: each_member Hin1; vm_compute in Hs1; injection Hs1 as <-;
           vm_compute in Ha; injection Ha as <-;
           apply list_elem_of_lookup_2 in Ht; each_member Ht.
    all: each_member Hin2; vm_compute in Hs2; injection Hs2 as <-;
           vm_compute in Hb; injection Hb as <-;
           apply list_elem_of_lookup_2 in Hu; each_member Hu.
    all: split; reflexivity. }
  split_and!; [done..|].
  destruct (combined_proposals_keep_batch_order sample_workers (batch_of 4) []
              (world_of ["A"; ngram; "A"; "B"]) Hparams) as [Horder Hreturn].
  destruct Hreturn as (proposals & w' & Hrun); [done..|].
  exists proposals, w'. split; [done|].
  intros answer Hstub.
  destruct (Horder _ _ Hrun) as (_ & Hrows).
  destruct (Hrows 2 (seq_at 2) eq_refl)
    as (proposer & worker & answer' & k & Hserved & Hget & Hanswer' & -> & _ & _ & Htok & _).
  vm_compute in Hserved. injection Hserved as <-.
  vm_compute in Hget. injection Hget as <-.
  assert (answer' = answer) as -> by (vm_compute in Hanswer', Hstub; congruence).
  exact Htok.
Defined.

Lemma proposal_latency_fallback_wins_witness :
  (∃ seq, seq ∈ seq_group_metadata_list (batch_of 3)
          ∧ assignment (heap (world_of ["A"; ngram; "B"])) seq = Some ngram)
  ∧ _get_proposer_for_this_step sample_workers (Some (batch_of 3))
      (Some "proposal_latency") (world_of ["A"; ngram; "B"])
    = (Return ngram, world_of ["A"; ngram; "B"]).
Proof.
  assert (Hsome : ∃ seq, seq ∈ seq_group_metadata_list (batch_of 3)
            ∧ assignment (heap (world_of ["A"; ngram; "B"])) seq = Some ngram).
  { exists (seq_at 1). split; [|reflexivity].
    apply (list_elem_of_lookup_2 _ 1). reflexivity. }
  split; [done|].
  apply (proposal_latency_fallback_wins sample_workers (batch_of 3)
           (world_of ["A"; ngram; "B"]) Hsome).
Defined.

Lemma proposal_latency_last_valid_wins_witness :
  _get_proposer_for_this_step sample_workers (Some (batch_of 3))
    (Some "proposal_latency") (world_of ["A"; "B"; "A"])
  = (Return "A", world_of ["A"; "B"; "A"])
  ∧ _get_proposer_for_this_step sample_workers (Some (batch_of 3))
      (Some "proposal_latency") (world_of ["A"; "B"; "zz"])
    = (Return "B", world_of ["A"; "B"; "zz"])
  ∧ _get_proposer_for_this_step sample_workers
      (Some {| seq_group_metadata_list := [seq_without_params] |})
      (Some "proposal_latency") (world_of [])
    = (Return ngram, world_of []).
Proof.
  split_and!.
  - apply (proj1 (proposal_latency_last_valid_wins sample_workers (batch_of 3)
                    (world_of ["A"; "B"; "A"]))) with (k := 2) (seq := seq_at 2).
    + intros seq Hin. each_member Hin; discriminate.
    + reflexivity.
    + reflexivity.
    + decide_closed.
    + intros j seq' proposer' Hj Hseq'.
      apply lookup_lt_Some in Hseq'. cbn in Hseq'. lia.
  - apply (proj1 (proposal_latency_last_valid_wins sample_workers (batch_of 3)
                    (world_of ["A"; "B"; "zz"]))) with (k := 1) (seq := seq_at 1).
    + intros seq Hin. each_member Hin; discriminate.
    + reflexivity.
    + reflexivity.
    + decide_closed.
    + intros j seq' proposer' Hj Hseq' Hasks.
      destruct j as [|[|[|j]]]; [lia..| |by cbn in Hseq'].
      injection Hseq' as <-. injection Hasks as <-. decide_closed.
  - apply (proj2 (proposal_latency_last_valid_wins sample_workers
                    {| seq_group_metadata_list := [seq_without_params] |}
                    (world_of []))).
    intros seq Hin. each_member Hin. reflexivity.
Defined.

Lemma popularity_first_maximum_witness :
  ∃ winner,
    _get_proposer_for_this_step sample_workers (Some (batch_of 4))
      (Some "popularity") (world_of ["B"; "A"; "A"; "B"])
    = (Return winner, world_of ["B"; "A"; "A"; "B"])
    ∧ winner = "B".
Proof.
  destruct (proj1 (popularity_first_maximum sample_workers (batch_of 4)
                     (world_of ["B"; "A"; "A"; "B"])))
    as (winner & Hrun & _).
  { exists (seq_at 0), "B". split_and!.
    - apply (list_elem_of_lookup_2 _ 0). reflexivity.
    - reflexivity.
    - decide_closed. }
  exists winner. split; [done|].
  by injection Hrun as <-.
Defined.

Lemma execute_model_delegation_witness :
  ngram ∈ valid_proposers_of sample_workers
  ∧ execute_model sample_workers None (world_of []) = (Return [], world_of [])
  ∧ (∃ w', execute_model sample_workers (Some (batch_of 2)) (world_of ["zz"; ngram])
           = (Return [], w')
           ∧ calls w' = [])
  ∧ ∃ proposer (worker : Worker string string) w',
      execute_model sample_workers (Some (batch_of 3)) (world_of ["zz"; "B"; "A"])
      = (worker_execute_model (worker_ops worker) (heap w') (batch_of 3),
         {| heap := heap w';
            calls := [call_execute_model proposer (batch_of 3)] |})
      ∧ proposer = "B".
Proof.
  assert (Hfallback : ngram ∈ valid_proposers_of sample_workers)
    by decide_closed.
  split_and!.
  - done.
  - apply (execute_model_delegation sample_workers (world_of []) Hfallback).
  - destruct (execute_model_delegation sample_workers (world_of ["zz"; ngram]) Hfallback)
      as (_ & _ & Hquiet & _).
    apply (Hquiet (batch_of 2)).
    intros seq Hin. each_member Hin; reflexivity.
  - destruct (execute_model_delegation sample_workers (world_of ["zz"; "B"; "A"]) Hfallback)
      as (_ & _ & _ & Hdelegate).
    destruct (Hdelegate (batch_of 3) 1 (seq_at 1)) as
      (proposer & worker & w' & Hserved & _ & _ & _ & _ & Hrun).
    + reflexivity.
    + reflexivity.
    + intros j seq' Hj Hseq'. destruct j as [|j]; [|lia].
      by injection Hseq' as <-.
    + exists proposer, worker, w'. split; [done|]. by injection Hserved as <-.
Defined.

Lemma schedule_policy_refused_witness :
  _get_proposer_for_this_step sample_workers (Some (batch_of 2)) (Some "fastest")
    (world_of ["A"; "B"])
  = (Raise ValueError, world_of ["A"; "B"])
  ∧ _get_proposer_for_this_step sample_workers (Some (batch_of 2)) None
      (world_of ["A"; "B"])
    = (Raise ValueError, world_of ["A"; "B"])
  ∧ _get_proposer_for_this_step sample_workers (Some (batch_of 2))
      (Some "proposal_quality") (world_of ["A"; "B"])
    = (Raise NotImplementedError, world_of ["A"; "B"]).
Proof.
  destruct (schedule_policy_refused sample_workers (batch_of 2) (world_of ["A"; "B"]))
    as [Hother Hquality].
  split_and!.
  - apply Hother; discriminate.
  - apply Hother; discriminate.
  - exact Hquality.
Defined.

Lemma cache_defaults_without_multi_step_worker_witness :
  (∀ item, item ∈ heuristic_workers →
     truthy (is_multi_step_worker_instance item.2) = false)
  ∧ determine_num_available_blocks heuristic_workers (world_of [])
    = (Return ((-1)%Z, (-1)%Z), world_of [])
  ∧ get_cache_block_size_bytes heuristic_workers (world_of [])
    = (Return 0%Z, world_of [])
  ∧ initialize_cache heuristic_workers 8 2 (world_of []) = (Return tt, world_of []).
Proof.
  assert (Hnone : ∀ item, item ∈ heuristic_workers →
            truthy (is_multi_step_worker_instance item.2) = false).
  { intros item Hin. each_member Hin; reflexivity. }
  split; [done|].
  apply (cache_defaults_without_multi_step_worker heuristic_workers (world_of [])
           8%Z 2%Z Hnone).
Defined.

(** * The further properties at work *)

Lemma popularity_strict_majority_witness :
  _get_proposer_for_this_step sample_workers (Some (batch_of 4))
    (Some "popularity") (world_of ["B"; "A"; "zz"; "A"])
  = (Return "A", world_of ["B"; "A"; "zz"; "A"]).
Proof.
  apply popularity_strict_majority.
  - decide_closed.
  - vm_compute. lia.
  - intros q Hq Hne. each_member Hq; [vm_compute; lia|done|vm_compute; lia].
Defined.

Lemma get_spec_proposals_delegates_once_witness :
  ngram ∈ valid_proposers_of sample_workers
  ∧ ∃ chosen (worker : Worker string string),
      dict_get sample_workers chosen = Some worker
      ∧ get_spec_proposals sample_workers (batch_of 2) [] (world_of ["zz"; "A"])
        = (worker_get_spec_proposals (worker_ops worker)
             (heap (world_of ["zz"; "A"])) (batch_of 2) [],
           {| heap := heap (world_of ["zz"; "A"]);
              calls := [call_get_spec_proposals chosen (batch_of 2) []] |}).
Proof.
  assert (Hfallback : ngram ∈ valid_proposers_of sample_workers) by decide_closed.
  split; [done|].
  destruct (get_spec_proposals_delegates_once sample_workers (batch_of 2) []
              (world_of ["zz"; "A"]) Hfallback) as (chosen & worker & _ & Hget & Hrun).
  by exists chosen, worker.
Defined.

Lemma get_spec_proposals_without_fallback_witness :
  get_spec_proposals drafts_only (batch_of 2) [] (world_of ["zz"; ngram])
  = (Raise (KeyError ngram), world_of ["zz"; ngram]).
Proof.
  apply get_spec_proposals_without_fallback.
  - decide_closed.
  - intros seq p Hin Hasks.
    each_member Hin; injection Hasks as <-; decide_closed.
Defined.

Lemma execute_model_without_fallback_witness :
  ∃ w',
    execute_model ((("plain", OtherProposerWorker (stub_ops "plain")) :: drafts_only))
      (Some (batch_of 3)) (world_of ["plain"; "zz"; "A"])
    = (Raise (KeyError ngram), w')
    ∧ calls w' = []
    ∧ proposer_name (heap w' 1) = ngram.
Proof.
  apply (execute_model_without_fallback
           (("plain", OtherProposerWorker (stub_ops "plain")) :: drafts_only)
           (batch_of 3) (world_of ["plain"; "zz"; "A"]) 1 (seq_at 1) 1).
  - decide_closed.
  - reflexivity.
  - reflexivity.
  - decide_closed.
  - intros j seq' Hj Hseq'. destruct j as [|j]; [|lia].
    injection Hseq' as <-. split; [reflexivity|].
    intros p [= <-]. decide_closed.
Defined.

Lemma execute_model_leaves_registered_names_witness :
  proposer_name
    (heap (execute_model heuristic_workers (Some (batch_of 2))
             (world_of ["zz"; "lookup"])).2 0)
  ∈ valid_proposers_of heuristic_workers.
Proof.
  apply (execute_model_leaves_registered_names heuristic_workers (batch_of 2)
           (world_of ["zz"; "lookup"])) with (seq := seq_at 0).
  - decide_closed.
  - intros seq Hin. each_member Hin; reflexivity.
  - apply (list_elem_of_lookup_2 _ 0). reflexivity.
  - reflexivity.
Defined.

Lemma cache_answers_of_first_multi_step_worker_witness :
  get_cache_block_size_bytes sample_workers (world_of [])
  = (Return 4096%Z,
     {| heap := heap (world_of []);
        calls := [call_get_cache_block_size_bytes "A"] |})
  ∧ determine_num_available_blocks sample_workers (world_of [])
    = (Return (100%Z, 10%Z),
       {| heap := heap (world_of []);
          calls := [call_determine_num_available_blocks "A"] |}).
Proof.
  apply (cache_answers_of_first_multi_step_worker sample_workers (world_of [])
           [(ngram, OtherProposerWorker (stub_ops ngram))] "A"
           (MultiStepWorker (stub_ops "A"))
           [("B", SmallerTpProposerWorker (Some (MultiStepWorker (stub_ops "inner")))
                    (stub_ops "B"))]).
  - reflexivity.
  - intros item Hin. each_member Hin. reflexivity.
  - reflexivity.
Defined.

Lemma initialize_cache_reaches_multi_step_workers_witness :
  initialize_cache sample_workers 8 2 (world_of [])
  = (Return tt,
     {| heap := heap (world_of []);
        calls := [call_initialize_cache "A" 8 2; call_initialize_cache "B" 8 2] |})
  ∧ initialize_cache workers_failing_midway 8 2 (world_of [])
    = (Raise (WorkerError "no blocks"),
       {| heap := heap (world_of []);
          calls := [call_initialize_cache "A" 8 2; call_initialize_cache "F" 8 2] |}).
Proof.
  split.
  - destruct (initialize_cache_reaches_multi_step_workers sample_workers 8 2
                (world_of [])) as [Hall _].
    apply Hall. intros item Hin. vm_compute in Hin. each_member Hin; reflexivity.
  - destruct (initialize_cache_reaches_multi_step_workers workers_failing_midway 8 2
                (world_of [])) as [_ Hraise].
    apply (Hraise [("A", MultiStepWorker (stub_ops "A"))]
             ("F", MultiStepWorker (failing_ops "no blocks"))
             [("C", MultiStepWorker (stub_ops "C"))]).
    + reflexivity.
    + intros item Hin. each_member Hin. reflexivity.
    + reflexivity.
Defined.

Lemma combined_proposals_call_each_serving_worker_once_witness :
  ngram ∈ valid_proposers_of sample_workers
  ∧ ∃ ks,
      NoDup ks
      ∧ calls (_get_combined_spec_proposals sample_workers (batch_of 3) []
                 (world_of ["A"; "zz"; "A"])).2
        = (fun p =>
             call_get_spec_proposals p
               (clone (batch_of 3)
                  (group (heap (world_of ["A"; "zz"; "A"]))
                     (valid_proposers_of sample_workers)
                     (seq_group_metadata_list (batch_of 3)) p)) []) <$> ks.
Proof.
  assert (Hfallback : ngram ∈ valid_proposers_of sample_workers) by decide_closed.
  split; [done|].
  destruct (combined_proposals_call_each_serving_worker_once sample_workers (batch_of 3) []
              (world_of ["A"; "zz"; "A"]) Hfallback) as (ks & Hnodup & _ & _ & Hcalls).
  by exists ks.
Defined.

Lemma combined_proposals_fail_together_witness :
  ∃ seq p e,
    seq ∈ seq_group_metadata_list (batch_of 2)
    ∧ backend_result workers_with_failure (heap (world_of [ngram; "A"]))
        (batch_of 2) [] p = Raise e
    ∧ (_get_combined_spec_proposals workers_with_failure (batch_of 2) []
         (world_of [ngram; "A"])).1 = Raise e.
Proof.
  destruct (combined_proposals_fail_together workers_with_failure (batch_of 2) []
              (world_of [ngram; "A"])) as (seq & p & e & Hin & _ & Hraise & Hrun).
  - decide_closed.
  - exists (seq_at 1), "A", (WorkerError "out of memory"). split_and!.
    + apply (list_elem_of_lookup_2 _ 1). reflexivity.
    + reflexivity.
    + reflexivity.
  - by exists seq, p, e.
Defined.

Lemma combined_proposals_without_fallback_witness :
  (_get_combined_spec_proposals drafts_only (batch_of 2) []
     (world_of ["A"; "zz"])).1
  = Raise (KeyError ngram).
Proof.
  apply combined_proposals_without_fallback.
  - decide_closed.
  - exists (seq_at 1), "zz". split_and!.
    + apply (list_elem_of_lookup_2 _ 1). reflexivity.
    + reflexivity.
    + decide_closed.
Defined.

Lemma combined_proposals_return_only_if_witness :
  workers_answer sample_workers (heap (world_of ["B"; "A"])) (batch_of 2) []
  ∧ length (proposal_probs
              {| proposal_token_ids := ["B:0"; "A:1"];
                 proposal_probs := ["B:0"; "A:1"];
                 proposal_lens := ["B:0"; "A:1"] |})
    = length (seq_group_metadata_list (batch_of 2)).
Proof.
  assert (Hrun : _get_combined_spec_proposals sample_workers (batch_of 2) []
                   (world_of ["B"; "A"])
                 = (Return {| proposal_token_ids := ["B:0"; "A:1"];
                              proposal_probs := ["B:0"; "A:1"];
                              proposal_lens := ["B:0"; "A:1"] |},
                    (_get_combined_spec_proposals sample_workers (batch_of 2) []
                       (world_of ["B"; "A"])).2))
    by (vm_compute; reflexivity).
  destruct (combined_proposals_return_only_if _ _ _ _ _ _ Hrun)
    as (_ & _ & Hanswer & _ & Hlen & _).
  by split.
Defined.

Lemma combined_proposals_need_stackable_rows_witness :
  ¬ rows_agree workers_with_wide_rows (heap (world_of [ngram; "wide"])) (batch_of 2) []
  ∧ (_get_combined_spec_proposals workers_with_wide_rows (batch_of 2) []
       (world_of [ngram; "wide"])).1
    = Raise RuntimeError.
Proof.
  assert (Hragged : ¬ rows_agree workers_with_wide_rows
                        (heap (world_of [ngram; "wide"])) (batch_of 2) []).
  { intros (Htok & _).
    destruct (Htok ngram "wide" _ _ 0 0 "[ngram]:0" "wide draft:1" eq_refl eq_refl)
      as [Hsize _]; [vm_compute; lia|vm_compute; lia|reflexivity|reflexivity|].
    vm_compute in Hsize. discriminate Hsize. }
  split; [done|].
  apply combined_proposals_need_stackable_rows; [done| | |done].
  - intros seq Hin. each_member Hin; by eexists.
  - intros p (seq & Hin & Hserved).
    each_member Hin; vm_compute in Hserved; injection Hserved as <-;
      eexists _, _; (split; [reflexivity|]); (split; [reflexivity|]);
      vm_compute; lia.
Defined.

Lemma worker_built_without_worker_list_witness :
  __init__ sample_kwargs
  = Return {| self_vocab_size := 32000%Z; self_workers := [] |}
  ∧ get_spec_proposals ([] : Registry string string) (batch_of 1) [] (world_of ["A"])
    = (Raise (KeyError ngram), world_of ["A"]).
Proof.
  assert (Hinit : __init__ sample_kwargs
                  = Return {| self_vocab_size := 32000%Z; self_workers := [] |})
    by reflexivity.
  split; [done|].
  destruct (worker_built_without_worker_list sample_kwargs _ Hinit)
    as (_ & _ & _ & Hempty).
  apply (Hempty eq_refl (batch_of 1) [] (world_of ["A"])).
Defined.
